(** * 48ix/workers: the mailing-list subscription worker

    A shallow embedding of [src/mailing-list.js] (the subscription
    state-resolution workflow and the MailJet client it is built on) together
    with the platform functions the worker calls ([btoa], [atob],
    [encodeURIComponent], [decodeURIComponent], [encodeURI]).

    JavaScript strings are sequences of UTF-16 code units and are modelled as
    [list N]; the remote services are an oracle answering [fetch] calls; the
    worker's code runs in a state-and-exception monad whose state holds the
    shared [Fetch.headers] object, the trace of outbound requests and the
    console. *)

From Stdlib Require Import NArith ZArith List String Ascii Lia Bool.
From stdpp Require Import base option list gmap strings pretty.

Set Default Proof Using "Type".
Set Warnings "-register-all".

(** ** JavaScript strings *)

(** A string literal of the source, as code units. *)
Definition lit (s : string) : list N :=
  (λ a, N_of_ascii a) <$> list_ascii_of_string s.

Module URI.
Local Open Scope N_scope.

(** *** Character classes (ECMA-262, 19.2.6) *)

Definition uriAlpha : list N :=
  lit "abcdefghijklmnopqrstuvwxyzABCDEFGHIJKLMNOPQRSTUVWXYZ".
Definition DecimalDigit : list N := lit "0123456789".
Definition uriMark : list N := lit "-_.!~*'()".
Definition uriReserved : list N := lit ";/?:@&=+$,".

Definition member (c : N) (set : list N) : bool := existsb (N.eqb c) set.

(** [encodeURIComponent] leaves uriUnescaped alone. *)
Definition uriUnescaped (c : N) : bool :=
  member c (uriAlpha ++ DecimalDigit ++ uriMark).

(** [encodeURI] leaves uriReserved, uriUnescaped and # alone. *)
Definition uriUnescapedOrReserved (c : N) : bool :=
  member c (uriReserved ++ uriAlpha ++ DecimalDigit ++ uriMark ++ lit "#").

Definition is_high_surrogate (c : N) : bool := (0xD800 <=? c) && (c <=? 0xDBFF).
Definition is_low_surrogate (c : N) : bool := (0xDC00 <=? c) && (c <=? 0xDFFF).

(** *** Hexadecimal digits *)

Definition hexdigit (n : N) : N := if n <? 10 then 48 + n else 55 + n.

Definition hexval (c : N) : option N :=
  if (48 <=? c) && (c <=? 57) then Some (c - 48)
  else if (65 <=? c) && (c <=? 70) then Some (c - 55)
  else if (97 <=? c) && (c <=? 102) then Some (c - 87)
  else None.

Definition hexpair (h1 h2 : N) : option N :=
  match hexval h1, hexval h2 with
  | Some a, Some b => Some (16 * a + b)
  | _, _ => None
  end.

(** "%XX" for one octet. *)
Definition pct (b : N) : list N := [37; hexdigit (b / 16); hexdigit (b mod 16)].

(** *** UTF-8 and UTF-16 *)

Definition utf8_encode (cp : N) : list N :=
  if cp <? 0x80 then [cp]
  else if cp <? 0x800 then [0xC0 + cp / 64; 0x80 + cp mod 64]
  else if cp <? 0x10000 then
    [0xE0 + cp / 4096; 0x80 + (cp / 64) mod 64; 0x80 + cp mod 64]
  else
    [0xF0 + cp / 262144; 0x80 + (cp / 4096) mod 64;
     0x80 + (cp / 64) mod 64; 0x80 + cp mod 64].

Definition is_continuation (b : N) : bool := (0x80 <=? b) && (b <=? 0xBF).

(** The code point of a UTF-8 sequence, when the sequence is the valid
    encoding of one: continuation octets are 10xxxxxx, the encoding is the
    shortest one, and the value is neither a surrogate nor above U+10FFFF. *)
Definition utf8_decode (octets : list N) : option N :=
  match octets with
  | [b0; b1] =>
      let v := (b0 - 0xC0) * 64 + (b1 - 0x80) in
      if is_continuation b1 && (0x80 <=? v) then Some v else None
  | [b0; b1; b2] =>
      let v := (b0 - 0xE0) * 4096 + (b1 - 0x80) * 64 + (b2 - 0x80) in
      if is_continuation b1 && is_continuation b2 && (0x800 <=? v)
         && negb ((0xD800 <=? v) && (v <=? 0xDFFF))
      then Some v else None
  | [b0; b1; b2; b3] =>
      let v := (b0 - 0xF0) * 262144 + (b1 - 0x80) * 4096
               + (b2 - 0x80) * 64 + (b3 - 0x80) in
      if is_continuation b1 && is_continuation b2 && is_continuation b3
         && (0x10000 <=? v) && (v <=? 0x10FFFF)
      then Some v else None
  | _ => None
  end.

Definition surrogate_pair_cp (hi lo : N) : N :=
  (hi - 0xD800) * 0x400 + (lo - 0xDC00) + 0x10000.

Definition utf16_encode (cp : N) : list N :=
  if cp <? 0x10000 then [cp]
  else [0xD800 + (cp - 0x10000) / 0x400; 0xDC00 + (cp - 0x10000) mod 0x400].

Definition pct_utf8 (cp : N) : list N := concat (pct <$> utf8_encode cp).

(** *** Encode (ECMA-262, 19.2.6.5) *)

Fixpoint Encode (unescaped : N → bool) (s : list N) : option (list N) :=
  match s with
  | [] => Some []
  | c :: r =>
      if unescaped c then (c ::.) <$> Encode unescaped r
      else if is_low_surrogate c then None
      else if is_high_surrogate c then
        match r with
        | d :: r' =>
            if is_low_surrogate d
            then (pct_utf8 (surrogate_pair_cp c d) ++.) <$> Encode unescaped r'
            else None
        | [] => None
        end
      else (pct_utf8 c ++.) <$> Encode unescaped r
  end.

(** [None] is the URIError. *)
Definition encodeURIComponent (s : list N) : option (list N) := Encode uriUnescaped s.
Definition encodeURI (s : list N) : option (list N) := Encode uriUnescapedOrReserved s.

(** *** Decode (ECMA-262, 19.2.6.6), with an empty reserved set *)

(** The number of leading 1 bits of an octet. *)
Definition leading_ones (b : N) : nat :=
  if b <? 0x80 then 0%nat
  else if b <? 0xC0 then 1%nat
  else if b <? 0xE0 then 2%nat
  else if b <? 0xF0 then 3%nat
  else if b <? 0xF8 then 4%nat
  else 5%nat.

(** One more "%XX" of a multi-octet sequence. *)
Definition escaped_octet (p h1 h2 : N) : option N :=
  if p =? 37 then hexpair h1 h2 else None.

Fixpoint Decode (s : list N) : option (list N) :=
  match s with
  | [] => Some []
  | c :: r0 =>
      if negb (c =? 37) then (c ::.) <$> Decode r0
      else
        match r0 with
        | h1 :: h2 :: r1 =>
            match hexpair h1 h2 with
            | None => None
            | Some b0 =>
                match leading_ones b0 with
                | 0%nat => (b0 ::.) <$> Decode r1
                | 2%nat =>
                    match r1 with
                    | p1 :: x1 :: y1 :: r2 =>
                        b1 ← escaped_octet p1 x1 y1;
                        v ← utf8_decode [b0; b1];
                        (utf16_encode v ++.) <$> Decode r2
                    | _ => None
                    end
                | 3%nat =>
                    match r1 with
                    | p1 :: x1 :: y1 :: p2 :: x2 :: y2 :: r2 =>
                        b1 ← escaped_octet p1 x1 y1;
                        b2 ← escaped_octet p2 x2 y2;
                        v ← utf8_decode [b0; b1; b2];
                        (utf16_encode v ++.) <$> Decode r2
                    | _ => None
                    end
                | 4%nat =>
                    match r1 with
                    | p1 :: x1 :: y1 :: p2 :: x2 :: y2 :: p3 :: x3 :: y3 :: r2 =>
                        b1 ← escaped_octet p1 x1 y1;
                        b2 ← escaped_octet p2 x2 y2;
                        b3 ← escaped_octet p3 x3 y3;
                        v ← utf8_decode [b0; b1; b2; b3];
                        (utf16_encode v ++.) <$> Decode r2
                    | _ => None
                    end
                | _ => None
                end
            end
        | _ => None
        end
  end.

Definition decodeURIComponent (s : list N) : option (list N) := Decode s.

End URI.

Module Base64.
Local Open Scope N_scope.

(** *** The base64 alphabet (RFC 4648, table 1) *)

Definition char_of_sextet (n : N) : N :=
  if n <? 26 then 65 + n
  else if n <? 52 then 71 + n
  else if n <? 62 then n - 4
  else if n =? 62 then 43
  else 47.

Definition sextet_of_char (c : N) : option N :=
  if (65 <=? c) && (c <=? 90) then Some (c - 65)
  else if (97 <=? c) && (c <=? 122) then Some (c - 71)
  else if (48 <=? c) && (c <=? 57) then Some (c + 4)
  else if c =? 43 then Some 62
  else if c =? 47 then Some 63
  else None.

Fixpoint encode (bytes : list N) : list N :=
  match bytes with
  | [] => []
  | [a] => [char_of_sextet (a / 4); char_of_sextet ((a mod 4) * 16); 61; 61]
  | [a; b] =>
      [char_of_sextet (a / 4); char_of_sextet ((a mod 4) * 16 + b / 16);
       char_of_sextet ((b mod 16) * 4); 61]
  | a :: b :: c :: r =>
      [char_of_sextet (a / 4); char_of_sextet ((a mod 4) * 16 + b / 16);
       char_of_sextet ((b mod 16) * 4 + c / 64); char_of_sextet (c mod 64)]
      ++ encode r
  end.

(** [btoa] (HTML, 8.3): a code unit above U+00FF is an
    InvalidCharacterError ([None]). *)
Definition btoa (s : list N) : option (list N) :=
  if forallb (λ c, c <? 256) s then Some (encode s) else None.

(** *** Forgiving-base64 decode (Infra, 7) *)

Definition is_ascii_whitespace (c : N) : bool :=
  (c =? 9) || (c =? 10) || (c =? 12) || (c =? 13) || (c =? 32).

(** If the length is a multiple of four, one or two trailing '=' go. *)
Definition strip_padding (l : list N) : list N :=
  if (N.of_nat (length l)) mod 4 =? 0 then
    match rev l with
    | x :: y :: r =>
        if x =? 61 then (if y =? 61 then rev r else rev (y :: r)) else l
    | _ => l
    end
  else l.

Fixpoint decode (cs : list N) : option (list N) :=
  match cs with
  | [] => Some []
  | [_] => None
  | [a; b] =>
      x ← sextet_of_char a; y ← sextet_of_char b;
      Some [x * 4 + y / 16]
  | [a; b; c] =>
      x ← sextet_of_char a; y ← sextet_of_char b; z ← sextet_of_char c;
      Some [x * 4 + y / 16; (y mod 16) * 16 + z / 4]
  | a :: b :: c :: d :: r =>
      x ← sextet_of_char a; y ← sextet_of_char b;
      z ← sextet_of_char c; w ← sextet_of_char d;
      ([x * 4 + y / 16; (y mod 16) * 16 + z / 4; (z mod 4) * 64 + w] ++.)
        <$> decode r
  end.

Definition atob (s : list N) : option (list N) :=
  decode (strip_padding (filter (λ c, is_ascii_whitespace c = false) s)).

End Base64.

(** ** JavaScript values

    The values the worker handles: query parameters, parsed JSON and the
    fields read out of it. Numbers are the integers the MailJet API uses as
    identifiers and codes. *)

Inductive value :=
| VUndef
| VNull
| VBool (b : bool)
| VNum (n : Z)
| VStr (s : list N)
| VArr (items : list value)
| VObj (fields : list (list N * value)).

(** ToString, as a template literal applies it. *)
Fixpoint ToString (v : value) : list N :=
  match v with
  | VUndef => lit "undefined"
  | VNull => lit "null"
  | VBool true => lit "true"
  | VBool false => lit "false"
  | VNum n => lit (pretty n)
  | VStr s => s
  | VArr items =>
      (fix join (l : list value) : list N :=
         let element x :=
           match x with VUndef | VNull => [] | _ => ToString x end in
         match l with
         | [] => []
         | [x] => element x
         | x :: r => element x ++ lit "," ++ join r
         end) items
  | VObj _ => lit "[object Object]"
  end.

(** ToBoolean. *)
Definition truthy (v : value) : bool :=
  match v with
  | VUndef | VNull => false
  | VBool b => b
  | VNum n => negb (n =? 0)%Z
  | VStr s => negb (bool_decide (s = []))
  | VArr _ | VObj _ => true
  end.

(** [a === b]. The objects and arrays the worker compares come from
    different responses, so they are never the same object. *)
Definition strict_eq (a b : value) : bool :=
  match a, b with
  | VUndef, VUndef | VNull, VNull => true
  | VBool x, VBool y => bool_decide (x = y)
  | VNum x, VNum y => (x =? y)%Z
  | VStr x, VStr y => bool_decide (x = y)
  | _, _ => false
  end.

(** [typeof v === 'undefined']. *)
Definition is_undefined (v : value) : bool :=
  match v with VUndef => true | _ => false end.

(** ** Exceptions *)

Inductive ErrorName :=
  TypeError | SyntaxError | URIError | InvalidCharacterError | ErrorBase
| MailingListError.

Record exn := mkError { name : ErrorName; message : list N }.

Inductive Outcome (A : Type) :=
| Returned (a : A)
| Thrown (e : exn).
Arguments Returned {A} a.
Arguments Thrown {A} e.

#[global] Instance Outcome_ret : MRet Outcome := λ A a, Returned a.
#[global] Instance Outcome_bind : MBind Outcome := λ A B f m,
  match m with Returned a => f a | Thrown e => Thrown e end.

(** Reading a property of [undefined] or [null]. *)
Definition cannot_read (prop : list N) (v : value) : exn :=
  mkError TypeError
    (lit "Cannot read property '" ++ prop ++ lit "' of " ++ ToString v).

Definition not_a_function (prop : list N) : exn :=
  mkError TypeError (prop ++ lit " is not a function").

(** The last field of that name: [JSON.parse] lets a later duplicate win. *)
Fixpoint field (fields : list (list N * value)) (prop : list N) : value :=
  match fields with
  | [] => VUndef
  | (k, v) :: rest =>
      match field rest prop with
      | VUndef => if bool_decide (k = prop) then v else VUndef
      | found => found
      end
  end.

(** [v.prop], for the property names the worker reads (none of them is a
    built-in property of strings, numbers or arrays). *)
Definition Get (v : value) (prop : string) : Outcome value :=
  match v with
  | VUndef | VNull => Thrown (cannot_read (lit prop) v)
  | VObj fields => Returned (field fields (lit prop))
  | _ => Returned VUndef
  end.

(** [v[0]]. *)
Definition Get0 (v : value) : Outcome value :=
  match v with
  | VUndef | VNull => Thrown (cannot_read (lit "0") v)
  | VArr items => Returned (default VUndef (head items))
  | VStr s => Returned (from_option (λ c, VStr [c]) VUndef (head s))
  | VObj fields => Returned (field fields (lit "0"))
  | _ => Returned VUndef
  end.

(** The receiver of [v.map(...)] or [v.filter(...)]: only an array has the
    method. *)
Definition array_method (method : string) (v : value) : Outcome (list value) :=
  match v with
  | VArr items => Returned items
  | VUndef | VNull => Thrown (cannot_read (lit method) v)
  | _ => Thrown (not_a_function (lit method))
  end.

(** [items.map(f)] and [items.filter(p)] with a callback that can throw. *)
Fixpoint mapO {A B} (f : A → Outcome B) (items : list A) : Outcome (list B) :=
  match items with
  | [] => Returned []
  | x :: rest => y ← f x; ys ← mapO f rest; mret (y :: ys)
  end.

Fixpoint filterO {A} (p : A → Outcome bool) (items : list A) : Outcome (list A) :=
  match items with
  | [] => Returned []
  | x :: rest =>
      keep ← p x; kept ← filterO p rest;
      mret (if keep : bool then x :: kept else kept)
  end.

(** A loop that pushes [f x] for every item onto an array declared outside
    the [try]: the array after the loop, and the exception that ended the
    loop early, if any. *)
Fixpoint push_each {A B} (f : A → Outcome B) (items : list A) (acc : list B)
  : list B * option exn :=
  match items with
  | [] => (acc, None)
  | x :: rest =>
      match f x with
      | Returned y => push_each f rest (acc ++ [y])
      | Thrown e => (acc, Some e)
      end
  end.

(** [s.split(sep)] for a one-character separator. *)
Fixpoint split (sep : N) (s : list N) : list (list N) :=
  match s with
  | [] => [[]]
  | c :: r =>
      if (c =? sep)%N then [] :: split sep r
      else match split sep r with
           | piece :: pieces => (c :: piece) :: pieces
           | [] => [[c]]
           end
  end.

(** ** HTTP and the worker's environment *)

Inductive Method := GET | POST | PUT.

Definition header : Type := list N * list N.

(** An outbound [fetch]. [rq_headers] is the content of the Headers object
    at the time of the call, [rq_body] the value given to [JSON.stringify]. *)
Record Request := mkRequest {
  rq_method : Method;
  rq_url : list N;
  rq_headers : list header;
  rq_body : option value
}.

(** A fetch Response: [json_body] is what [response.json()] resolves to
    ([None]: the body is not JSON), [text_body] what [response.text()]
    resolves to ([None]: the body cannot be read). *)
Record Response := mkResponse {
  status : N;
  statusText : list N;
  json_body : option value;
  text_body : option (list N)
}.

(** [response.ok]. *)
Definition ok (r : Response) : bool := (200 <=? status r)%N && (status r <=? 299)%N.

Inductive FetchResult :=
| Resolved (r : Response)
| Rejected (e : exn).

(** What the script finds in its global scope (the Cloudflare environment
    variables) and on the network: [remote] answers a request given the
    requests made before it. *)
Class Environment := {
  MAILJET_USER : list N;
  MAILJET_PASS : list N;
  SLACK_WEBHOOK_URL : list N;
  remote : list Request → Request → FetchResult
}.

Inductive Level := Warn | Err.

(** The state the worker's code acts on: the Headers object of the one
    [Fetch] client, the requests sent so far and the console. *)
Record World := mkWorld {
  Fetch_headers : list header;
  calls : list Request;
  console : list (Level * exn)
}.

(** ** The monad of the worker's code *)

Definition M (A : Type) : Type := World → Outcome A * World.

#[global] Instance M_ret : MRet M := λ A a w, (Returned a, w).
#[global] Instance M_bind : MBind M := λ A B f m w,
  match m w with
  | (Returned a, w') => f a w'
  | (Thrown e, w') => (Thrown e, w')
  end.

Definition lift {A} (o : Outcome A) : M A := λ w, (o, w).
Definition throw {A} (e : exn) : M A := λ w, (Thrown e, w).

(** [try { body } catch (err) { handler }] *)
Definition try_catch {A} (body : M A) (handler : exn → M A) : M A := λ w,
  match body w with
  | (Returned a, w') => (Returned a, w')
  | (Thrown e, w') => handler e w'
  end.

Definition console_log (l : Level) (e : exn) : M unit := λ w,
  (Returned tt,
   mkWorld (Fetch_headers w) (calls w) (console w ++ [(l, e)])).
Definition console_warn := console_log Warn.
Definition console_error := console_log Err.

(** [this.headers.append(name, value)] on the shared client. *)
Definition headers_append (name value : list N) : M unit := λ w,
  (Returned tt,
   mkWorld (Fetch_headers w ++ [(name, value)]) (calls w) (console w)).

Definition this_headers : M (list header) := λ w, (Returned (Fetch_headers w), w).

Definition Response_json (r : Response) : M value :=
  match json_body r with
  | Some v => mret v
  | None => throw (mkError SyntaxError (lit "Unexpected token in JSON"))
  end.

Definition Response_text (r : Response) : M (list N) :=
  match text_body r with
  | Some t => mret t
  | None => throw (mkError TypeError (lit "Body is unusable"))
  end.

Section Worker.
Context `{Environment}.

Definition fetch (rq : Request) : M Response := λ w,
  let w' := mkWorld (Fetch_headers w) (calls w ++ [rq]) (console w) in
  match remote (calls w) rq with
  | Resolved r => (Returned r, w')
  | Rejected e => (Thrown e, w')
  end.

(** *** Module constants *)

Definition or_null (s : list N) : value :=
  if truthy (VStr s) then VStr s else VNull.

Definition MJ_USER : value := or_null MAILJET_USER.
Definition MJ_PASS : value := or_null MAILJET_PASS.

Definition MJ_ADD_CONTACT := lit "https://api.mailjet.com/v3/REST/listrecipient".
Definition MJ_CONTACT := lit "https://api.mailjet.com/v3/REST/contact".
Definition MJ_CONTACTS_LIST := lit "https://api.mailjet.com/v3/REST/contactslist".
Definition MJ_TEMPLATE := lit "https://api.mailjet.com/v3/REST/template".
Definition MJ_LIST_RECIPIENT := lit "https://api.mailjet.com/v3/REST/listrecipient".
Definition MJ_SEND := lit "https://api.mailjet.com/v3.1/send".
Definition SLACK_URL : list N := SLACK_WEBHOOK_URL.

(** *** makeMessage, notifySlack *)

Definition attachment (emailAddr listName : value) (color : string)
    (fields : list (list N * value)) : value :=
  VObj ([ (lit "fallback",
            VStr (ToString emailAddr ++ lit " has subscribed to " ++ ToString listName));
          (lit "color", VStr (lit color));
          (lit "pretext", VStr (lit "New mailing list subscription"));
          (lit "title",
            VStr (ToString emailAddr ++ lit " has subscribed to " ++ ToString listName)) ]
        ++ fields).

Definition makeMessage (emailAddr listName errorMsg : value) : value :=
  let payload :=
    VObj [(lit "attachments", VArr [attachment emailAddr listName "#f4dc87" []])] in
  if truthy errorMsg then
    VObj [(lit "attachments",
           VArr [attachment emailAddr listName "#f25979"
                   [(lit "fields",
                     VArr [VObj [(lit "title", VStr (lit "Error"));
                                 (lit "value", errorMsg);
                                 (lit "short", VBool false)]])]])]
  else payload.

Definition notifySlack (emailAddr listName errorMsg : value) : M (option Response) :=
  try_catch
    (response ← fetch (mkRequest POST SLACK_URL
                         [(lit "Content-Type", lit "application/json")]
                         (Some (makeMessage emailAddr listName errorMsg)));
     mret (Some response))
    (λ err, console_error err;; mret None).

(** *** class Client *)

(** The constructor: [None] when [btoa] throws at script start-up. *)
Definition Client_constructor : option (list header) :=
  credentials ← Base64.btoa (ToString MJ_USER ++ lit ":" ++ ToString MJ_PASS);
  Some [ (lit "Authorization", lit "Basic " ++ credentials);
         (lit "Accept", lit "application/json") ].

Definition clientError (response : Response) : M (list N) :=
  let detail := statusText response in
  let errors : list exn := [] in
  '(detail, errors) ←
    try_catch
      (jsonResponse ← Response_json response;
       code ← lift (Get jsonResponse "ErrorCode");
       msg ← lift (Get jsonResponse "ErrorMessage");
       mret (ToString code ++ lit ": " ++ ToString msg, errors))
      (λ err, mret (detail, errors ++ [err]));
  '(detail, errors) ←
    (if negb (truthy (VStr detail)) then
       try_catch
         (text ← Response_text response; mret (text, errors))
         (λ err, mret (detail, errors ++ [err]))
     else mret (detail, errors));
  if negb (truthy (VStr detail)) then
    mapM console_warn errors;;
    mret (lit "General Error")
  else mret detail.

Definition Client_get (url : list N) : M Response :=
  encodedUrl ←
    match URI.encodeURI url with
    | Some u => mret u
    | None => throw (mkError URIError (lit "URI malformed"))
    end;
  headers ← this_headers;
  response ← fetch (mkRequest GET encodedUrl headers None);
  if negb (ok response) then
    error ← clientError response;
    throw (mkError MailingListError error)
  else mret response.

Definition Client_post (url : list N) (data : value) : M Response :=
  headers_append (lit "Content-Type") (lit "application/json");;
  headers ← this_headers;
  let body := if is_undefined data then None else Some data in
  response ← fetch (mkRequest POST url headers body);
  if negb (ok response) then
    error ← clientError response;
    throw (mkError MailingListError error)
  else mret response.

Definition Client_put (url : list N) (data : value) : M Response :=
  headers_append (lit "Content-Type") (lit "application/json");;
  headers ← this_headers;
  let body := if is_undefined data then None else Some data in
  response ← fetch (mkRequest PUT url headers body);
  if negb (ok response) then
    error ← clientError response;
    throw (mkError MailingListError error)
  else mret response.

(** *** Mutators and resolvers *)

Record ContactList := mkContactList {
  cl_id : value;
  cl_name : value;
  cl_subscribers : value
}.

(** An entry of [getContactLists]: [{ id, subscribed }]. *)
Record Membership := mkMembership {
  ms_id : value;
  ms_subscribed : bool
}.

Record Template := mkTemplate {
  t_id : value;
  t_name : value
}.

Definition str (s : string) : value := VStr (lit s).

Definition addContact (emailAddr : value) : M bool :=
  let added := false in
  try_catch
    (response ← Client_post MJ_CONTACT (VObj [(lit "Email", emailAddr)]);
     if (status response =? 201)%N then mret true else mret added)
    (λ err, console_warn err;; mret added).

Definition getAllContactLists : M (list ContactList) :=
  let contactLists : list ContactList := [] in
  try_catch
    (response ← Client_get MJ_CONTACTS_LIST;
     data ← Response_json response;
     items ← lift (Get data "Data" ≫= array_method "map");
     let '(contactLists, thrown) :=
       push_each
         (λ l, id ← Get l "ID"; name ← Get l "Name";
               subscribers ← Get l "SubscriberCount";
               mret (mkContactList id name subscribers))
         items contactLists in
     match thrown with
     | Some err => console_warn err;; mret contactLists
     | None => mret contactLists
     end)
    (λ err, console_warn err;; mret contactLists).

(** [None] stands for the empty object [{}] the function starts with, and
    returns when the lookup fails. *)
Definition getListDetails (listId : value) : M (option ContactList) :=
  let listDetails : option ContactList := None in
  try_catch
    (response ← Client_get (MJ_CONTACTS_LIST ++ lit "/" ++ ToString listId);
     details ← Response_json response;
     first ← lift (Get details "Data" ≫= Get0);
     id ← lift (Get first "ID");
     name ← lift (Get first "Name");
     subscribers ← lift (Get first "SubscriberCount");
     mret (Some (mkContactList id name subscribers)))
    (λ err, console_warn err;; mret listDetails).

Definition getContactLists (emailAddr : value) : M (list Membership) :=
  let contactDetails : list Membership := [] in
  try_catch
    (response ← Client_get
       (MJ_CONTACT ++ lit "/" ++ ToString emailAddr ++ lit "/getcontactslists");
     details ← Response_json response;
     items ← lift (Get details "Data" ≫= array_method "map");
     let '(contactDetails, thrown) :=
       push_each
         (λ list, id ← Get list "ListID"; unsub ← Get list "IsUnsub";
                  mret (mkMembership id (negb (truthy unsub))))
         items contactDetails in
     match thrown with
     | Some err => console_warn err;; mret contactDetails
     | None => mret contactDetails
     end)
    (λ err, console_warn err;; mret contactDetails).

(** [{ addedToList, contactId, error }] *)
Record Attached := mkAttached {
  addedToList : bool;
  at_contactId : value;
  at_error : option exn
}.

Definition addContactToList (listId emailAddr : value) : M Attached :=
  try_catch
    (response ← Client_post MJ_ADD_CONTACT
       (VObj [ (lit "IsUnsubscribed", VBool true);
               (lit "ContactAlt", emailAddr);
               (lit "ListID", listId) ]);
     if ok response then
       data ← Response_json response;
       (* addedToList = true *)
       try_catch
         (contactId ← lift (first ← Get data "Data" ≫= Get0; Get first "ID");
          mret (mkAttached true contactId None))
         (λ err, console_warn err;; mret (mkAttached true (VNum 0) (Some err)))
       : M Attached
     else mret (mkAttached false (VNum 0) None))
    (λ err, console_warn err;; mret (mkAttached false (VNum 0) (Some err))).

(** [{ id, exists }] *)
Definition getContact (emailAddr : value) : M (value * bool) :=
  try_catch
    (response ← Client_get (MJ_CONTACT ++ lit "/" ++ ToString emailAddr);
     if (status response =? 200)%N then
       (* exists = true *)
       try_catch
         (data ← Response_json response;
          id ← lift (first ← Get data "Data" ≫= Get0; Get first "ID");
          mret (id, true))
         (λ err, console_warn err;; mret (VNum 0, true))
       : M (value * bool)
     else mret (VNum 0, false))
    (λ err, console_warn err;; mret (VNum 0, false)).

Definition matches_recipient (contactId listId r : value) : Outcome bool :=
  cid ← Get r "ContactID";
  if strict_eq cid contactId then
    lid ← Get r "ListID"; mret (strict_eq lid listId)
  else mret false.

Definition getRecipient (contactId listId : value) : M value :=
  try_catch
    (response ← Client_get MJ_LIST_RECIPIENT;
     data ← Response_json response;
     items ← lift (Get data "Data" ≫= array_method "filter");
     recipient ← lift (filterO (matches_recipient contactId listId) items);
     match recipient with
     | [] => throw (mkError ErrorBase (lit "Contact not found."))
     | first :: _ => lift (Get first "ID")
     end)
    (λ err, console_warn err;; mret VUndef).

(** [{ subscribed, error }] *)
Definition subscribeContact (contactId listId : value) : M (bool * option exn) :=
  let subscribed := false in
  recipientId ← getRecipient contactId listId;
  try_catch
    (response ← Client_put (MJ_LIST_RECIPIENT ++ lit "/" ++ ToString recipientId)
                  (VObj [(lit "IsUnsubscribed", VBool false)]);
     if ok response || (status response =? 304)%N
     then mret (true, None)
     else mret (subscribed, None))
    (λ err, console_warn err;; mret (subscribed, Some err)).

Definition getTemplates : M (list Template) :=
  let templates : list Template := [] in
  try_catch
    (response ← Client_get MJ_TEMPLATE;
     if (status response =? 200)%N then
       data ← Response_json response;
       items ← lift (Get data "Data" ≫= array_method "map");
       lift (mapO (λ t, id ← Get t "ID"; name ← Get t "Name";
                        mret (mkTemplate id name)) items)
     else mret templates)
    (λ err, console_error err;; mret templates).

(** [{ sentEmail, error }], [error] being [err.message] or undefined. *)
Definition sendEmail (emailAddr templateId listName : value) : M (bool * value) :=
  let sentEmail := false in
  try_catch
    (response ← Client_post MJ_SEND
       (VObj [(lit "Messages",
         VArr [VObj [
           (lit "From",
             VObj [ (lit "Email", VStr (ToString listName ++ lit "@48ix.net"));
                    (lit "Name", str "48 IX") ]);
           (lit "To", VArr [VObj [(lit "Email", emailAddr)]]);
           (lit "Subject",
             VStr (lit "Confirm your subscription to " ++ ToString listName
                   ++ lit " mailing list"));
           (lit "TemplateID", templateId);
           (lit "TemplateLanguage", VBool true);
           (lit "Variables", VObj [(lit "LIST_NAME", listName)]) ]])]);
     if ok response then mret (true, VUndef) else mret (sentEmail, VUndef))
    (λ err, console_error err;; mret (sentEmail, VStr (message err))).

(** *** parseUrl *)

(** The inbound request, as far as the worker reads it: the [search]
    component of [new URL(request.url)]. *)
Record InboundRequest := mkInbound { search : list N }.

(** The [forEach] over the query items; [inr] carries the parameters set
    before a [decodeURIComponent] threw. *)
Fixpoint parse_items (items : list (list N)) (params : gmap (list N) value)
  : gmap (list N) value * option exn :=
  match items with
  | [] => (params, None)
  | item :: rest =>
      match URI.decodeURIComponent item with
      | None => (params, Some (mkError URIError (lit "URI malformed")))
      | Some decodedItem =>
          let kv := split 61 decodedItem in
          let kv0 := default [] (kv !! 0%nat) in
          let kv1 := from_option VStr VUndef (kv !! 1%nat) in
          if truthy (VStr kv0)
          then parse_items rest (<[kv0 := if truthy kv1 then kv1 else VBool true]> params)
          else parse_items rest params
      end
  end.

Definition parseUrl (request : InboundRequest) : M (gmap (list N) value) :=
  let params : gmap (list N) value := ∅ in
  let queryString := split 38 (drop 1 (search request)) in
  let '(params, thrown) := parse_items queryString params in
  match thrown with
  | Some err => console_error err;; mret params
  | None => mret params
  end.

(** *** handleRequest *)

(** What the worker answers: [new Response(JSON.stringify({ message }),
    { status, headers })] or [Response.redirect(url, status)]. *)
Inductive WorkerResponse :=
| JsonResponse (message : list N) (status : N) (headers : list header)
| Redirect (url : list N) (status : N).

(** The variables of [handleRequest] that are live once the state of the
    contact has been resolved. *)
Record Locals := mkLocals {
  listDetails : option ContactList;
  emailTemplate : Template;
  contactId : value;
  contactExists : bool;
  onList : bool;
  alreadySubscribed : bool
}.

(** [listDetails.id], [listDetails] being the first element of the filtered
    contact lists, or undefined. *)
Definition listDetails_id (listDetails : option ContactList) : Outcome value :=
  match listDetails with
  | Some l => Returned (cl_id l)
  | None => Thrown (cannot_read (lit "id") VUndef)
  end.

(** [btoa(encodeURIComponent(s))] *)
Definition encodeInfo (s : list N) : M (list N) :=
  match URI.encodeURIComponent s with
  | None => throw (mkError URIError (lit "URI malformed"))
  | Some encoded =>
      match Base64.btoa encoded with
      | None => throw (mkError InvalidCharacterError (lit "Invalid character"))
      | Some info => mret info
      end
  end.

(** The first part of the handler's body: from the declaration of the state
    variables to the end of the contact resolution. [inl] is a [return]
    taken there. *)
Definition resolveState (emailAddr listName : value) : M (WorkerResponse + Locals) :=
  let alreadySubscribed := false in
  let contactExists := false in
  let onList := false in
  allLists ← getAllContactLists;
  let listDetails :=
    head (List.filter (λ l, strict_eq (cl_name l) listName) allLists) in
  emailTemplates ← getTemplates;
  match head (List.filter
                (λ t, strict_eq (t_name t)
                        (VStr (ToString listName ++ lit "-confirmation")))
                emailTemplates) with
  | None =>
      mret (inl (JsonResponse
                   (lit "Error sending confirmation email to '" ++ ToString emailAddr
                    ++ lit "' for list '" ++ ToString listName ++ lit "'")
                   500 []))
  | Some emailTemplate =>
      '(contactId, exists_) ← getContact emailAddr;
      if exists_ : bool then
        let contactExists := true in
        contactLists ← getContactLists emailAddr;
        matching ←
          lift (filterO (λ l, id ← listDetails_id listDetails;
                              mret (strict_eq id (ms_id l))) contactLists);
        match head matching with
        | Some contactList =>
            mret (inr (mkLocals listDetails emailTemplate contactId contactExists
                         true (ms_subscribed contactList)))
        | None =>
            listId ← lift (listDetails_id listDetails);
            attached ← addContactToList listId emailAddr;
            mret (inr (mkLocals listDetails emailTemplate contactId contactExists
                         (addedToList attached) alreadySubscribed))
        end
      else
        contactAdded ← addContact emailAddr;
        if contactAdded : bool then
          listId ← lift (listDetails_id listDetails);
          attached ← addContactToList listId emailAddr;
          match at_error attached with
          | Some error =>
              mret (inl (JsonResponse
                           (lit "An error occurred while adding " ++ ToString emailAddr
                            ++ lit " to list " ++ ToString listName ++ lit ": "
                            ++ message error)
                           500 []))
          | None =>
              mret (inr (mkLocals listDetails emailTemplate contactId true
                           (addedToList attached) alreadySubscribed))
          end
        else
          mret (inr (mkLocals listDetails emailTemplate contactId contactExists
                       onList alreadySubscribed))
  end.

(** The second part: the branches on [(onList, alreadySubscribed, action)]
    and the final response. *)
Definition respond (action emailAddr listName : value)
    (response : list N) (status : N) (headers : list header) (st : Locals)
  : M WorkerResponse :=
  let info :=
    lit "emailAddr=" ++ ToString emailAddr ++ lit "&listName=" ++ ToString listName in
  returned ←
    (if onList st && alreadySubscribed st then
       if strict_eq action (str "add") then
         mret (Some (JsonResponse
                       (ToString emailAddr ++ lit " is already subscribed to contact list '"
                        ++ ToString listName ++ lit "'")
                       409 headers))
       else if strict_eq action (str "subscribe") then
         encodedInfo ← encodeInfo info;
         mret (Some (Redirect (lit "https://48ix.net/subscribe?" ++ encodedInfo) 301))
       else mret None
     else mret None);
  match returned with
  | Some r => mret r
  | None =>
      if onList st && negb (alreadySubscribed st) then
        if strict_eq action (str "add") then
          '(confirmationSent, confirmationError) ←
            sendEmail emailAddr (t_id (emailTemplate st)) listName;
          if truthy confirmationError then
            mret (JsonResponse (ToString confirmationError) 500 headers)
          else if confirmationSent : bool then
            mret (JsonResponse
                    (lit "A confirmation email has been sent to '"
                     ++ ToString emailAddr ++ lit "'")
                    200 headers)
          else mret (JsonResponse response status headers)
        else if strict_eq action (str "subscribe") then
          listId ← lift (listDetails_id (listDetails st));
          '(subscribed, error) ← subscribeContact (contactId st) listId;
          encodedInfo ← encodeInfo info;
          if subscribed : bool then
            notifySlack emailAddr listName VUndef;;
            mret (Redirect (lit "https://48ix.net/subscribe?" ++ encodedInfo) 301)
          else
            encodedInfo ←
              match error with
              | Some err =>
                  encodeInfo (info ++ lit "&error=" ++ message err)
              | None => mret encodedInfo
              end;
            errorMessage ←
              match error with
              | Some err => mret (VStr (message err))
              | None => throw (cannot_read (lit "message") VUndef)
              end;
            notifySlack emailAddr listName errorMessage;;
            mret (Redirect (lit "https://48ix.net/subscribe/failure?" ++ encodedInfo) 301)
        else mret (JsonResponse response status headers)
      else mret (JsonResponse response status headers)
  end.

Definition handleRequest (request : InboundRequest) : M WorkerResponse :=
  params ← parseUrl request;
  let action := default VUndef (params !! lit "action") in
  let emailAddr := default VUndef (params !! lit "emailAddr") in
  let listName := default VUndef (params !! lit "listName") in
  let response :=
    lit "An error occurred while attempting to add '" ++ ToString emailAddr
    ++ lit "' to list '" ++ ToString listName ++ lit "'" in
  let status := 500%N in
  let headers := [(lit "Content-Type", lit "application/json")] in
  (* the Responses built by the callback of [map] are elements of an array
     that is dropped; the callback's [return] does not leave the handler *)
  let _ :=
    (λ i, if is_undefined i
          then Some (JsonResponse (lit "Unable to parse request.") status headers)
          else None) <$> [action; emailAddr; listName] in
  state ← resolveState emailAddr listName;
  match state with
  | inl returned => mret returned
  | inr st => respond action emailAddr listName response status headers st
  end.

End Worker.

(** * Vocabulary of the properties *)

(** ** What a computation did

    Predicates on the computations of [M]: how they end and what they leave
    in the world. *)

(** A computation that always completes normally. *)
Definition never_throws {A} (m : M A) : Prop :=
  ∀ w, ∃ a, (m w).1 = Returned a.

(** Every exception that leaves [m] satisfies [P]. *)
Definition throws_only {A} (P : exn → Prop) (m : M A) : Prop :=
  ∀ w e w', m w = (Thrown e, w') → P e.

(** Every value [m] returns satisfies [P]. *)
Definition returns_only {A} (P : A → Prop) (m : M A) : Prop :=
  ∀ w a w', m w = (Returned a, w') → P a.

(** A relation between the world before and after a computation that holds
    however the computation ends. *)
Definition stable {A} (R : World → World → Prop) (m : M A) : Prop :=
  ∀ w, R w (m w).2.

(** [sends rqs]: the computation sent exactly the requests [rqs] and left
    the client's headers alone. [quiet] is [sends []]. *)
Definition sends (rqs : list Request) (w w' : World) : Prop :=
  Fetch_headers w' = Fetch_headers w ∧ calls w' = calls w ++ rqs.

Definition quiet : World → World → Prop := sends [].

(** Relations that absorb a quiet continuation. *)
Definition quiet_closed (R : World → World → Prop) : Prop :=
  ∀ x y z, R x y → quiet y z → R x z.

(** [issues mk]: exactly the requests [mk headers] were sent, [headers]
    being the client's headers, which stay as they were. *)
Definition issues (mk : list header → list Request) (w w' : World) : Prop :=
  sends (mk (Fetch_headers w)) w w'.

Definition content_type_json : header := (lit "Content-Type", lit "application/json").

(** [reads]: only GET requests were sent and the client's headers were left
    alone. *)
Definition reads (w w' : World) : Prop :=
  Fetch_headers w' = Fetch_headers w
  ∧ ∃ new, calls w' = calls w ++ new ∧ Forall (λ rq, rq_method rq = GET) new.

(** The world after a fetch, and after the append that POST and PUT start
    with. *)
Definition sent (w : World) (rq : Request) : World :=
  mkWorld (Fetch_headers w) (calls w ++ [rq]) (console w).

Definition with_content_type (w : World) : World :=
  mkWorld (Fetch_headers w ++ [content_type_json]) (calls w) (console w).

(** The tail shared by the three handlers. *)
Definition check_ok (response : Response) : M Response :=
  if negb (ok response)
  then error ← clientError response; throw (mkError MailingListError error)
  else mret response.

Definition body_of (data : value) : option value :=
  if is_undefined data then None else Some data.

(** ** What a request asks for *)

(** The parameters [parseUrl] returns for a request, the value the handler
    destructures for a key, and the world after the parse (which logs the
    URIError of a malformed item). *)
Definition params_of (request : InboundRequest) : gmap (list N) value :=
  (parse_items (split 38 (drop 1 (search request))) ∅).1.

Definition param (request : InboundRequest) (key : string) : value :=
  default VUndef (params_of request !! lit key).

Definition parsed (request : InboundRequest) (w : World) : World :=
  (parseUrl request w).2.

(** The fallback message and the headers of a JSON response. *)
Definition fallback_message (request : InboundRequest) : list N :=
  lit "An error occurred while attempting to add '"
  ++ ToString (param request "emailAddr")
  ++ lit "' to list '" ++ ToString (param request "listName") ++ lit "'".

Definition json_headers : list header := [content_type_json].

(** The name of the confirmation template of a list. *)
Definition confirmation_template (listName : value) : value :=
  VStr (ToString listName ++ lit "-confirmation").

(** The two lookups every request starts with. *)
Definition lists_request (w : World) : Request :=
  mkRequest GET MJ_CONTACTS_LIST (Fetch_headers w) None.

Definition templates_request (w : World) : Request :=
  mkRequest GET MJ_TEMPLATE (Fetch_headers w) None.

(** The request [getRecipient] sends. *)
Definition recipients_request (w : World) : Request :=
  mkRequest GET MJ_LIST_RECIPIENT (Fetch_headers w) None.

(** The listing was fetched, and none of its entries is for this contact on
    this list. *)
Definition no_recipient `{Environment} (contactId listId : value) (w : World) : Prop :=
  ∃ r data items,
    remote (calls w) (recipients_request w) = Resolved r
    ∧ ok r = true
    ∧ json_body r = Some data
    ∧ (Get data "Data" ≫= array_method "filter") = Returned items
    ∧ filterO (matches_recipient contactId listId) items = Returned [].

(** The handler's own TypeError, were [error.message] read with [error]
    undefined. *)
Definition undefined_error : exn := cannot_read (lit "message") VUndef.

Definition not_undefined_error (e : exn) : Prop := e ≠ undefined_error.

(** ** Strings and redirect payloads *)

(** A JavaScript string holds 16-bit code units. *)
Definition code_units (s : list N) : Prop := Forall (λ c, (c < 65536)%N) s.

Definition is_surrogate (c : N) : bool :=
  URI.is_high_surrogate c || URI.is_low_surrogate c.

(** A string of 16-bit code units in which every surrogate is half of a
    pair: the strings [encodeURIComponent] accepts. *)
Inductive well_formed : list N → Prop :=
| wf_nil : well_formed []
| wf_unit c s :
    (c < 65536)%N → is_surrogate c = false → well_formed s → well_formed (c :: s)
| wf_pair hi lo s :
    URI.is_high_surrogate hi = true → URI.is_low_surrogate lo = true →
    well_formed s → well_formed (hi :: lo :: s).

(** The values [parseUrl] stores print as well-formed strings. *)
Definition wf_value (v : value) : Prop := well_formed (ToString v).

(** The characters of the encoding without the padding, and the padding. *)
Fixpoint b64_chars (bytes : list N) : list N :=
  match bytes with
  | [] => []
  | [a] =>
      [Base64.char_of_sextet (a / 4); Base64.char_of_sextet ((a mod 4) * 16)]
  | [a; b] =>
      [Base64.char_of_sextet (a / 4);
       Base64.char_of_sextet ((a mod 4) * 16 + b / 16);
       Base64.char_of_sextet ((b mod 16) * 4)]
  | a :: b :: c :: r =>
      [Base64.char_of_sextet (a / 4);
       Base64.char_of_sextet ((a mod 4) * 16 + b / 16);
       Base64.char_of_sextet ((b mod 16) * 4 + c / 64);
       Base64.char_of_sextet (c mod 64)]
      ++ b64_chars r
  end%N.

Fixpoint b64_padding (bytes : list N) : list N :=
  match bytes with
  | [] => []
  | [_] => [61; 61]
  | [_; _] => [61]
  | _ :: _ :: _ :: r => b64_padding r
  end%N.

(** Everything after the first '?' of a URL without fragment: its query
    string. *)
Fixpoint query_of (url : list N) : list N :=
  match url with
  | [] => []
  | c :: rest => if (c =? 63)%N then rest else query_of rest
  end.

Definition success_page : list N := lit "https://48ix.net/subscribe".
Definition failure_page : list N := lit "https://48ix.net/subscribe/failure".

(** The text the handler encodes into a redirect. *)
Definition info_of (request : InboundRequest) : list N :=
  lit "emailAddr=" ++ ToString (param request "emailAddr")
  ++ lit "&listName=" ++ ToString (param request "listName").

(** [q] is [btoa(encodeURIComponent(payload))]. *)
Definition encodes (payload q : list N) : Prop :=
  ∃ encoded, URI.encodeURIComponent payload = Some encoded
             ∧ Base64.btoa encoded = Some q.

(** [decodeURIComponent(atob(q))] is [payload]. *)
Definition decodes (q payload : list N) : Prop :=
  (Base64.atob q ≫= URI.decodeURIComponent) = Some payload.

(** What holds of every redirect the handler answers with. *)
Definition redirect_contract (request : InboundRequest) (url : list N) (status : N)
  : Prop :=
  status = 301%N
  ∧ ∃ page payload q,
      url = page ++ lit "?" ++ q
      ∧ query_of url = q
      ∧ encodes payload q
      ∧ ((page = success_page ∧ payload = info_of request)
         ∨ (page = failure_page
            ∧ ∃ msg, payload = info_of request ++ lit "&error=" ++ msg)).

Definition redirects_by_contract (request : InboundRequest) (r : WorkerResponse) : Prop :=
  match r with
  | Redirect url status => redirect_contract request url status
  | JsonResponse _ _ _ => True
  end.

(** ** Two claims as the specification states them *)

(** C8, as the specification has it: no client operation changes the header
    object of the shared client. *)
Definition headers_read_only : Prop :=
  ∀ (env : Environment) url data w,
    Fetch_headers (Client_get url w).2 = Fetch_headers w
    ∧ Fetch_headers (Client_post url data w).2 = Fetch_headers w
    ∧ Fetch_headers (Client_put url data w).2 = Fetch_headers w.

(** C3, as the specification has it: without a matching entry the lookup
    ends in an error that its caller receives. *)
Definition getRecipient_throws_when_absent : Prop :=
  ∀ (env : Environment) contactId listId w,
    no_recipient contactId listId w →
    ∃ e, (getRecipient contactId listId w).1 = Thrown e.

(** ** Scenarios

    Small MailJet accounts and requests on which the worker is run. *)

#[global] Instance Method_eq_dec : EqDecision Method.
Proof. solve_decision. Defined.

(** [JSON.stringify], for values whose strings need no escaping. *)
Fixpoint stringify (v : value) : list N :=
  match v with
  | VUndef | VNull => lit "null"
  | VBool _ | VNum _ => ToString v
  | VStr s => [34%N] ++ s ++ [34%N]
  | VArr items =>
      lit "[" ++
      (fix join (l : list value) : list N :=
         match l with
         | [] => []
         | [x] => stringify x
         | x :: r => stringify x ++ lit "," ++ join r
         end) items
      ++ lit "]"
  | VObj fields =>
      lit "{" ++
      (fix join (l : list (list N * value)) : list N :=
         match l with
         | [] => []
         | [(k, x)] => [34%N] ++ k ++ [34%N] ++ lit ":" ++ stringify x
         | (k, x) :: r => [34%N] ++ k ++ [34%N] ++ lit ":" ++ stringify x ++ lit "," ++ join r
         end) fields
      ++ lit "}"
  end.

Definition obj (fields : list (string * value)) : value :=
  VObj ((λ kv, (lit kv.1, kv.2)) <$> fields).

(** MailJet's envelope, [{ Data: [...] }]. *)
Definition Data (items : list value) : value := obj [("Data", VArr items)].

Definition json_response (status : N) (statusText : string) (v : value) : FetchResult :=
  Resolved (mkResponse status (lit statusText) (Some v) (Some (stringify v))).

Definition not_found : FetchResult :=
  json_response 404 "Not Found"
    (obj [("ErrorCode", str "mj-0003"); ("ErrorMessage", str "Object not found")]).

Definition route : Type := Method * string * FetchResult.

(** A remote that answers from a table of routes and with 404 elsewhere. *)
Fixpoint serve (routes : list route) (rq : Request) : FetchResult :=
  match routes with
  | [] => not_found
  | (m, url, answer) :: rest =>
      if bool_decide (rq_method rq = m) && bool_decide (rq_url rq = lit url)
      then answer else serve rest rq
  end.

Definition account (routes : list route) : Environment := {|
  MAILJET_USER := lit "user";
  MAILJET_PASS := lit "secret";
  SLACK_WEBHOOK_URL := lit "https://hooks.slack.com/services/T0/B0/X0";
  remote := λ _ rq, serve routes rq
|}.

(** The world when the script has been loaded: [const Fetch = new Client()]. *)
Definition start (env : Environment) : World :=
  mkWorld (default [] (@Client_constructor env)) [] [].

Definition lists_route : route :=
  (GET, "https://api.mailjet.com/v3/REST/contactslist",
   json_response 200 "OK"
     (Data [obj [("ID", VNum 7); ("Name", str "public-announce");
                 ("SubscriberCount", VNum 3)]])).

Definition templates_route : route :=
  (GET, "https://api.mailjet.com/v3/REST/template",
   json_response 200 "OK"
     (Data [obj [("ID", VNum 11); ("Name", str "public-announce-confirmation")]])).

Definition contact_route : route :=
  (GET, "https://api.mailjet.com/v3/REST/contact/a@b.c",
   json_response 200 "OK" (Data [obj [("ID", VNum 42); ("Email", str "a@b.c")]])).

Definition memberships_route (unsubscribed : bool) : route :=
  (GET, "https://api.mailjet.com/v3/REST/contact/a@b.c/getcontactslists",
   json_response 200 "OK"
     (Data [obj [("ListID", VNum 7); ("IsUnsub", VBool unsubscribed)]])).

Definition recipients_route (contact : Z) : route :=
  (GET, "https://api.mailjet.com/v3/REST/listrecipient",
   json_response 200 "OK"
     (Data [obj [("ID", VNum 900); ("ContactID", VNum contact); ("ListID", VNum 7)]])).

Definition slack_route : route :=
  (POST, "https://hooks.slack.com/services/T0/B0/X0",
   Resolved (mkResponse 200 (lit "OK") None (Some (lit "ok")))).

(** a@b.c is on public-announce and subscribed. *)
Definition subscribed_account : Environment :=
  account [lists_route; templates_route; contact_route; memberships_route false;
           slack_route].

(** a@b.c is on public-announce and pending; MailJet answers the PUT that
    clears the unsubscribed flag with 304 Not Modified. *)
Definition not_modified_account : Environment :=
  account [lists_route; templates_route; contact_route; memberships_route true;
           recipients_route 42; slack_route;
           (PUT, "https://api.mailjet.com/v3/REST/listrecipient/900",
            Resolved (mkResponse 304 (lit "Not Modified") None (Some [])))].

(** a@b.c is pending and the PUT is refused (no such route: 404). *)
Definition refusing_account : Environment :=
  account [lists_route; templates_route; contact_route; memberships_route true;
           recipients_route 42; slack_route].

(** The recipient listing has no entry for contact 42. *)
Definition stranger_account : Environment :=
  account [lists_route; templates_route; contact_route; memberships_route true;
           recipients_route 5; slack_route].

(** No template is named public-announce-confirmation. *)
Definition untemplated_account : Environment :=
  account [lists_route;
           (GET, "https://api.mailjet.com/v3/REST/template",
            json_response 200 "OK"
              (Data [obj [("ID", VNum 12); ("Name", str "members-confirmation")]]));
           contact_route; memberships_route false; slack_route].

(** No contact list is named public-announce, its template exists, and
    a@b.c is not a contact yet. *)
Definition listless_account : Environment :=
  account [(GET, "https://api.mailjet.com/v3/REST/contactslist",
            json_response 200 "OK"
              (Data [obj [("ID", VNum 8); ("Name", str "members");
                          ("SubscriberCount", VNum 1)]]));
           templates_route;
           (POST, "https://api.mailjet.com/v3/REST/contact",
            json_response 201 "Created" (Data [obj [("ID", VNum 43)]]));
           slack_route].

(** new@b.c is unknown to MailJet, which accepts its creation and its
    attachment to public-announce. *)
Definition open_account : Environment :=
  account [lists_route; templates_route;
           (POST, "https://api.mailjet.com/v3/REST/contact",
            json_response 201 "Created"
              (Data [obj [("ID", VNum 43); ("Email", str "new@b.c")]]));
           (POST, "https://api.mailjet.com/v3/REST/listrecipient",
            json_response 201 "Created"
              (Data [obj [("ID", VNum 901); ("ContactID", VNum 43);
                          ("ListID", VNum 7)]]));
           slack_route].

Definition add_request : InboundRequest :=
  mkInbound (lit "?action=add&emailAddr=a%40b.c&listName=public-announce").

Definition subscribe_request : InboundRequest :=
  mkInbound (lit "?action=subscribe&emailAddr=a%40b.c&listName=public-announce").

(** A request without any parameter, and one that lacks [action] only. *)
Definition bare_request : InboundRequest := mkInbound [].

Definition actionless_request : InboundRequest :=
  mkInbound (lit "?emailAddr=new%40b.c&listName=public-announce").

(** A 400 whose body is plain text, over a connection that carries reason
    phrases. *)
Definition bad_request : Response :=
  mkResponse 400 (lit "Bad Request") None (Some (lit "Invalid email address")).

(** ** What the worker sends *)

(** [h'] is [h] followed by Content-Type entries only. *)
Definition grown (h h' : list header) : Prop :=
  ∃ n, h' = h ++ replicate n content_type_json.

(** [effect P]: the client's headers grew by Content-Type entries only, and
    every request sent satisfies [P h], [h] being the client's headers
    before. *)
Definition effect (P : list header → Request → Prop) (w w' : World) : Prop :=
  grown (Fetch_headers w) (Fetch_headers w')
  ∧ ∃ new, calls w' = calls w ++ new ∧ Forall (P (Fetch_headers w)) new.

(** A description of requests that still holds when the headers it is
    relative to are replaced by shorter ones. *)
Definition antitone (P : list header → Request → Prop) : Prop :=
  ∀ h h' rq, grown h h' → P h' rq → P h rq.

(** The bodies the mutators post, as in the source. *)
Definition create_body (emailAddr : value) : value :=
  VObj [(lit "Email", emailAddr)].

Definition attach_body (listId emailAddr : value) : value :=
  VObj [ (lit "IsUnsubscribed", VBool true);
         (lit "ContactAlt", emailAddr);
         (lit "ListID", listId) ].

Definition send_body (emailAddr templateId listName : value) : value :=
  VObj [(lit "Messages",
    VArr [VObj [
      (lit "From",
        VObj [ (lit "Email", VStr (ToString listName ++ lit "@48ix.net"));
               (lit "Name", str "48 IX") ]);
      (lit "To", VArr [VObj [(lit "Email", emailAddr)]]);
      (lit "Subject",
        VStr (lit "Confirm your subscription to " ++ ToString listName
              ++ lit " mailing list"));
      (lit "TemplateID", templateId);
      (lit "TemplateLanguage", VBool true);
      (lit "Variables", VObj [(lit "LIST_NAME", listName)]) ]])].

Definition subscribe_body : value := VObj [(lit "IsUnsubscribed", VBool false)].

(** The URLs the handler looks up whatever the action. *)
Definition lookup_urls (emailAddr : value) : list (list N) :=
  [ MJ_CONTACTS_LIST; MJ_TEMPLATE;
    MJ_CONTACT ++ lit "/" ++ ToString emailAddr;
    MJ_CONTACT ++ lit "/" ++ ToString emailAddr ++ lit "/getcontactslists" ].

(** The requests [handleRequest] can send for a request, [h] being the
    client's headers when the handler starts: the lookups, the creation of
    the contact and its attachment to a list (always unsubscribed), the
    confirmation email (action 'add' only), and the recipient listing, the
    PUT that subscribes and the Slack notification (action 'subscribe'
    only). All but the last carry the client's headers. *)
Inductive worker_request `{Environment} (request : InboundRequest) (h : list header)
  : Request → Prop :=
| wr_lookup url encoded h' :
    url ∈ lookup_urls (param request "emailAddr") →
    URI.encodeURI url = Some encoded → grown h h' →
    worker_request request h (mkRequest GET encoded h' None)
| wr_create h' :
    grown h h' →
    worker_request request h
      (mkRequest POST MJ_CONTACT (h' ++ [content_type_json])
         (Some (create_body (param request "emailAddr"))))
| wr_attach h' listId :
    grown h h' →
    worker_request request h
      (mkRequest POST MJ_ADD_CONTACT (h' ++ [content_type_json])
         (Some (attach_body listId (param request "emailAddr"))))
| wr_send h' templateId :
    param request "action" = str "add" → grown h h' →
    worker_request request h
      (mkRequest POST MJ_SEND (h' ++ [content_type_json])
         (Some (send_body (param request "emailAddr") templateId
                  (param request "listName"))))
| wr_recipients h' :
    param request "action" = str "subscribe" → grown h h' →
    worker_request request h (mkRequest GET MJ_LIST_RECIPIENT h' None)
| wr_subscribe h' recipientId :
    param request "action" = str "subscribe" → grown h h' →
    worker_request request h
      (mkRequest PUT (MJ_LIST_RECIPIENT ++ lit "/" ++ ToString recipientId)
         (h' ++ [content_type_json]) (Some subscribe_body))
| wr_slack errorMsg :
    param request "action" = str "subscribe" →
    worker_request request h
      (mkRequest POST SLACK_URL [content_type_json]
         (Some (makeMessage (param request "emailAddr")
                  (param request "listName") errorMsg))).

(** A Slack notification, and a confirmation email, by their bodies. *)
Definition is_notification `{Environment} (rq : Request) : Prop :=
  ∃ emailAddr listName errorMsg,
    rq = mkRequest POST SLACK_URL [content_type_json]
           (Some (makeMessage emailAddr listName errorMsg)).

Definition is_confirmation_email (rq : Request) : Prop :=
  ∃ emailAddr templateId listName,
    rq_body rq = Some (send_body emailAddr templateId listName).

(** The requests a computation sends from a world. *)
Definition sent_by {A} (m : M A) (w : World) : list Request :=
  drop (length (calls w)) (calls (m w).2).

(** ** What a client asks with *)

(** The search component a client builds for a subscription request, with
    [encodeURIComponent] on every value; [None] when a value is not
    well formed. *)
Definition subscription_query (action emailAddr listName : list N)
  : option (list N) :=
  a ← URI.encodeURIComponent action;
  e ← URI.encodeURIComponent emailAddr;
  l ← URI.encodeURIComponent listName;
  Some (lit "?" ++ lit "action" ++ lit "=" ++ a
        ++ lit "&" ++ lit "emailAddr" ++ lit "=" ++ e
        ++ lit "&" ++ lit "listName" ++ lit "=" ++ l).

(** A value [parseUrl] can hand back as it was given: not empty, and without
    '=', the character the decoded item is split on. *)
Definition plain_value (v : list N) : Prop :=
  code_units v ∧ v ≠ [] ∧ (61%N ∉ v).

(** A key that needs no escape and holds no separator. *)
Definition plain_key (k : list N) : Prop :=
  k ≠ [] ∧ (37%N ∉ k) ∧ (61%N ∉ k).

(** The world after one more line on the console. *)
Definition logged (l : Level) (e : exn) (w : World) : World :=
  mkWorld (Fetch_headers w) (calls w) (console w ++ [(l, e)]).

(** A key of a query item, what stands before the first '=', that the
    assignment [params[key] = value] stores as a property of the object:
    '__proto__' is not one, the assignment stores nothing for it. *)
Definition stored_key (k : list N) : Prop :=
  k ≠ [] ∧ (61%N ∉ k) ∧ k ≠ lit "__proto__".

(** The error [decodeURIComponent] throws. *)
Definition URI_malformed : exn := mkError URIError (lit "URI malformed").

(** ** What the resolvers ask *)

(** The lookup of a contact, with the URL as [encodeURI] leaves it, and the
    creation of a contact. *)
Definition contact_request (encoded : list N) (w : World) : Request :=
  mkRequest GET encoded (Fetch_headers w) None.

Definition create_request (emailAddr : value) (w : World) : Request :=
  mkRequest POST MJ_CONTACT (Fetch_headers w ++ [content_type_json])
    (Some (create_body emailAddr)).

(** ** What leaves the handler *)

(** The errors of [btoa(encodeURIComponent(..))]. *)
Definition payload_error (e : exn) : Prop :=
  e = URI_malformed ∨ e = mkError InvalidCharacterError (lit "Invalid character").

(** The exceptions of a run of the handler: the TypeError of reading [id]
    of a list that was not found, and, for the action 'subscribe', the
    error of encoding a redirect payload. *)
Definition handler_exception (request : InboundRequest) (e : exn) : Prop :=
  e = cannot_read (lit "id") VUndef
  ∨ (param request "action" = str "subscribe" ∧ payload_error e).

(** ** What the handler answers *)

(** The confirmation email for a request, sent from a world, with the
    template found during the resolution. *)
Definition send_request (request : InboundRequest) (st : Locals) (w : World) : Request :=
  mkRequest POST MJ_SEND (Fetch_headers w ++ [content_type_json])
    (Some (send_body (param request "emailAddr") (t_id (emailTemplate st))
             (param request "listName"))).

(** The Slack notification for a request. *)
Definition notification `{Environment} (request : InboundRequest) (errorMsg : value)
  : Request :=
  mkRequest POST SLACK_URL [content_type_json]
    (Some (makeMessage (param request "emailAddr") (param request "listName")
             errorMsg)).

Definition confirmation_sent (request : InboundRequest) : WorkerResponse :=
  JsonResponse
    (lit "A confirmation email has been sent to '"
     ++ ToString (param request "emailAddr") ++ lit "'")
    200 json_headers.

(** ** More scenarios *)

(** a@b.c is on public-announce and pending; MailJet accepts the
    confirmation email. *)
Definition pending_account : Environment :=
  account [lists_route; templates_route; contact_route; memberships_route true;
           (POST, "https://api.mailjet.com/v3.1/send",
            json_response 200 "OK"
              (obj [("Messages", VArr [obj [("Status", str "success")]])]))].

(** a@b.c is pending and MailJet accepts the PUT that subscribes it; the
    Slack webhook is out of order. *)
Definition confirming_account : Environment :=
  account [lists_route; templates_route; contact_route; memberships_route true;
           recipients_route 42;
           (PUT, "https://api.mailjet.com/v3/REST/listrecipient/900",
            json_response 200 "OK"
              (Data [obj [("ID", VNum 900); ("IsUnsubscribed", VBool false)]]));
           (POST, "https://hooks.slack.com/services/T0/B0/X0",
            Rejected (mkError TypeError (lit "Network connection lost.")))].

Definition no_locals : Locals :=
  mkLocals None (mkTemplate VUndef VUndef) VUndef false false false.

(** ** What the resolvers read *)

(** The attachment of a contact to a list. *)
Definition attach_request (listId emailAddr : value) (w : World) : Request :=
  mkRequest POST MJ_ADD_CONTACT (Fetch_headers w ++ [content_type_json])
    (Some (attach_body listId emailAddr)).

(** [data.Data[0].ID] *)
Definition first_ID (data : value) : Outcome value :=
  first ← Get data "Data" ≫= Get0; Get first "ID".

(** [v.prop] for a [v] that is neither null nor undefined. *)
Definition prop_of (v : value) (prop : string) : value :=
  match v with
  | VObj fields => field fields (lit prop)
  | _ => VUndef
  end.

Definition readable (v : value) : Prop := v ≠ VNull ∧ v ≠ VUndef.

(** a@b.c is pending, and two entries of the recipient listing are for it. *)
Definition doubled_account : Environment :=
  account [lists_route; templates_route; contact_route; memberships_route true;
           (GET, "https://api.mailjet.com/v3/REST/listrecipient",
            json_response 200 "OK"
              (Data [obj [("ID", VNum 899); ("ContactID", VNum 5); ("ListID", VNum 7)];
                     obj [("ID", VNum 900); ("ContactID", VNum 42); ("ListID", VNum 7)];
                     obj [("ID", VNum 901); ("ContactID", VNum 42); ("ListID", VNum 7)]]))].

(** MailJet accepts the attachment and answers with an empty listing. *)
Definition terse_account : Environment :=
  account [(POST, "https://api.mailjet.com/v3/REST/listrecipient",
            json_response 201 "Created" (Data []))].

(** What [getAllContactLists] pushes for an element of the listing. *)
Definition contact_list_of (l : value) : ContactList :=
  mkContactList (prop_of l "ID") (prop_of l "Name") (prop_of l "SubscriberCount").

(** The listings of contact lists and of templates both hold a null entry
    after their first element. *)
Definition holed_account : Environment :=
  account [(GET, "https://api.mailjet.com/v3/REST/contactslist",
            json_response 200 "OK"
              (Data [obj [("ID", VNum 7); ("Name", str "public-announce");
                          ("SubscriberCount", VNum 3)];
                     VNull;
                     obj [("ID", VNum 8); ("Name", str "members");
                          ("SubscriberCount", VNum 1)]]));
           (GET, "https://api.mailjet.com/v3/REST/template",
            json_response 200 "OK"
              (Data [obj [("ID", VNum 11);
                          ("Name", str "public-announce-confirmation")];
                     VNull]))].

(** * Properties *)

(** ** The platform functions on examples *)

Example btoa_hello : Base64.btoa (lit "hello") = Some (lit "aGVsbG8=").
Proof. reflexivity. Qed.

Example atob_hello : Base64.atob (lit "aGVsbG8=") = Some (lit "hello").
Proof. vm_compute. reflexivity. Qed.

Example encodeURIComponent_pair :
  URI.encodeURIComponent (lit "emailAddr=a@b.c&listName=x y")
  = Some (lit "emailAddr%3Da%40b.c%26listName%3Dx%20y").
Proof. reflexivity. Qed.

Example encodeURIComponent_astral :
  URI.encodeURIComponent [0xE9%N; 0x20AC%N; 0xD83D%N; 0xDE00%N]
  = Some (lit "%C3%A9%E2%82%AC%F0%9F%98%80").
Proof. reflexivity. Qed.

Example decodeURIComponent_astral :
  URI.decodeURIComponent (lit "%C3%A9%E2%82%AC%F0%9F%98%80")
  = Some [0xE9%N; 0x20AC%N; 0xD83D%N; 0xDE00%N].
Proof. vm_compute. reflexivity. Qed.

Example decodeURIComponent_overlong : URI.decodeURIComponent (lit "%C0%80") = None.
Proof. vm_compute. reflexivity. Qed.

Example decodeURIComponent_surrogate : URI.decodeURIComponent (lit "%ED%A0%80") = None.
Proof. vm_compute. reflexivity. Qed.

Example split_query : split 38 (lit "a=1&b&&c=") = [lit "a=1"; lit "b"; []; lit "c="].
Proof. reflexivity. Qed.

Example ToString_array :
  ToString (VArr [VNum 1; VNull; VStr (lit "x"); VNum (-20)]) = lit "1,,x,-20".
Proof. vm_compute. reflexivity. Qed.

(** ** Reasoning about monadic code *)

Lemma bind_run {A B} (m : M A) (f : A → M B) (w : World) :
  (m ≫= f) w =
  match m w with
  | (Returned a, w') => f a w'
  | (Thrown e, w') => (Thrown e, w')
  end.
Proof. reflexivity. Qed.

Lemma bind_Returned {A B} (m : M A) (f : A → M B) w a w' :
  m w = (Returned a, w') → (m ≫= f) w = f a w'.
Proof. intros E. rewrite bind_run, E. reflexivity. Qed.

Lemma bind_Thrown {A B} (m : M A) (f : A → M B) w e w' :
  m w = (Thrown e, w') → (m ≫= f) w = (Thrown e, w').
Proof. intros E. rewrite bind_run, E. reflexivity. Qed.

Lemma try_catch_run {A} (body : M A) (handler : exn → M A) w :
  try_catch body handler w =
  match body w with
  | (Returned a, w') => (Returned a, w')
  | (Thrown e, w') => handler e w'
  end.
Proof. reflexivity. Qed.

Lemma never_throws_ret {A} (a : A) : never_throws (mret a).
Proof. intros w. by exists a. Qed.

Lemma never_throws_bind {A B} (m : M A) (f : A → M B) :
  never_throws m → (∀ a, never_throws (f a)) → never_throws (m ≫= f).
Proof.
  intros Hm Hf w. rewrite bind_run.
  destruct (Hm w) as [a Ha]. destruct (m w) as [o w']; simpl in Ha; subst o.
  apply Hf.
Qed.

Lemma never_throws_try_catch {A} (body : M A) (handler : exn → M A) :
  (∀ e, never_throws (handler e)) → never_throws (try_catch body handler).
Proof.
  intros Hh w. rewrite try_catch_run.
  destruct (body w) as [[a|e] w']; [by exists a | apply Hh].
Qed.

Lemma never_throws_log_ret {A} (l : Level) (e : exn) (a : A) :
  never_throws (console_log l e;; mret a).
Proof. intros w. by exists a. Qed.

Lemma never_throws_warn_ret {A} (e : exn) (a : A) :
  never_throws (console_warn e;; mret a).
Proof. apply never_throws_log_ret. Qed.

Lemma never_throws_error_ret {A} (e : exn) (a : A) :
  never_throws (console_error e;; mret a).
Proof. apply never_throws_log_ret. Qed.

Lemma stable_bind {A B} (R1 R2 R3 : World → World → Prop) (m : M A) (f : A → M B) :
  stable R1 m → (∀ a, stable R2 (f a)) →
  (∀ x y, R1 x y → R3 x y) →
  (∀ x y z, R1 x y → R2 y z → R3 x z) →
  stable R3 (m ≫= f).
Proof.
  intros Hm Hf H1 H12 w. rewrite bind_run. specialize (Hm w).
  destruct (m w) as [[a|e] w']; simpl in *; [| by apply H1].
  eapply H12; [exact Hm | apply Hf].
Qed.

Lemma stable_try_catch {A} (R1 R2 R3 : World → World → Prop)
    (body : M A) (handler : exn → M A) :
  stable R1 body → (∀ e, stable R2 (handler e)) →
  (∀ x y, R1 x y → R3 x y) →
  (∀ x y z, R1 x y → R2 y z → R3 x z) →
  stable R3 (try_catch body handler).
Proof.
  intros Hb Hh H1 H12 w. rewrite try_catch_run. specialize (Hb w).
  destruct (body w) as [[a|e] w']; simpl in *; [by apply H1 |].
  eapply H12; [exact Hb | apply Hh].
Qed.

Lemma sends_refl w : quiet w w.
Proof. split; [done | by rewrite app_nil_r]. Qed.

Lemma sends_trans l1 l2 x y z : sends l1 x y → sends l2 y z → sends (l1 ++ l2) x z.
Proof.
  intros [Hh1 Hc1] [Hh2 Hc2]. split; [congruence |].
  by rewrite Hc2, Hc1, app_assoc.
Qed.

Lemma sends_quiet l x y z : sends l x y → quiet y z → sends l x z.
Proof. intros H1 H2. rewrite <- (app_nil_r l). by eapply sends_trans. Qed.

Lemma quiet_sends l x y z : quiet x y → sends l y z → sends l x z.
Proof. intros H1 H2. change l with ([] ++ l). by eapply sends_trans. Qed.

Lemma quiet_bind {A B} (m : M A) (f : A → M B) :
  stable quiet m → (∀ a, stable quiet (f a)) → stable quiet (m ≫= f).
Proof.
  intros Hm Hf. eapply stable_bind; [exact Hm | exact Hf | auto |].
  intros x y z. apply sends_quiet.
Qed.

Lemma sends_bind_quiet {A B} l (m : M A) (f : A → M B) :
  stable (sends l) m → (∀ a, stable quiet (f a)) → stable (sends l) (m ≫= f).
Proof.
  intros Hm Hf. eapply stable_bind; [exact Hm | exact Hf | auto |].
  intros x y z. apply sends_quiet.
Qed.

Lemma sends_try_catch_quiet {A} l (body : M A) (handler : exn → M A) :
  stable (sends l) body → (∀ e, stable quiet (handler e)) →
  stable (sends l) (try_catch body handler).
Proof.
  intros Hb Hh. eapply stable_try_catch; [exact Hb | exact Hh | auto |].
  intros x y z. apply sends_quiet.
Qed.

Lemma quiet_try_catch {A} (body : M A) (handler : exn → M A) :
  stable quiet body → (∀ e, stable quiet (handler e)) →
  stable quiet (try_catch body handler).
Proof. apply sends_try_catch_quiet. Qed.

Lemma quiet_ret {A} (a : A) : stable quiet (mret a).
Proof. intros w. apply sends_refl. Qed.

Lemma quiet_lift {A} (o : Outcome A) : stable quiet (lift o).
Proof. intros w. apply sends_refl. Qed.

Lemma quiet_throw {A} (e : exn) : stable quiet (throw (A := A) e).
Proof. intros w. apply sends_refl. Qed.

Lemma quiet_console_log l e : stable quiet (console_log l e).
Proof. intros w. split; [done | by rewrite app_nil_r]. Qed.

Lemma quiet_console_warn e : stable quiet (console_warn e).
Proof. apply quiet_console_log. Qed.

Lemma quiet_console_error e : stable quiet (console_error e).
Proof. apply quiet_console_log. Qed.

Lemma quiet_Response_json r : stable quiet (Response_json r).
Proof. unfold Response_json. destruct (json_body r); [apply quiet_ret | apply quiet_throw]. Qed.

Lemma quiet_Response_text r : stable quiet (Response_text r).
Proof. unfold Response_text. destruct (text_body r); [apply quiet_ret | apply quiet_throw]. Qed.

Lemma quiet_mapM_warn errors : stable quiet (mapM console_warn errors).
Proof.
  induction errors as [|e errors IH]; [apply quiet_ret |].
  simpl. apply quiet_bind; [apply quiet_console_log |].
  intros []. apply quiet_bind; [exact IH | intros; apply quiet_ret].
Qed.

Lemma never_throws_mapM_warn errors : never_throws (mapM console_warn errors).
Proof.
  induction errors as [|e errors IH]; [apply never_throws_ret |].
  simpl. apply never_throws_bind; [intros w; by exists tt |].
  intros []. apply never_throws_bind; [exact IH | intros; apply never_throws_ret].
Qed.

Create HintDb quiet.
#[global] Hint Resolve quiet_ret quiet_lift quiet_throw quiet_console_log
  quiet_console_warn quiet_console_error quiet_Response_json quiet_Response_text quiet_mapM_warn : quiet.

(** Splits a quiet computation along its binds, branches and handlers. *)
Ltac quiet_step :=
  match goal with
  | |- stable quiet (_ ≫= _) => apply quiet_bind; [| intros ?]
  | |- stable quiet (try_catch _ _) => apply quiet_try_catch; [| intros ?]
  | |- stable quiet (if ?b then _ else _) => destruct b
  | |- stable quiet (match ?o with Some _ => _ | None => _ end) => destruct o
  | |- stable quiet (let '(_, _) := ?p in _) => destruct p
  | |- stable quiet (match ?l with [] => _ | _ :: _ => _ end) => destruct l
  | |- stable quiet _ => solve [auto with quiet]
  end.
Ltac quiet := repeat quiet_step.

Lemma stable_bind_quiet {A B} R (m : M A) (f : A → M B) :
  quiet_closed R → stable R m → (∀ a, stable quiet (f a)) → stable R (m ≫= f).
Proof. intros HR Hm Hf. eapply stable_bind; [exact Hm | exact Hf | auto | exact HR]. Qed.

Lemma stable_try_catch_quiet {A} R (body : M A) (handler : exn → M A) :
  quiet_closed R → stable R body → (∀ e, stable quiet (handler e)) →
  stable R (try_catch body handler).
Proof. intros HR Hb Hh. eapply stable_try_catch; [exact Hb | exact Hh | auto | exact HR]. Qed.

Lemma issues_quiet_closed mk : quiet_closed (issues mk).
Proof. intros x y z. apply sends_quiet. Qed.

Section ClientProperties.
Context `{Environment}.

Lemma clientError_quiet r : stable quiet (clientError r).
Proof. unfold clientError. quiet. Qed.

Lemma clientError_never_throws r : never_throws (clientError r).
Proof.
  unfold clientError.
  apply never_throws_bind.
  { apply never_throws_try_catch. intros e. apply never_throws_ret. }
  intros [detail errors]. apply never_throws_bind.
  { destruct (negb _); [| apply never_throws_ret].
    apply never_throws_try_catch. intros e. apply never_throws_ret. }
  intros [detail' errors']. destruct (negb _); [| apply never_throws_ret].
  apply never_throws_bind; [apply never_throws_mapM_warn |].
  intros _. apply never_throws_ret.
Qed.

Lemma fetch_sends rq : stable (sends [rq]) (fetch rq).
Proof. intros w. unfold fetch. by destruct (remote (calls w) rq). Qed.

(** After the fetch, the client only normalises the error. *)
Lemma quiet_check_ok (response : Response) :
  stable quiet
    (if negb (ok response)
     then error ← clientError response; throw (mkError MailingListError error)
     else mret response).
Proof. destruct (negb _); quiet. apply clientError_quiet. Qed.

Lemma Client_get_issues url encodedUrl :
  URI.encodeURI url = Some encodedUrl →
  stable (issues (λ headers, [mkRequest GET encodedUrl headers None])) (Client_get url).
Proof.
  intros Henc w. unfold Client_get. rewrite Henc.
  rewrite (bind_Returned _ _ w encodedUrl w eq_refl).
  rewrite (bind_Returned this_headers _ w (Fetch_headers w) w eq_refl).
  apply (stable_bind_quiet (sends [mkRequest GET encodedUrl (Fetch_headers w) None]));
    [intros x y z; apply sends_quiet | apply fetch_sends | apply quiet_check_ok].
Qed.

Lemma Client_get_malformed url :
  URI.encodeURI url = None → stable quiet (Client_get url).
Proof. intros Henc w. unfold Client_get. rewrite Henc. apply sends_refl. Qed.

End ClientProperties.

(** ** The resolvers *)

Lemma reads_refl w : reads w w.
Proof. split; [done |]. exists []. by rewrite app_nil_r. Qed.

Lemma reads_trans x y z : reads x y → reads y z → reads x z.
Proof.
  intros [Hh1 (n1 & Hc1 & Hg1)] [Hh2 (n2 & Hc2 & Hg2)]. split; [congruence |].
  exists (n1 ++ n2). split; [by rewrite Hc2, Hc1, app_assoc | by apply Forall_app].
Qed.

Lemma quiet_reads x y : quiet x y → reads x y.
Proof. intros [Hh Hc]. split; [done |]. by exists []. Qed.

Lemma issues_GET_reads url body x y :
  issues (λ headers, [mkRequest GET url headers body]) x y → reads x y.
Proof.
  intros [Hh Hc]. split; [done |]. eexists. split; [exact Hc |].
  by repeat constructor.
Qed.

Section ResolverProperties.
Context `{Environment}.

Lemma Client_get_reads url : stable reads (Client_get url).
Proof.
  intros w. destruct (URI.encodeURI url) as [u|] eqn:Henc.
  - eapply issues_GET_reads. by apply Client_get_issues.
  - apply quiet_reads. by apply Client_get_malformed.
Qed.

Lemma reads_bind_quiet {A B} (m : M A) (f : A → M B) :
  stable reads m → (∀ a, stable quiet (f a)) → stable reads (m ≫= f).
Proof.
  apply stable_bind_quiet. intros x y z Hxy Hyz.
  eapply reads_trans; [exact Hxy | by apply quiet_reads].
Qed.

Lemma reads_try_catch_quiet {A} (body : M A) (handler : exn → M A) :
  stable reads body → (∀ e, stable quiet (handler e)) →
  stable reads (try_catch body handler).
Proof.
  apply stable_try_catch_quiet. intros x y z Hxy Hyz.
  eapply reads_trans; [exact Hxy | by apply quiet_reads].
Qed.

(** Every resolver swallows what it catches. *)

Lemma getAllContactLists_never_throws : never_throws getAllContactLists.
Proof. apply never_throws_try_catch. intros e. apply never_throws_warn_ret. Qed.

Lemma getTemplates_never_throws : never_throws getTemplates.
Proof. apply never_throws_try_catch. intros e. apply never_throws_error_ret. Qed.

Lemma getContact_never_throws emailAddr : never_throws (getContact emailAddr).
Proof. apply never_throws_try_catch. intros e. apply never_throws_warn_ret. Qed.

Lemma getContactLists_never_throws emailAddr : never_throws (getContactLists emailAddr).
Proof. apply never_throws_try_catch. intros e. apply never_throws_warn_ret. Qed.

Lemma getRecipient_never_throws contactId listId :
  never_throws (getRecipient contactId listId).
Proof. apply never_throws_try_catch. intros e. apply never_throws_warn_ret. Qed.

(** The two lookups every request starts with send one GET each. *)

Lemma getAllContactLists_issues :
  stable (issues (λ headers, [mkRequest GET MJ_CONTACTS_LIST headers None]))
    getAllContactLists.
Proof.
  unfold getAllContactLists.
  apply stable_try_catch_quiet; [apply issues_quiet_closed | | intros; quiet].
  apply stable_bind_quiet;
    [apply issues_quiet_closed | by apply Client_get_issues | intros; quiet].
Qed.

Lemma getTemplates_issues :
  stable (issues (λ headers, [mkRequest GET MJ_TEMPLATE headers None])) getTemplates.
Proof.
  unfold getTemplates.
  apply stable_try_catch_quiet; [apply issues_quiet_closed | | intros; quiet].
  apply stable_bind_quiet;
    [apply issues_quiet_closed | by apply Client_get_issues | intros; quiet].
Qed.

Lemma getContact_reads emailAddr : stable reads (getContact emailAddr).
Proof.
  unfold getContact. apply reads_try_catch_quiet; [| intros; quiet].
  apply reads_bind_quiet; [apply Client_get_reads | intros; quiet].
Qed.

Lemma getContactLists_reads emailAddr : stable reads (getContactLists emailAddr).
Proof.
  unfold getContactLists. apply reads_try_catch_quiet; [| intros; quiet].
  apply reads_bind_quiet; [apply Client_get_reads | intros; quiet].
Qed.

Lemma getRecipient_reads contactId listId : stable reads (getRecipient contactId listId).
Proof.
  unfold getRecipient. apply reads_try_catch_quiet; [| intros; quiet].
  apply reads_bind_quiet; [apply Client_get_reads | intros; quiet].
Qed.

End ResolverProperties.

(** ** The claims *)

(** *** The CRM API client *)

Section ClientClaims.
Context `{Environment}.

Lemma bind_clientError_throws {A} (r : Response) (w : World) :
  ∃ detail w',
    (error ← clientError r; throw (A := A) (mkError MailingListError error)) w
    = (Thrown (mkError MailingListError detail), w').
Proof.
  rewrite bind_run. destruct (clientError_never_throws r w) as [d Hd].
  destruct (clientError r w) as [o w']; simpl in Hd; subst o.
  by exists d, w'.
Qed.

Lemma Client_get_run url encodedUrl w :
  URI.encodeURI url = Some encodedUrl →
  let rq := mkRequest GET encodedUrl (Fetch_headers w) None in
  Client_get url w =
  match remote (calls w) rq with
  | Resolved r => check_ok r (sent w rq)
  | Rejected e => (Thrown e, sent w rq)
  end.
Proof.
  intros Henc. unfold Client_get. rewrite Henc.
  cbv [mbind M_bind mret M_ret this_headers fetch sent].
  destruct (remote _ _); reflexivity.
Qed.

Lemma Client_post_run url data w :
  let w1 := with_content_type w in
  let rq := mkRequest POST url (Fetch_headers w1) (body_of data) in
  Client_post url data w =
  match remote (calls w) rq with
  | Resolved r => check_ok r (sent w1 rq)
  | Rejected e => (Thrown e, sent w1 rq)
  end.
Proof.
  unfold Client_post.
  cbv [mbind M_bind mret M_ret headers_append this_headers fetch with_content_type
       Fetch_headers calls console sent content_type_json body_of].
  destruct (remote _ _); reflexivity.
Qed.

Lemma Client_put_run url data w :
  let w1 := with_content_type w in
  let rq := mkRequest PUT url (Fetch_headers w1) (body_of data) in
  Client_put url data w =
  match remote (calls w) rq with
  | Resolved r => check_ok r (sent w1 rq)
  | Rejected e => (Thrown e, sent w1 rq)
  end.
Proof.
  unfold Client_put.
  cbv [mbind M_bind mret M_ret headers_append this_headers fetch with_content_type
       Fetch_headers calls console sent content_type_json body_of].
  destruct (remote _ _); reflexivity.
Qed.

Lemma check_ok_quiet r : stable quiet (check_ok r).
Proof. apply quiet_check_ok. Qed.

Lemma check_ok_Returned r w r' w' :
  check_ok r w = (Returned r', w') → r' = r ∧ ok r = true ∧ w' = w.
Proof.
  unfold check_ok. destruct (ok r); simpl.
  - by intros [= <- <-].
  - destruct (bind_clientError_throws (A := Response) r w) as (d & w2 & ->).
    discriminate.
Qed.

Lemma check_ok_not_ok r w :
  ok r = false →
  ∃ detail w', check_ok r w = (Thrown (mkError MailingListError detail), w').
Proof. intros Hok. unfold check_ok. rewrite Hok. apply bind_clientError_throws. Qed.

(** What PUT returns to its caller is a response with [ok]. *)
Lemma Client_put_Returned_ok url data w r w' :
  Client_put url data w = (Returned r, w') → ok r = true.
Proof.
  rewrite Client_put_run. cbv zeta.
  destruct (remote _ _) as [r0|e]; [| discriminate].
  intros Hr. by apply check_ok_Returned in Hr as (-> & Hok & _).
Qed.

(** A response that is not [ok], 304 included, makes PUT throw. *)
Lemma Client_put_not_ok url data w r :
  remote (calls w)
    (mkRequest PUT url (Fetch_headers w ++ [content_type_json]) (body_of data))
  = Resolved r →
  ok r = false →
  ∃ detail w', Client_put url data w = (Thrown (mkError MailingListError detail), w').
Proof.
  intros Hr Hok. rewrite Client_put_run. cbv zeta. simpl Fetch_headers.
  rewrite Hr. by apply check_ok_not_ok.
Qed.

End ClientClaims.

(** C8 fails: the first POST of a freshly loaded script leaves a third entry,
    Content-Type, in the header object of the shared client. *)
Lemma headers_not_read_only : ¬ headers_read_only.
Proof.
  intros Hro.
  destruct (Hro subscribed_account MJ_CONTACT (obj [("Email", str "a@b.c")])
              (start subscribed_account)) as (_ & Hpost & _).
  vm_compute in Hpost. discriminate.
Qed.

(** C8, amended: the header object of the shared client is initialised by
    the constructor with the Authorization and Accept entries; [get] leaves
    it as it is, while every [post] and every [put] appends one Content-Type
    entry to it, whatever the remote answers. The entries already present,
    the credential among them, are never changed or removed. *)
Theorem client_headers_effect `{Environment} url data w :
  Fetch_headers (Client_get url w).2 = Fetch_headers w
  ∧ Fetch_headers (Client_post url data w).2 = Fetch_headers w ++ [content_type_json]
  ∧ Fetch_headers (Client_put url data w).2 = Fetch_headers w ++ [content_type_json]
  ∧ (Client_constructor = None
     ∨ ∃ credentials,
         Client_constructor = Some [ (lit "Authorization", lit "Basic " ++ credentials);
                                     (lit "Accept", lit "application/json") ]).
Proof.
  split; [| split; [| split]].
  - apply Client_get_reads.
  - rewrite Client_post_run. cbv zeta.
    destruct (remote _ _) as [r|e]; [| done]. apply (check_ok_quiet r).
  - rewrite Client_put_run. cbv zeta.
    destruct (remote _ _) as [r|e]; [| done]. apply (check_ok_quiet r).
  - unfold Client_constructor. destruct (Base64.btoa _); [right | left]; eauto.
Qed.

(** Whenever the body is not JSON and the response has a status text, the
    detail is the status text, whatever the body holds. *)
Lemma clientError_statusText_wins r w :
  json_body r = None → statusText r ≠ [] →
  (clientError r w).1 = Returned (statusText r).
Proof.
  intros Hjson Htext. unfold clientError, Response_json. rewrite Hjson.
  destruct (statusText r) as [|c text]; [done | reflexivity].
Qed.

(** A JSON object as body gives '{code}: {message}'. *)
Lemma clientError_json r w fields :
  json_body r = Some (VObj fields) →
  (clientError r w).1
  = Returned (ToString (field fields (lit "ErrorCode")) ++ lit ": "
              ++ ToString (field fields (lit "ErrorMessage"))).
Proof.
  intros Hjson. unfold clientError, Response_json. rewrite Hjson.
  cbv [Get lift mbind M_bind mret M_ret try_catch].
  by destruct (ToString (field fields (lit "ErrorCode"))).
Qed.

(** With an empty status text (HTTP/2) the order is the documented one:
    the body text when the body is not JSON, 'General Error' when the text
    is empty or cannot be read. *)
Lemma clientError_without_statusText r w :
  json_body r = None → statusText r = [] →
  (clientError r w).1
  = Returned match text_body r with
             | Some (c :: text) => c :: text
             | _ => lit "General Error"
             end.
Proof.
  intros Hjson Htext. unfold clientError, Response_json, Response_text.
  rewrite Hjson, Htext. by destruct (text_body r) as [[|c text]|].
Qed.

(** C4 fails on the code: for a non-success response whose body is not JSON
    but is readable text, the detail is not that text. The fallback
    [response.statusText] is assigned first and the text is read only when
    the detail is still empty, so a non-empty status text wins over the
    body. *)
Theorem clientError_keeps_statusText w :
  json_body bad_request = None
  ∧ text_body bad_request = Some (lit "Invalid email address")
  ∧ (clientError bad_request w).1 = Returned (lit "Bad Request").
Proof. by repeat split. Qed.

(** C2 fails on the code: MailJet answers the PUT with 304, [Client.put]
    throws on it as on every response that is not [ok], and
    [subscribeContact] returns subscribed = false with the MailingListError;
    the test for 304 after the PUT is never reached with a 304. The worker
    then redirects to the failure page. *)
Theorem subscribeContact_304_is_failure :
  let env := not_modified_account in
  (subscribeContact (VNum 42) (VNum 7) (start env)).1
  = Returned (false, Some (mkError MailingListError (lit "Not Modified")))
  ∧ ∃ info, (handleRequest subscribe_request (start env)).1
            = Returned (Redirect (lit "https://48ix.net/subscribe/failure?" ++ info) 301).
Proof.
  split; [vm_compute; reflexivity |].
  eexists. vm_compute. reflexivity.
Qed.

(** *** The recipient lookup *)

(** C3 fails: the listing of [stranger_account] has no entry for contact 42,
    and the lookup returns undefined. *)
Lemma getRecipient_absent_returns :
  ¬ getRecipient_throws_when_absent.
Proof.
  intros Hclaim.
  destruct (Hclaim stranger_account (VNum 42) (VNum 7) (start stranger_account))
    as [e He].
  - eexists _, _, _. repeat split; vm_compute; reflexivity.
  - vm_compute in He. discriminate.
Qed.

Section RecipientClaims.
Context `{Environment}.

(** C3, amended: when no entry of the recipient listing matches both
    contactId and listId, the Error 'Contact not found.' is raised and
    caught inside [getRecipient], which logs it with [console.warn] and
    returns undefined to its caller; apart from the GET of the listing
    nothing is sent. *)
Theorem getRecipient_absent_undefined contactId listId w :
  no_recipient contactId listId w →
  getRecipient contactId listId w
  = (Returned VUndef,
     mkWorld (Fetch_headers w) (calls w ++ [recipients_request w])
       (console w ++ [(Warn, mkError ErrorBase (lit "Contact not found."))])).
Proof.
  intros (r & data & items & Hr & Hok & Hjson & Hitems & Hnone).
  unfold getRecipient. rewrite try_catch_run.
  erewrite bind_Returned; cycle 1.
  { rewrite (Client_get_run _ MJ_LIST_RECIPIENT) by reflexivity. cbv zeta.
    fold (recipients_request w). rewrite Hr. unfold check_ok. rewrite Hok.
    reflexivity. }
  unfold Response_json. rewrite Hjson.
  cbv [mbind M_bind mret M_ret lift] in Hitems |- *. rewrite Hitems, Hnone.
  reflexivity.
Qed.

End RecipientClaims.

Lemma getRecipient_absent_undefined_witness :
  let env := stranger_account in
  no_recipient (VNum 42) (VNum 7) (start env)
  ∧ (getRecipient (VNum 42) (VNum 7) (start env)).1 = Returned VUndef.
Proof.
  assert (Hno : no_recipient (H := stranger_account) (VNum 42) (VNum 7)
                  (start stranger_account)).
  { eexists _, _, _. repeat split; vm_compute; reflexivity. }
  split; [exact Hno |].
  rewrite (getRecipient_absent_undefined (H := stranger_account) _ _ _ Hno).
  reflexivity.
Defined.

(** *** The request handler *)

Lemma bind_Returned_inv {A B} (m : M A) (f : A → M B) w b w' :
  (m ≫= f) w = (Returned b, w') →
  ∃ a w1, m w = (Returned a, w1) ∧ f a w1 = (Returned b, w').
Proof.
  rewrite bind_run. destruct (m w) as [[a|e] w1]; [| discriminate].
  intros Hf. by exists a, w1.
Qed.

Lemma bind_Thrown_inv {A B} (m : M A) (f : A → M B) w e w' :
  (m ≫= f) w = (Thrown e, w') →
  m w = (Thrown e, w') ∨ ∃ a w1, m w = (Returned a, w1) ∧ f a w1 = (Thrown e, w').
Proof.
  rewrite bind_run. destruct (m w) as [[a|e0] w1].
  - intros Hf. right. by exists a, w1.
  - intros [= -> ->]. by left.
Qed.

Lemma never_throws_run {A} (m : M A) w :
  never_throws m → ∃ a w', m w = (Returned a, w').
Proof.
  intros Hm. destruct (Hm w) as [a Ha].
  destruct (m w) as [o w']; simpl in Ha; subst o. by exists a, w'.
Qed.

Lemma never_throws_not_Thrown {A} (m : M A) w e w' :
  never_throws m → m w ≠ (Thrown e, w').
Proof. intros Hm He. destruct (Hm w) as [a Ha]. by rewrite He in Ha. Qed.

Section HandlerProperties.
Context `{Environment}.

Lemma parseUrl_run request w :
  parseUrl request w = (Returned (params_of request), parsed request w).
Proof.
  unfold parsed, params_of, parseUrl.
  destruct (parse_items _ _) as [params [err|]]; reflexivity.
Qed.

Lemma parseUrl_quiet request : stable quiet (parseUrl request).
Proof. unfold parseUrl. quiet. Qed.

Lemma parsed_quiet request w : quiet w (parsed request w).
Proof. apply parseUrl_quiet. Qed.

Lemma handleRequest_run request w :
  handleRequest request w =
  match resolveState (param request "emailAddr") (param request "listName")
          (parsed request w) with
  | (Returned (inl returned), w') => (Returned returned, w')
  | (Returned (inr st), w') =>
      respond (param request "action") (param request "emailAddr")
        (param request "listName") (fallback_message request) 500 json_headers st w'
  | (Thrown e, w') => (Thrown e, w')
  end.
Proof.
  unfold handleRequest. rewrite (bind_Returned _ _ _ _ _ (parseUrl_run request w)).
  cbv zeta. rewrite bind_run. fold (param request "emailAddr").
  fold (param request "listName").
  destruct (resolveState _ _ _) as [[[r|st]|e] w']; reflexivity.
Qed.

(** The mutators report their failures in their results. *)

Lemma addContact_never_throws emailAddr : never_throws (addContact emailAddr).
Proof. apply never_throws_try_catch. intros e. apply never_throws_warn_ret. Qed.

Lemma addContactToList_never_throws listId emailAddr :
  never_throws (addContactToList listId emailAddr).
Proof. apply never_throws_try_catch. intros e. apply never_throws_warn_ret. Qed.

Lemma sendEmail_never_throws emailAddr templateId listName :
  never_throws (sendEmail emailAddr templateId listName).
Proof. apply never_throws_try_catch. intros e. apply never_throws_error_ret. Qed.

Lemma notifySlack_never_throws emailAddr listName errorMsg :
  never_throws (notifySlack emailAddr listName errorMsg).
Proof. apply never_throws_try_catch. intros e. apply never_throws_error_ret. Qed.

Lemma subscribeContact_never_throws contactId listId :
  never_throws (subscribeContact contactId listId).
Proof.
  apply never_throws_bind; [apply getRecipient_never_throws |].
  intros recipientId. apply never_throws_try_catch.
  intros e. apply never_throws_warn_ret.
Qed.

(** Without an exception from the PUT, [subscribeContact] reports success. *)
Lemma subscribeContact_unsubscribed_error contactId listId w error w' :
  subscribeContact contactId listId w = (Returned (false, error), w') →
  is_Some error.
Proof.
  unfold subscribeContact. cbv zeta.
  intros (recipientId & w1 & _ & Hput)%bind_Returned_inv.
  rewrite try_catch_run in Hput.
  match type of Hput with
  | context [let (_, _) := ?body in _] =>
      destruct body as [[[subscribed error0]|e] w2] eqn:Hbody
  end.
  - apply bind_Returned_inv in Hbody as (response & w3 & Hresp & Hret).
    apply Client_put_Returned_ok in Hresp. rewrite Hresp in Hret.
    simpl in Hret. unfold mret, M_ret in Hret. congruence.
  - injection Hput as <- _. by eexists.
Qed.

End HandlerProperties.

Lemma strict_eq_VStr v s : strict_eq v (VStr s) = true ↔ v = VStr s.
Proof.
  destruct v; simpl; try (split; [discriminate | congruence]).
  rewrite bool_decide_eq_true. split; congruence.
Qed.

Lemma head_filter_None {A} (p : A → bool) (l : list A) :
  (∀ x, x ∈ l → p x = false) → head (List.filter p l) = None.
Proof.
  induction l as [|x l IH]; [done |]. intros Hall. simpl.
  rewrite (Hall x) by left. apply IH. intros y Hy. apply Hall. by right.
Qed.

Section TemplateGate.
Context `{Environment}.

Lemma resolveState_no_template emailAddr listName w allLists w1 templates w2 :
  getAllContactLists w = (Returned allLists, w1) →
  getTemplates w1 = (Returned templates, w2) →
  (∀ t, t ∈ templates → t_name t ≠ confirmation_template listName) →
  resolveState emailAddr listName w
  = (Returned (inl (JsonResponse
                      (lit "Error sending confirmation email to '" ++ ToString emailAddr
                       ++ lit "' for list '" ++ ToString listName ++ lit "'")
                      500 [])), w2).
Proof.
  intros Hlists Htemplates Hnone. unfold resolveState. cbv zeta.
  rewrite (bind_Returned _ _ _ _ _ Hlists).
  rewrite (bind_Returned _ _ _ _ _ Htemplates).
  rewrite head_filter_None; [reflexivity |].
  intros t Ht. apply not_true_is_false. intros Heq%strict_eq_VStr.
  by apply (Hnone t).
Qed.

(** C7: when no enumerated template is named '{listName}-confirmation', the
    handler answers 500 whatever the action (and whether or not the list
    exists), and the GET of the contact lists and the GET of the templates
    are the only requests it sends: no contact lookup, no contact creation,
    no list attachment, no email. *)
Theorem missing_template_is_terminal request w allLists w1 templates w2 :
  getAllContactLists (parsed request w) = (Returned allLists, w1) →
  getTemplates w1 = (Returned templates, w2) →
  (∀ t, t ∈ templates →
        t_name t ≠ confirmation_template (param request "listName")) →
  handleRequest request w
  = (Returned (JsonResponse
                 (lit "Error sending confirmation email to '"
                  ++ ToString (param request "emailAddr")
                  ++ lit "' for list '" ++ ToString (param request "listName")
                  ++ lit "'")
                 500 []), w2)
  ∧ calls w2 = calls w ++ [lists_request w; templates_request w]
  ∧ Fetch_headers w2 = Fetch_headers w.
Proof.
  intros Hlists Htemplates Hnone.
  rewrite handleRequest_run.
  rewrite (resolveState_no_template _ _ _ _ _ _ _ Hlists Htemplates Hnone).
  split; [reflexivity |].
  destruct (parsed_quiet request w) as [Hh0 Hc0].
  pose proof (getAllContactLists_issues (parsed request w)) as [Hh1 Hc1].
  pose proof (getTemplates_issues w1) as [Hh2 Hc2].
  rewrite Hlists in Hh1, Hc1. rewrite Htemplates in Hh2, Hc2. simpl in *.
  split; [| congruence].
  rewrite Hc2, Hc1, Hc0, app_nil_r, <- app_assoc.
  unfold lists_request, templates_request. by rewrite Hh1, Hh0.
Qed.

End TemplateGate.

Lemma missing_template_is_terminal_witness :
  let env := untemplated_account in
  ∃ allLists w1 templates w2,
    getAllContactLists (parsed add_request (start env)) = (Returned allLists, w1)
    ∧ getTemplates w1 = (Returned templates, w2)
    ∧ (∀ t, t ∈ templates →
            t_name t ≠ confirmation_template (param add_request "listName"))
    ∧ (handleRequest add_request (start env)).1
      = Returned (JsonResponse
          (lit "Error sending confirmation email to 'a@b.c' for list 'public-announce'")
          500 [])
    ∧ length (calls w2) = 2%nat.
Proof.
  intros env.
  pose (r1 := getAllContactLists (parsed add_request (start env))).
  pose (r2 := getTemplates r1.2).
  pose (allLists := match r1.1 with Returned l => l | Thrown _ => [] end).
  pose (templates := match r2.1 with Returned l => l | Thrown _ => [] end).
  assert (Hlists : getAllContactLists (parsed add_request (start env))
                   = (Returned allLists, r1.2)) by (vm_compute; reflexivity).
  assert (Htemplates : getTemplates r1.2 = (Returned templates, r2.2))
    by (vm_compute; reflexivity).
  assert (Hnone : ∀ t, t ∈ templates →
            t_name t ≠ confirmation_template (param add_request "listName")).
  { intros t Ht. apply list_elem_of_In in Ht. vm_compute in Ht.
    destruct Ht as [<- | []]. vm_compute. discriminate. }
  exists allLists, r1.2, templates, r2.2.
  destruct (missing_template_is_terminal (H := env) add_request (start env)
              allLists r1.2 templates r2.2 Hlists Htemplates Hnone)
    as (Hres & Hcalls & _).
  split; [exact Hlists |]. split; [exact Htemplates |]. split; [exact Hnone |].
  split.
  - rewrite Hres. vm_compute. reflexivity.
  - rewrite Hcalls. reflexivity.
Defined.

Section SubscribedBranch.
Context `{Environment}.

Lemma issues_reads_run {A} (m : M A) mk w o w' :
  stable (issues mk) m → m w = (o, w') →
  Forall (λ rq, rq_method rq = GET) (mk (Fetch_headers w)) → reads w w'.
Proof.
  intros Hm Hrun Hget. specialize (Hm w). rewrite Hrun in Hm.
  destruct Hm as [Hh Hc]. split; [done |]. eauto.
Qed.

Lemma reads_run {A} (m : M A) w o w' :
  stable reads m → m w = (o, w') → reads w w'.
Proof. intros Hm Hrun. specialize (Hm w). by rewrite Hrun in Hm. Qed.

(** The only way to reach the branches with [alreadySubscribed] set: the
    contact exists and one of its memberships is for the target list. Only
    the four lookups were made. *)
Lemma resolveState_subscribed emailAddr listName w st w' :
  resolveState emailAddr listName w = (Returned (inr st), w') →
  alreadySubscribed st = true →
  onList st = true ∧ reads w w'.
Proof.
  unfold resolveState. cbv zeta.
  intros (allLists & w1 & Hlists & Hrest)%bind_Returned_inv Hsub.
  apply bind_Returned_inv in Hrest as (templates & w2 & Htemplates & Hrest).
  destruct (head (List.filter _ templates)) as [emailTemplate|]; [| discriminate].
  apply bind_Returned_inv in Hrest as ([contactId exists_] & w3 & Hcontact & Hrest).
  assert (Hreads : reads w w3).
  { eapply reads_trans; [| eapply reads_trans].
    - eapply issues_reads_run; [apply getAllContactLists_issues | exact Hlists |].
      by repeat constructor.
    - eapply issues_reads_run; [apply getTemplates_issues | exact Htemplates |].
      by repeat constructor.
    - eapply reads_run; [apply getContact_reads | exact Hcontact]. }
  destruct exists_.
  - apply bind_Returned_inv in Hrest as (contactLists & w4 & Hmember & Hrest).
    apply bind_Returned_inv in Hrest as (matching & w5 & Hmatch & Hrest).
    assert (w5 = w4) as -> by (unfold lift in Hmatch; congruence).
    destruct (head matching) as [contactList|].
    + injection Hrest as <- <-. split; [done |].
      eapply reads_trans; [exact Hreads |].
      eapply reads_run; [apply getContactLists_reads | exact Hmember].
    + apply bind_Returned_inv in Hrest as (listId & w6 & _ & Hrest).
      apply bind_Returned_inv in Hrest as (attached & w7 & _ & Hrest).
      injection Hrest as <- _. discriminate.
  - apply bind_Returned_inv in Hrest as (contactAdded & w4 & _ & Hrest).
    destruct contactAdded.
    + apply bind_Returned_inv in Hrest as (listId & w6 & _ & Hrest).
      apply bind_Returned_inv in Hrest as (attached & w7 & _ & Hrest).
      destruct (at_error attached); [discriminate |].
      injection Hrest as <- _. discriminate.
    + injection Hrest as <- _. discriminate.
Qed.

(** C6: when the resolution finds the contact on the target list with
    subscribed = true and the action is 'add', the handler answers 409 with
    the message "{email} is already subscribed to contact list
    '{listName}'", in which both the address and the list name occur, and
    the requests it sent are GETs only: no contact was created or attached,
    no subscription finalised and no email sent (all of these are POSTs or
    PUTs), and the client's headers are as they were. *)
Theorem already_subscribed_add_conflict request w st w' :
  param request "action" = str "add" →
  resolveState (param request "emailAddr") (param request "listName")
    (parsed request w) = (Returned (inr st), w') →
  onList st = true →
  alreadySubscribed st = true →
  handleRequest request w
  = (Returned (JsonResponse
                 (ToString (param request "emailAddr")
                  ++ lit " is already subscribed to contact list '"
                  ++ ToString (param request "listName") ++ lit "'")
                 409 json_headers), w')
  ∧ reads w w'.
Proof.
  intros Haction Hstate HonList Hsub.
  rewrite handleRequest_run, Hstate. unfold respond. cbv zeta.
  rewrite HonList, Hsub, Haction. split; [reflexivity |].
  eapply reads_trans; [apply quiet_reads, parsed_quiet |].
  by eapply resolveState_subscribed.
Qed.

End SubscribedBranch.

Lemma already_subscribed_add_conflict_witness :
  let env := subscribed_account in
  ∃ st w',
    param add_request "action" = str "add"
    ∧ resolveState (param add_request "emailAddr") (param add_request "listName")
        (parsed add_request (start env)) = (Returned (inr st), w')
    ∧ onList st = true
    ∧ alreadySubscribed st = true
    ∧ (handleRequest add_request (start env)).1
      = Returned (JsonResponse
          (lit "a@b.c is already subscribed to contact list 'public-announce'")
          409 json_headers)
    ∧ reads (start env) w'.
Proof.
  intros env.
  pose (r := resolveState (param add_request "emailAddr")
               (param add_request "listName") (parsed add_request (start env))).
  pose (st := match r.1 with
              | Returned (inr st) => st
              | _ => mkLocals None (mkTemplate VUndef VUndef) VUndef false false false
              end).
  assert (Haction : param add_request "action" = str "add")
    by (vm_compute; reflexivity).
  assert (Hstate : resolveState (param add_request "emailAddr")
                     (param add_request "listName") (parsed add_request (start env))
                   = (Returned (inr st), r.2)) by (vm_compute; reflexivity).
  assert (HonList : onList st = true) by (vm_compute; reflexivity).
  assert (Hsub : alreadySubscribed st = true) by (vm_compute; reflexivity).
  exists st, r.2.
  destruct (already_subscribed_add_conflict (H := env) add_request (start env) st r.2
              Haction Hstate HonList Hsub) as [Hres Hreads].
  repeat (split; [assumption |]).
  split; [| exact Hreads].
  rewrite Hres. vm_compute. reflexivity.
Defined.

Lemma head_filter_Some {A} (p : A → bool) (l : list A) x :
  x ∈ l → p x = true → is_Some (head (List.filter p l)).
Proof.
  induction l as [|y l IH]; [by intros ?%elem_of_nil |].
  intros Hx Hp. simpl. destruct (p y) eqn:Hy; [by eexists |].
  apply IH; [| done]. apply elem_of_cons in Hx as [-> | Hx]; [congruence | done].
Qed.

Lemma filterO_undefined_list (memberships : list Membership) :
  filterO (λ l, id ← listDetails_id None; mret (strict_eq id (ms_id l))) memberships
  = match memberships with
    | [] => Returned []
    | _ :: _ => Thrown (cannot_read (lit "id") VUndef)
    end.
Proof. by destruct memberships. Qed.

Section MissingList.
Context `{Environment}.

(** C9: when no contact list has the requested name while the confirmation
    template exists, the handler does not stop after the two lookups: the
    first element of the empty filtered array, undefined, stays in
    [listDetails] and the handler goes on to look the contact up. If the
    contact exists, reading [listDetails.id] throws a TypeError right after
    the membership lookup (while matching the memberships, or when the
    contact is to be attached); if it does not, the contact is created
    first and, once created, the TypeError is thrown when the arguments of
    the attachment are evaluated, before any attachment is sent. Only when
    the creation fails does the handler answer, with the fallback 500. *)
Theorem missing_list_not_terminal request w allLists w1 templates w2 t :
  getAllContactLists (parsed request w) = (Returned allLists, w1) →
  (∀ l, l ∈ allLists → strict_eq (cl_name l) (param request "listName") = false) →
  getTemplates w1 = (Returned templates, w2) →
  t ∈ templates →
  t_name t = confirmation_template (param request "listName") →
  ∃ contactId exists_ w3,
    getContact (param request "emailAddr") w2 = (Returned (contactId, exists_), w3)
    ∧ if exists_ : bool then
        ∃ memberships w4,
          getContactLists (param request "emailAddr") w3 = (Returned memberships, w4)
          ∧ handleRequest request w = (Thrown (cannot_read (lit "id") VUndef), w4)
      else
        ∃ added w4,
          addContact (param request "emailAddr") w3 = (Returned added, w4)
          ∧ handleRequest request w
            = if added : bool
              then (Thrown (cannot_read (lit "id") VUndef), w4)
              else (Returned (JsonResponse (fallback_message request) 500 json_headers),
                    w4).
Proof.
  intros Hlists Hnolist Htemplates Ht Hname.
  destruct (never_throws_run _ w2 (getContact_never_throws (param request "emailAddr")))
    as ([contactId exists_] & w3 & Hcontact).
  exists contactId, exists_, w3. split; [exact Hcontact |].
  rewrite handleRequest_run. unfold resolveState. cbv zeta.
  rewrite (bind_Returned _ _ _ _ _ Hlists).
  rewrite (bind_Returned _ _ _ _ _ Htemplates).
  rewrite (head_filter_None _ allLists) by exact Hnolist.
  destruct (head_filter_Some
              (λ t, strict_eq (t_name t) (VStr (ToString (param request "listName")
                                                ++ lit "-confirmation")))
              templates t Ht) as [emailTemplate ->].
  { by apply strict_eq_VStr. }
  rewrite (bind_Returned _ _ _ _ _ Hcontact). cbv beta iota.
  destruct exists_.
  - destruct (never_throws_run _ w3
                (getContactLists_never_throws (param request "emailAddr")))
      as (memberships & w4 & Hmember).
    exists memberships, w4. split; [exact Hmember |].
    rewrite (bind_Returned _ _ _ _ _ Hmember).
    rewrite filterO_undefined_list. by destruct memberships.
  - destruct (never_throws_run _ w3 (addContact_never_throws (param request "emailAddr")))
      as (added & w4 & Hadded).
    exists added, w4. split; [exact Hadded |].
    rewrite (bind_Returned _ _ _ _ _ Hadded). by destruct added.
Qed.

End MissingList.

Lemma missing_list_not_terminal_witness :
  let env := listless_account in
  ∃ allLists w1 templates w2 t,
    getAllContactLists (parsed add_request (start env)) = (Returned allLists, w1)
    ∧ (∀ l, l ∈ allLists →
            strict_eq (cl_name l) (param add_request "listName") = false)
    ∧ getTemplates w1 = (Returned templates, w2)
    ∧ t ∈ templates
    ∧ t_name t = confirmation_template (param add_request "listName")
    ∧ (handleRequest add_request (start env)).1
      = Thrown (cannot_read (lit "id") VUndef)
    ∧ rq_method <$> calls (handleRequest add_request (start env)).2
      = [GET; GET; GET; POST].
Proof.
  intros env.
  pose (r1 := getAllContactLists (parsed add_request (start env))).
  pose (r2 := getTemplates r1.2).
  pose (allLists := match r1.1 with Returned l => l | Thrown _ => [] end).
  pose (templates := match r2.1 with Returned l => l | Thrown _ => [] end).
  pose (t := mkTemplate (VNum 11) (str "public-announce-confirmation")).
  assert (Hlists : getAllContactLists (parsed add_request (start env))
                   = (Returned allLists, r1.2)) by (vm_compute; reflexivity).
  assert (Hnolist : ∀ l, l ∈ allLists →
            strict_eq (cl_name l) (param add_request "listName") = false).
  { intros l Hl. apply list_elem_of_In in Hl. vm_compute in Hl.
    destruct Hl as [<- | []]. vm_compute. reflexivity. }
  assert (Htemplates : getTemplates r1.2 = (Returned templates, r2.2))
    by (vm_compute; reflexivity).
  assert (Ht : t ∈ templates) by (apply list_elem_of_In; vm_compute; by left).
  assert (Hname : t_name t = confirmation_template (param add_request "listName"))
    by (vm_compute; reflexivity).
  exists allLists, r1.2, templates, r2.2, t.
  destruct (missing_list_not_terminal (H := env) add_request (start env)
              allLists r1.2 templates r2.2 t Hlists Hnolist Htemplates Ht Hname)
    as (contactId & exists_ & w3 & Hcontact & Hrest).
  repeat (split; [assumption |]).
  split; vm_compute; reflexivity.
Defined.

(** ** Which exceptions leave the handler *)

Lemma throws_only_never {A} P (m : M A) : never_throws m → throws_only P m.
Proof. intros Hm w e w' He. by destruct (never_throws_not_Thrown m w e w' Hm). Qed.

Lemma throws_only_ret {A} P (a : A) : throws_only P (mret a).
Proof. intros w e w' [=]. Qed.

Lemma throws_only_throw {A} (P : exn → Prop) e : P e → throws_only P (throw (A := A) e).
Proof. by intros HP w e' w' [= <- _]. Qed.

Lemma throws_only_lift {A} (P : exn → Prop) (o : Outcome A) :
  (∀ e, o = Thrown e → P e) → throws_only P (lift o).
Proof. intros HP w e w' [= -> _]. by apply HP. Qed.

Lemma throws_only_bind_run {A B} P (m : M A) (f : A → M B) :
  throws_only P m →
  (∀ w a w1, m w = (Returned a, w1) → ∀ e w', f a w1 = (Thrown e, w') → P e) →
  throws_only P (m ≫= f).
Proof.
  intros Hm Hf w e w' [He | (a & w1 & Ha & He)]%bind_Thrown_inv; eauto.
Qed.

Lemma throws_only_bind {A B} P (m : M A) (f : A → M B) :
  throws_only P m → (∀ a, throws_only P (f a)) → throws_only P (m ≫= f).
Proof. intros Hm Hf. apply throws_only_bind_run; [done |]. intros w a w1 _. apply Hf. Qed.

Lemma listDetails_id_throws listDetails e :
  listDetails_id listDetails = Thrown e → e = cannot_read (lit "id") VUndef.
Proof. destruct listDetails; [discriminate | by intros [= <-]]. Qed.

Lemma filterO_listDetails_throws listDetails (memberships : list Membership) e :
  filterO (λ l, id ← listDetails_id listDetails; mret (strict_eq id (ms_id l)))
    memberships = Thrown e →
  e = cannot_read (lit "id") VUndef.
Proof.
  destruct listDetails as [l|].
  - induction memberships as [|m ms IH]; [discriminate |]. simpl.
    destruct (filterO _ ms); [discriminate | exact IH].
  - rewrite filterO_undefined_list. destruct memberships; [discriminate |].
    by intros [= <-].
Qed.

Lemma cannot_read_id_not_undefined_error :
  not_undefined_error (cannot_read (lit "id") VUndef).
Proof. vm_compute. discriminate. Qed.

Section Throws.
Context `{Environment}.

Lemma encodeInfo_throws s : throws_only not_undefined_error (encodeInfo s).
Proof.
  unfold encodeInfo. destruct (URI.encodeURIComponent s) as [encoded|].
  - destruct (Base64.btoa encoded); [apply throws_only_ret |].
    by apply throws_only_throw.
  - by apply throws_only_throw.
Qed.

Lemma resolveState_throws emailAddr listName :
  throws_only (λ e, e = cannot_read (lit "id") VUndef)
    (resolveState emailAddr listName).
Proof.
  unfold resolveState. cbv zeta.
  apply throws_only_bind;
    [apply throws_only_never, getAllContactLists_never_throws | intros allLists].
  apply throws_only_bind;
    [apply throws_only_never, getTemplates_never_throws | intros templates].
  destruct (head (List.filter _ templates)) as [emailTemplate|];
    [| apply throws_only_ret].
  apply throws_only_bind;
    [apply throws_only_never, getContact_never_throws | intros [contactId exists_]].
  destruct exists_.
  - apply throws_only_bind;
      [apply throws_only_never, getContactLists_never_throws | intros contactLists].
    apply throws_only_bind.
    { apply throws_only_lift. apply filterO_listDetails_throws. }
    intros matching. destruct (head matching); [apply throws_only_ret |].
    apply throws_only_bind.
    { apply throws_only_lift. apply listDetails_id_throws. }
    intros listId. apply throws_only_bind;
      [apply throws_only_never, addContactToList_never_throws | intros attached].
    apply throws_only_ret.
  - apply throws_only_bind;
      [apply throws_only_never, addContact_never_throws | intros added].
    destruct added; [| apply throws_only_ret].
    apply throws_only_bind.
    { apply throws_only_lift. apply listDetails_id_throws. }
    intros listId. apply throws_only_bind;
      [apply throws_only_never, addContactToList_never_throws | intros attached].
    destruct (at_error attached); apply throws_only_ret.
Qed.

Lemma respond_throws action emailAddr listName response status headers st :
  throws_only not_undefined_error
    (respond action emailAddr listName response status headers st).
Proof.
  unfold respond. cbv zeta. apply throws_only_bind.
  { destruct (onList st && alreadySubscribed st); [| apply throws_only_ret].
    destruct (strict_eq action (str "add")); [apply throws_only_ret |].
    destruct (strict_eq action (str "subscribe")); [| apply throws_only_ret].
    apply throws_only_bind; [apply encodeInfo_throws | intros; apply throws_only_ret]. }
  intros [returned|]; [apply throws_only_ret |].
  destruct (onList st && negb (alreadySubscribed st)); [| apply throws_only_ret].
  destruct (strict_eq action (str "add")).
  { apply throws_only_bind;
      [apply throws_only_never, sendEmail_never_throws | intros [sent error]].
    destruct (truthy error); [apply throws_only_ret |].
    destruct sent; apply throws_only_ret. }
  destruct (strict_eq action (str "subscribe")); [| apply throws_only_ret].
  apply throws_only_bind.
  { apply throws_only_lift. intros e ->%listDetails_id_throws.
    apply cannot_read_id_not_undefined_error. }
  intros listId. apply throws_only_bind_run;
    [apply throws_only_never, subscribeContact_never_throws |].
  intros w [subscribed error] w1 Hsubscribe.
  apply throws_only_bind; [apply encodeInfo_throws | intros encodedInfo].
  destruct subscribed.
  { apply throws_only_bind;
      [apply throws_only_never, notifySlack_never_throws | intros; apply throws_only_ret]. }
  destruct (subscribeContact_unsubscribed_error _ _ _ _ _ Hsubscribe) as [err ->].
  apply throws_only_bind; [apply encodeInfo_throws | intros encodedInfo'].
  apply throws_only_bind; [apply throws_only_ret | intros errorMessage].
  apply throws_only_bind;
    [apply throws_only_never, notifySlack_never_throws | intros; apply throws_only_ret].
Qed.

(** C10: [subscribeContact] cannot return subscribed = false with an
    undefined error: [Client.put] returns only responses that are [ok], so
    without an exception subscribed is set. Hence [error.message] in the
    failure branch of the handler is never read from undefined: the
    TypeError that read would raise leaves no run of the handler. *)
Theorem subscribe_failure_has_error contactId listId w error w' :
  subscribeContact contactId listId w = (Returned (false, error), w') →
  is_Some error
  ∧ ∀ request w0, (handleRequest request w0).1 ≠ Thrown undefined_error.
Proof.
  intros Hsubscribe. split; [by eapply subscribeContact_unsubscribed_error |].
  intros request w0. rewrite handleRequest_run.
  destruct (resolveState _ _ _) as [[[returned|st]|e] w1] eqn:Hstate; simpl.
  - discriminate.
  - destruct (respond _ _ _ _ _ _ st w1) as [[r|e] w2] eqn:Hrespond; [discriminate |].
    simpl. intros [= ->]. by apply respond_throws in Hrespond.
  - intros [= ->]. apply resolveState_throws in Hstate.
    by apply cannot_read_id_not_undefined_error.
Qed.

End Throws.

Lemma subscribe_failure_has_error_witness :
  let env := refusing_account in
  ∃ error w',
    subscribeContact (VNum 42) (VNum 7) (start env) = (Returned (false, error), w')
    ∧ is_Some error
    ∧ (handleRequest subscribe_request (start env)).1 ≠ Thrown undefined_error.
Proof.
  intros env.
  pose (r := subscribeContact (VNum 42) (VNum 7) (start env)).
  pose (error := match r.1 with Returned (_, error) => error | Thrown _ => None end).
  assert (Hsubscribe : subscribeContact (VNum 42) (VNum 7) (start env)
                       = (Returned (false, error), r.2)) by (vm_compute; reflexivity).
  exists error, r.2.
  destruct (subscribe_failure_has_error (H := env) _ _ _ _ _ Hsubscribe)
    as [Herror Hhandler].
  split; [exact Hsubscribe |]. split; [exact Herror |]. apply Hhandler.
Defined.

(** C1 fails on the code: the [return] that answers "Unable to parse
    request." sits in the callback of [Array.prototype.map], so it ends the
    callback and the handler goes on. Without any parameter the handler
    queries the contact lists and the templates and answers 500 with another
    message; without [action] alone it goes as far as creating the contact
    and attaching it to the list before it answers 500 with the fallback
    message. *)
Theorem missing_parameter_not_terminal :
  param bare_request "action" = VUndef
  ∧ param bare_request "emailAddr" = VUndef
  ∧ param bare_request "listName" = VUndef
  ∧ (let run := handleRequest (H := subscribed_account) bare_request
                  (start subscribed_account) in
     run.1 = Returned (JsonResponse
               (lit "Error sending confirmation email to 'undefined' for list 'undefined'")
               500 [])
     ∧ ((λ rq, (rq_method rq, rq_url rq)) <$> calls run.2)
       = [(GET, MJ_CONTACTS_LIST); (GET, MJ_TEMPLATE)])
  ∧ param actionless_request "action" = VUndef
  ∧ (let run := handleRequest (H := open_account) actionless_request
                  (start open_account) in
     run.1 = Returned (JsonResponse
               (lit "An error occurred while attempting to add 'new@b.c' to list 'public-announce'")
               500 json_headers)
     ∧ ((λ rq, (rq_method rq, rq_url rq)) <$> calls run.2)
       = [(GET, MJ_CONTACTS_LIST); (GET, MJ_TEMPLATE);
          (GET, MJ_CONTACT ++ lit "/new@b.c");
          (POST, MJ_CONTACT); (POST, MJ_ADD_CONTACT)]).
Proof. repeat split; vm_compute; reflexivity. Qed.

(** ** The redirect payload: base64 *)

Ltac div_lia := zify; Z.to_euclidean_division_equations; lia.

(** Case analysis on the comparisons of a goal. *)
Ltac cases_N :=
  repeat match goal with
    | |- context [(?a <? ?b)%N] => destruct (N.ltb_spec a b)
    | |- context [(?a <=? ?b)%N] => destruct (N.leb_spec a b)
    | |- context [(?a =? ?b)%N] => destruct (N.eqb_spec a b)
    end;
  simpl.

(** Induction over a list three elements at a time. *)
Lemma list_ind3 {A} (P : list A → Prop) :
  P [] → (∀ a, P [a]) → (∀ a b, P [a; b]) →
  (∀ a b c r, P r → P (a :: b :: c :: r)) →
  ∀ l, P l.
Proof.
  intros H0 H1 H2 H3.
  assert (Hall : ∀ l, P l ∧ (∀ a, P (a :: l)) ∧ (∀ a b, P (a :: b :: l))).
  { induction l as [|x l (IH0 & IH1 & IH2)]; [by repeat split |].
    repeat split; [apply IH1 | intros; apply IH2 | intros; by apply H3]. }
  intros l. apply Hall.
Qed.

Section Base64Facts.
Local Open Scope N_scope.

Lemma sextet_of_char_of_sextet n :
  n < 64 → Base64.sextet_of_char (Base64.char_of_sextet n) = Some n.
Proof.
  intros Hn. unfold Base64.sextet_of_char, Base64.char_of_sextet.
  cases_N; try lia; f_equal; lia.
Qed.

Lemma char_of_sextet_plain n :
  Base64.char_of_sextet n ≠ 61
  ∧ Base64.is_ascii_whitespace (Base64.char_of_sextet n) = false
  ∧ Base64.char_of_sextet n < 128.
Proof.
  unfold Base64.is_ascii_whitespace, Base64.char_of_sextet.
  cases_N; repeat split; lia.
Qed.

Lemma b64_encode_chars bytes : Base64.encode bytes = b64_chars bytes ++ b64_padding bytes.
Proof.
  induction bytes as [| a | a b | a b c r IH] using list_ind3; try reflexivity.
  change (Base64.encode (a :: b :: c :: r))
    with ([Base64.char_of_sextet (a / 4);
           Base64.char_of_sextet ((a mod 4) * 16 + b / 16);
           Base64.char_of_sextet ((b mod 16) * 4 + c / 64);
           Base64.char_of_sextet (c mod 64)] ++ Base64.encode r).
  rewrite IH. reflexivity.
Qed.

Lemma b64_chars_plain bytes :
  Forall (λ c, c ≠ 61 ∧ Base64.is_ascii_whitespace c = false ∧ c < 128)
    (b64_chars bytes).
Proof.
  induction bytes as [| a | a b | a b c r IH] using list_ind3;
    repeat (constructor; [apply char_of_sextet_plain |]); [constructor .. | exact IH].
Qed.

Lemma b64_decode_chars bytes :
  Forall (λ b, b < 256) bytes → Base64.decode (b64_chars bytes) = Some bytes.
Proof.
  induction bytes as [| a | a b | a b c r IH] using list_ind3; intros Hbytes.
  - reflexivity.
  - apply Forall_cons in Hbytes as [Ha _].
    cbn [b64_chars Base64.decode].
    rewrite !sextet_of_char_of_sextet by div_lia. simpl.
    do 2 f_equal. div_lia.
  - apply Forall_cons in Hbytes as [Ha [Hb _]%Forall_cons].
    cbn [b64_chars Base64.decode].
    rewrite !sextet_of_char_of_sextet by div_lia. simpl.
    do 2 f_equal; [div_lia | f_equal; div_lia].
  - apply Forall_cons in Hbytes as [Ha [Hb [Hc Hr]%Forall_cons]%Forall_cons].
    cbn [b64_chars Base64.decode app].
    rewrite !sextet_of_char_of_sextet by div_lia. simpl.
    rewrite (IH Hr). simpl.
    do 2 f_equal; [div_lia | f_equal; [div_lia | f_equal; div_lia]].
Qed.

End Base64Facts.

Section Base64RoundTrip.
Local Open Scope N_scope.

Lemma b64_padding_cases bytes :
  b64_padding bytes = [] ∨ b64_padding bytes = [61] ∨ b64_padding bytes = [61; 61].
Proof. induction bytes using list_ind3; auto. Qed.

Lemma b64_length bytes :
  ∃ k, length (b64_chars bytes ++ b64_padding bytes) = (4 * k)%nat.
Proof.
  induction bytes as [| a | a b | a b c r [k IH]] using list_ind3.
  - by exists 0%nat.
  - by exists 1%nat.
  - by exists 1%nat.
  - exists (S k). cbn [b64_chars b64_padding app length]. rewrite IH. lia.
Qed.

Lemma rev_not_pad l x r :
  Forall (λ c, c ≠ 61 ∧ Base64.is_ascii_whitespace c = false ∧ c < 128) l →
  rev l = x :: r → (x =? 61) = false.
Proof.
  intros Hl Hrev. apply N.eqb_neq.
  assert (Hx : x ∈ l).
  { apply list_elem_of_In, in_rev. rewrite Hrev. by left. }
  rewrite Forall_forall in Hl. by destruct (Hl x Hx).
Qed.

Lemma strip_padding_encode bytes :
  Base64.strip_padding (Base64.encode bytes) = b64_chars bytes.
Proof.
  rewrite b64_encode_chars. unfold Base64.strip_padding.
  destruct (b64_length bytes) as [k ->].
  replace (N.of_nat (4 * k) mod 4 =? 0) with true
    by (symmetry; apply N.eqb_eq; div_lia).
  rewrite rev_app_distr.
  pose proof (b64_chars_plain bytes) as Hplain.
  destruct (b64_padding_cases bytes) as [Hp | [Hp | Hp]]; rewrite Hp; simpl.
  - destruct (rev (b64_chars bytes)) as [|x [|y r]] eqn:Hrev;
      rewrite ?app_nil_r; try reflexivity.
    by rewrite (rev_not_pad _ _ _ Hplain Hrev).
  - destruct (rev (b64_chars bytes)) as [|y r] eqn:Hrev.
    + pose proof (b64_length bytes) as [k' Hlen].
      apply (f_equal (@length N)) in Hrev. rewrite length_rev in Hrev.
      rewrite length_app, Hrev, Hp in Hlen. simpl in Hlen. lia.
    + rewrite (rev_not_pad _ _ _ Hplain Hrev).
      change (rev r ++ [y]) with (rev (y :: r)).
      rewrite <- Hrev. apply rev_involutive.
  - apply rev_involutive.
Qed.

Lemma filter_all {A} (P : A → Prop) `{∀ x, Decision (P x)} (l : list A) :
  Forall P l → filter P l = l.
Proof.
  induction 1 as [|x l Hx Hl IH]; [done |].
  rewrite filter_cons_True by done. by rewrite IH.
Qed.

Lemma b64_encode_plain bytes :
  Forall (λ c, Base64.is_ascii_whitespace c = false) (Base64.encode bytes).
Proof.
  rewrite b64_encode_chars. apply Forall_app. split.
  - eapply Forall_impl; [apply b64_chars_plain |]. by intros c (_ & Hc & _).
  - destruct (b64_padding_cases bytes) as [-> | [-> | ->]]; by repeat constructor.
Qed.

(** [atob] undoes [btoa]. *)
Lemma atob_btoa s encoded : Base64.btoa s = Some encoded → Base64.atob encoded = Some s.
Proof.
  unfold Base64.btoa, Base64.atob.
  destruct (forallb _ s) eqn:Hbytes; [| discriminate]. intros [= <-].
  rewrite filter_all by apply b64_encode_plain.
  rewrite strip_padding_encode. apply b64_decode_chars.
  apply Forall_forall. intros b Hb%list_elem_of_In.
  rewrite forallb_forall in Hbytes. by apply N.ltb_lt, Hbytes.
Qed.

(** [btoa] accepts every string of code units below 256. *)
Lemma btoa_latin1 s : Forall (λ c, c < 256) s → Base64.btoa s = Some (Base64.encode s).
Proof.
  intros Hs. unfold Base64.btoa.
  replace (forallb _ s) with true; [done |].
  symmetry. apply forallb_forall. intros c Hc%list_elem_of_In.
  rewrite Forall_forall in Hs. by apply N.ltb_lt, Hs.
Qed.

End Base64RoundTrip.

(** ** The redirect payload: percent-encoding *)

(** Induction over a list with the tail and the tail of the tail at hand. *)
Lemma list_ind2 {A} (P : list A → Prop) :
  P [] → (∀ a, P [a]) → (∀ a b r, P r → P (b :: r) → P (a :: b :: r)) →
  ∀ l, P l.
Proof.
  intros H0 H1 H2.
  assert (Hall : ∀ l, P l ∧ ∀ a, P (a :: l)).
  { induction l as [|x l [IH0 IH1]]; [by split |].
    split; [apply IH1 | intros a; by apply H2]. }
  intros l. apply Hall.
Qed.

Section PercentFacts.
Local Open Scope N_scope.

Lemma hexval_hexdigit n : n < 16 → URI.hexval (URI.hexdigit n) = Some n.
Proof.
  intros Hn. unfold URI.hexval, URI.hexdigit.
  cases_N; try lia; f_equal; lia.
Qed.

Lemma hexdigit_ascii n : n < 16 → URI.hexdigit n < 128.
Proof. intros Hn. unfold URI.hexdigit. cases_N; lia. Qed.

Lemma hexpair_pct b :
  b < 256 → URI.hexpair (URI.hexdigit (b / 16)) (URI.hexdigit (b mod 16)) = Some b.
Proof.
  intros Hb. unfold URI.hexpair.
  rewrite !hexval_hexdigit by div_lia. f_equal. div_lia.
Qed.

Lemma uriUnescaped_plain c : URI.uriUnescaped c = true → c ≠ 37 ∧ c < 128.
Proof.
  unfold URI.uriUnescaped, URI.member. rewrite existsb_exists.
  intros (x & Hx & ->%N.eqb_eq).
  assert (Hall : Forall (λ x, x ≠ 37 ∧ x < 128)
                   (URI.uriAlpha ++ URI.DecimalDigit ++ URI.uriMark)).
  { compute_done. }
  rewrite Forall_forall in Hall. by apply Hall, list_elem_of_In.
Qed.

(** One step of [Decode] on a code unit that is not '%'. *)
Lemma Decode_plain c r :
  c ≠ 37 → URI.Decode (c :: r) = (c ::.) <$> URI.Decode r.
Proof. intros Hc. cbn [URI.Decode]. by apply N.eqb_neq in Hc as ->. Qed.

(** One step of [Decode] on an escape. *)
Lemma Decode_escape h1 h2 r1 b0 :
  URI.hexpair h1 h2 = Some b0 →
  URI.Decode (37 :: h1 :: h2 :: r1) =
  match URI.leading_ones b0 with
  | 0%nat => (b0 ::.) <$> URI.Decode r1
  | 2%nat =>
      match r1 with
      | p1 :: x1 :: y1 :: r2 =>
          b1 ← URI.escaped_octet p1 x1 y1;
          v ← URI.utf8_decode [b0; b1];
          (URI.utf16_encode v ++.) <$> URI.Decode r2
      | _ => None
      end
  | 3%nat =>
      match r1 with
      | p1 :: x1 :: y1 :: p2 :: x2 :: y2 :: r2 =>
          b1 ← URI.escaped_octet p1 x1 y1;
          b2 ← URI.escaped_octet p2 x2 y2;
          v ← URI.utf8_decode [b0; b1; b2];
          (URI.utf16_encode v ++.) <$> URI.Decode r2
      | _ => None
      end
  | 4%nat =>
      match r1 with
      | p1 :: x1 :: y1 :: p2 :: x2 :: y2 :: p3 :: x3 :: y3 :: r2 =>
          b1 ← URI.escaped_octet p1 x1 y1;
          b2 ← URI.escaped_octet p2 x2 y2;
          b3 ← URI.escaped_octet p3 x3 y3;
          v ← URI.utf8_decode [b0; b1; b2; b3];
          (URI.utf16_encode v ++.) <$> URI.Decode r2
      | _ => None
      end
  | _ => None
  end.
Proof. intros Hb. cbn [URI.Decode]. rewrite N.eqb_refl, Hb. reflexivity. Qed.

Lemma escaped_octet_pct b :
  b < 256 →
  URI.escaped_octet 37 (URI.hexdigit (b / 16)) (URI.hexdigit (b mod 16)) = Some b.
Proof. intros Hb. unfold URI.escaped_octet. rewrite N.eqb_refl. by apply hexpair_pct. Qed.

(** The UTF-8 encodings by length. *)

Lemma utf8_1 cp :
  cp < 0x80 → URI.utf8_encode cp = [cp] ∧ URI.leading_ones cp = 0%nat.
Proof.
  intros Hcp. unfold URI.utf8_encode, URI.leading_ones.
  by destruct (N.ltb_spec cp 0x80); [| lia].
Qed.

Lemma utf8_2 cp :
  0x80 <= cp → cp < 0x800 →
  let b0 := 0xC0 + cp / 64 in
  let b1 := 0x80 + cp mod 64 in
  URI.utf8_encode cp = [b0; b1] ∧ b0 < 256 ∧ b1 < 256
  ∧ URI.leading_ones b0 = 2%nat ∧ URI.utf8_decode [b0; b1] = Some cp.
Proof.
  intros Hlo Hhi b0 b1. subst b0 b1.
  unfold URI.utf8_encode, URI.leading_ones, URI.utf8_decode, URI.is_continuation.
  repeat split; cases_N; try div_lia; try reflexivity.
  f_equal. div_lia.
Qed.

Lemma utf8_3 cp :
  0x800 <= cp → cp < 0x10000 → is_surrogate cp = false →
  let b0 := 0xE0 + cp / 4096 in
  let b1 := 0x80 + (cp / 64) mod 64 in
  let b2 := 0x80 + cp mod 64 in
  URI.utf8_encode cp = [b0; b1; b2] ∧ b0 < 256 ∧ b1 < 256 ∧ b2 < 256
  ∧ URI.leading_ones b0 = 3%nat ∧ URI.utf8_decode [b0; b1; b2] = Some cp.
Proof.
  intros Hlo Hhi Hsur b0 b1 b2. subst b0 b1 b2.
  unfold is_surrogate, URI.is_high_surrogate, URI.is_low_surrogate in Hsur.
  unfold URI.utf8_encode, URI.leading_ones, URI.utf8_decode, URI.is_continuation.
  repeat split; cases_N; try div_lia; try reflexivity;
    try (f_equal; div_lia).
  exfalso. revert Hsur. cases_N; (discriminate || div_lia).
Qed.

Lemma utf8_4 cp :
  0x10000 <= cp → cp <= 0x10FFFF →
  let b0 := 0xF0 + cp / 262144 in
  let b1 := 0x80 + (cp / 4096) mod 64 in
  let b2 := 0x80 + (cp / 64) mod 64 in
  let b3 := 0x80 + cp mod 64 in
  URI.utf8_encode cp = [b0; b1; b2; b3]
  ∧ b0 < 256 ∧ b1 < 256 ∧ b2 < 256 ∧ b3 < 256
  ∧ URI.leading_ones b0 = 4%nat ∧ URI.utf8_decode [b0; b1; b2; b3] = Some cp.
Proof.
  intros Hlo Hhi b0 b1 b2 b3. subst b0 b1 b2 b3.
  unfold URI.utf8_encode, URI.leading_ones, URI.utf8_decode, URI.is_continuation.
  repeat split; cases_N; try div_lia; try reflexivity.
  f_equal. div_lia.
Qed.

End PercentFacts.

Section PercentRoundTrip.
Local Open Scope N_scope.

Lemma utf16_encode_unit cp : cp < 0x10000 → URI.utf16_encode cp = [cp].
Proof. intros Hcp. unfold URI.utf16_encode. by destruct (N.ltb_spec cp 0x10000); [| lia]. Qed.

Lemma surrogate_pair_range hi lo :
  URI.is_high_surrogate hi = true → URI.is_low_surrogate lo = true →
  0x10000 <= URI.surrogate_pair_cp hi lo ∧ URI.surrogate_pair_cp hi lo <= 0x10FFFF
  ∧ URI.utf16_encode (URI.surrogate_pair_cp hi lo) = [hi; lo].
Proof.
  unfold URI.is_high_surrogate, URI.is_low_surrogate, URI.surrogate_pair_cp,
    URI.utf16_encode.
  intros [?%N.leb_le ?%N.leb_le]%andb_prop [?%N.leb_le ?%N.leb_le]%andb_prop.
  repeat split; cases_N; try lia.
  f_equal; [| f_equal]; div_lia.
Qed.

(** The escapes of a code point decode to its UTF-16 form. *)
Lemma Decode_pct_utf8 cp t :
  cp <= 0x10FFFF → is_surrogate cp = false →
  URI.Decode (URI.pct_utf8 cp ++ t) = (URI.utf16_encode cp ++.) <$> URI.Decode t.
Proof.
  intros Hmax Hsur. unfold URI.pct_utf8.
  destruct (N.lt_ge_cases cp 0x80) as [H1 | H1];
    [| destruct (N.lt_ge_cases cp 0x800) as [H2 | H2];
       [| destruct (N.lt_ge_cases cp 0x10000) as [H3 | H3]]].
  - destruct (utf8_1 cp H1) as [-> Hones].
    cbn [fmap list_fmap concat app URI.pct].
    rewrite (Decode_escape _ _ _ cp) by (apply hexpair_pct; lia).
    rewrite Hones, utf16_encode_unit by lia. reflexivity.
  - destruct (utf8_2 cp H1 H2) as (-> & Hb0 & Hb1 & Hones & Hdec).
    cbn [fmap list_fmap concat app URI.pct].
    rewrite (Decode_escape _ _ _ _ (hexpair_pct _ Hb0)), Hones.
    rewrite (escaped_octet_pct _ Hb1). cbn [mbind option_bind].
    rewrite Hdec. reflexivity.
  - destruct (utf8_3 cp H2 H3 Hsur) as (-> & Hb0 & Hb1 & Hb2 & Hones & Hdec).
    cbn [fmap list_fmap concat app URI.pct].
    rewrite (Decode_escape _ _ _ _ (hexpair_pct _ Hb0)), Hones.
    rewrite (escaped_octet_pct _ Hb1), (escaped_octet_pct _ Hb2).
    cbn [mbind option_bind]. rewrite Hdec. reflexivity.
  - destruct (utf8_4 cp H3 Hmax) as (-> & Hb0 & Hb1 & Hb2 & Hb3 & Hones & Hdec).
    cbn [fmap list_fmap concat app URI.pct].
    rewrite (Decode_escape _ _ _ _ (hexpair_pct _ Hb0)), Hones.
    rewrite (escaped_octet_pct _ Hb1), (escaped_octet_pct _ Hb2),
      (escaped_octet_pct _ Hb3).
    cbn [mbind option_bind]. rewrite Hdec. reflexivity.
Qed.

Lemma utf8_encode_bytes cp : cp <= 0x10FFFF → Forall (λ b, b < 256) (URI.utf8_encode cp).
Proof.
  intros Hmax. unfold URI.utf8_encode.
  cases_N; repeat constructor; div_lia.
Qed.

Lemma pct_utf8_ascii cp : cp <= 0x10FFFF → Forall (λ c, c < 128) (URI.pct_utf8 cp).
Proof.
  intros Hmax. unfold URI.pct_utf8.
  induction (utf8_encode_bytes cp Hmax) as [|b bs Hb _ IH]; [constructor |].
  cbn [fmap list_fmap concat]. apply Forall_app. split; [| exact IH].
  unfold URI.pct. repeat apply Forall_cons_2; try apply Forall_nil_2;
    [lia | apply hexdigit_ascii; div_lia ..].
Qed.

Lemma not_surrogate hi :
  URI.is_low_surrogate hi = false → URI.is_high_surrogate hi = false →
  is_surrogate hi = false.
Proof. intros Hlow Hhigh. unfold is_surrogate. by rewrite Hlow, Hhigh. Qed.

(** One step of [Encode]. *)
Lemma Encode_cons unescaped c r :
  URI.Encode unescaped (c :: r) =
  if unescaped c then (c ::.) <$> URI.Encode unescaped r
  else if URI.is_low_surrogate c then None
  else if URI.is_high_surrogate c then
    match r with
    | d :: r' =>
        if URI.is_low_surrogate d
        then (URI.pct_utf8 (URI.surrogate_pair_cp c d) ++.) <$> URI.Encode unescaped r'
        else None
    | [] => None
    end
  else (URI.pct_utf8 c ++.) <$> URI.Encode unescaped r.
Proof. reflexivity. Qed.

(** [decodeURIComponent] undoes [encodeURIComponent], and the encoding is
    ASCII. *)
Lemma Encode_spec s :
  code_units s →
  ∀ encoded, URI.encodeURIComponent s = Some encoded →
    URI.decodeURIComponent encoded = Some s ∧ Forall (λ c, c < 128) encoded.
Proof.
  unfold URI.encodeURIComponent, URI.decodeURIComponent.
  induction s as [| a | a b r IHr IHbr] using list_ind2; intros Hs encoded.
  - intros [= <-]. by split.
  - apply Forall_cons in Hs as [Ha _]. cbn [URI.Encode].
    destruct (URI.uriUnescaped a) eqn:Hu.
    { intros [= <-]. destruct (uriUnescaped_plain a Hu) as [Hpct Hascii].
      rewrite Decode_plain by done. split; [done | by repeat constructor]. }
    destruct (URI.is_low_surrogate a) eqn:Hlow; [discriminate |].
    destruct (URI.is_high_surrogate a) eqn:Hhigh; [discriminate |].
    intros [= <-].
    rewrite Decode_pct_utf8 by (lia || by apply not_surrogate).
    rewrite utf16_encode_unit by lia. split; [done |].
    rewrite app_nil_r. apply pct_utf8_ascii. lia.
  - pose proof Hs as [Ha Hbr]%Forall_cons.
    pose proof Hbr as [Hb Hr]%Forall_cons.
    rewrite Encode_cons.
    destruct (URI.uriUnescaped a) eqn:Hu.
    { destruct (URI.Encode URI.uriUnescaped (b :: r)) as [e|] eqn:He; [| simpl; discriminate].
      simpl; intros [= <-]. destruct (IHbr Hbr e eq_refl) as [Hdec Hasc].
      destruct (uriUnescaped_plain a Hu) as [Hpct Hascii].
      rewrite Decode_plain by done. rewrite Hdec. split; [done | by constructor]. }
    destruct (URI.is_low_surrogate a) eqn:Hlow; [discriminate |].
    destruct (URI.is_high_surrogate a) eqn:Hhigh.
    + destruct (URI.is_low_surrogate b) eqn:Hblow; [| discriminate].
      destruct (URI.Encode URI.uriUnescaped r) as [e|] eqn:He; [| simpl; discriminate].
      simpl; intros [= <-]. destruct (IHr Hr e eq_refl) as [Hdec Hasc].
      destruct (surrogate_pair_range a b Hhigh Hblow) as (Hlo & Hhi & Hpair).
      rewrite Decode_pct_utf8; [| done |].
      * rewrite Hdec, Hpair. split; [done |].
        apply Forall_app. split; [by apply pct_utf8_ascii | done].
      * unfold is_surrogate, URI.is_high_surrogate, URI.is_low_surrogate.
        cases_N; (reflexivity || lia).
    + destruct (URI.Encode URI.uriUnescaped (b :: r)) as [e|] eqn:He; [| simpl; discriminate].
      simpl; intros [= <-]. destruct (IHbr Hbr e eq_refl) as [Hdec Hasc].
      rewrite Decode_pct_utf8 by (lia || by apply not_surrogate).
      rewrite Hdec, utf16_encode_unit by lia. split; [done |].
      apply Forall_app. split; [apply pct_utf8_ascii; lia | done].
Qed.

End PercentRoundTrip.

(** ** Well-formed strings *)

Section WellFormed.
Local Open Scope N_scope.

Lemma wf_app s t : well_formed s → well_formed t → well_formed (s ++ t).
Proof.
  induction 1; intros Ht; simpl; [done | apply wf_unit | apply wf_pair]; auto.
Qed.

Lemma small_not_surrogate c : c < 0xD800 → is_surrogate c = false.
Proof.
  intros Hc. unfold is_surrogate, URI.is_high_surrogate, URI.is_low_surrogate.
  cases_N; (reflexivity || lia).
Qed.

Lemma wf_ascii s : Forall (λ c, c < 128) s → well_formed s.
Proof.
  induction 1 as [|c s Hc _ IH]; [constructor |].
  apply wf_unit; [lia | apply small_not_surrogate; lia | exact IH].
Qed.

Lemma lit_ascii_bound str : Forall (λ c, c < 256) (lit str).
Proof.
  unfold lit. induction str as [|a str IH]; [constructor |].
  cbn [list_ascii_of_string fmap list_fmap]. constructor; [| exact IH].
  apply N_ascii_bounded.
Qed.

Lemma wf_lit str : well_formed (lit str).
Proof.
  induction (lit_ascii_bound str) as [|c s Hc _ IH]; [constructor |].
  apply wf_unit; [lia | apply small_not_surrogate; lia | exact IH].
Qed.

Lemma wf_code_units s : well_formed s → code_units s.
Proof.
  induction 1 as [| c s Hc _ _ IH | hi lo s Hhi Hlo _ IH]; [constructor | by constructor |].
  unfold URI.is_high_surrogate, URI.is_low_surrogate in *.
  apply andb_prop in Hhi as [_ ?%N.leb_le]. apply andb_prop in Hlo as [_ ?%N.leb_le].
  repeat constructor; [lia | lia | exact IH].
Qed.

Lemma high_not_low c : URI.is_high_surrogate c = true → URI.is_low_surrogate c = false.
Proof.
  unfold URI.is_high_surrogate, URI.is_low_surrogate.
  cases_N; (reflexivity || discriminate || lia).
Qed.

Lemma unescaped_not_surrogate c :
  URI.uriUnescaped c = true → is_surrogate c = false.
Proof. intros [_ Hc]%uriUnescaped_plain. apply small_not_surrogate. lia. Qed.

(** [encodeURIComponent] does not throw on a well-formed string. *)
Lemma encodeURIComponent_wf s : well_formed s → is_Some (URI.encodeURIComponent s).
Proof.
  unfold URI.encodeURIComponent.
  induction 1 as [| c s Hc Hsur _ [e He] | hi lo s Hhi Hlo _ [e He]].
  - by eexists.
  - rewrite Encode_cons, He. unfold is_surrogate in Hsur.
    apply orb_false_elim in Hsur as [-> ->].
    destruct (URI.uriUnescaped c); by eexists.
  - rewrite Encode_cons. destruct (URI.uriUnescaped hi) eqn:Hu.
    { apply unescaped_not_surrogate in Hu. unfold is_surrogate in Hu.
      rewrite Hhi in Hu. discriminate. }
    rewrite (high_not_low hi Hhi), Hhi, Hlo, He. by eexists.
Qed.

Lemma leading_ones_range b :
  match URI.leading_ones b with
  | 0%nat => b < 0x80
  | 1%nat => 0x80 <= b < 0xC0
  | 2%nat => 0xC0 <= b < 0xE0
  | 3%nat => 0xE0 <= b < 0xF0
  | 4%nat => 0xF0 <= b < 0xF8
  | _ => 0xF8 <= b
  end.
Proof. unfold URI.leading_ones. cases_N; lia. Qed.

(** The code point of a valid UTF-8 sequence has a well-formed UTF-16
    form. *)
Lemma utf8_decode_wf octets v :
  URI.utf8_decode octets = Some v →
  (∃ b0 rest, octets = b0 :: rest ∧ URI.leading_ones b0 = length octets) →
  well_formed (URI.utf16_encode v).
Proof.
  intros Hdec (b0 & rest & -> & Hones).
  pose proof (leading_ones_range b0) as Hrange. rewrite Hones in Hrange.
  destruct rest as [|b1 [|b2 [|b3 [|b4 rest]]]]; try discriminate;
    cbn [length] in Hrange; unfold URI.utf8_decode, URI.is_continuation in Hdec;
    revert Hdec; cases_N; intros [= <-].
  all: try (rewrite utf16_encode_unit by lia;
            apply wf_unit; [lia | | constructor];
            unfold is_surrogate, URI.is_high_surrogate, URI.is_low_surrogate;
            cases_N; (reflexivity || lia)).
  unfold URI.utf16_encode. cases_N; [lia |].
  apply wf_pair; [| | constructor];
    unfold URI.is_high_surrogate, URI.is_low_surrogate;
    apply andb_true_intro; split; apply N.leb_le; div_lia.
Qed.

End WellFormed.

Section DecodeWellFormed.
Local Open Scope N_scope.

(** What [decodeURIComponent] makes of an ASCII string is well formed. *)
Lemma Decode_wf_bounded (n : nat) :
  ∀ t s, (length t ≤ n)%nat → Forall (λ c, c < 128) t →
         URI.Decode t = Some s → well_formed s.
Proof.
  induction n as [|n IH]; intros t s Hlen Hascii.
  { destruct t; [| simpl in Hlen; lia]. intros [= <-]. constructor. }
  destruct t as [|c r0]; [intros [= <-]; constructor |].
  apply Forall_cons in Hascii as [Hc Hr0]. simpl in Hlen.
  destruct (N.eq_dec c 37) as [-> | Hpct].
  2:{ rewrite Decode_plain by done.
      destruct (URI.Decode r0) as [s0|] eqn:Hs0; [| discriminate].
      intros [= <-]. apply wf_unit; [lia | apply small_not_surrogate; lia |].
      apply (IH r0); [lia | done | done]. }
  destruct r0 as [|h1 [|h2 r1]]; [discriminate ..|].
  destruct (URI.hexpair h1 h2) as [b0|] eqn:Hb0;
    [| cbn [URI.Decode]; rewrite N.eqb_refl, Hb0; discriminate].
  rewrite (Decode_escape _ _ _ _ Hb0).
  apply Forall_cons in Hr0 as [_ [_ Hr1]%Forall_cons]. simpl in Hlen.
  pose proof (leading_ones_range b0) as Hrange.
  destruct (URI.leading_ones b0) as [|[|[|[|[|k]]]]] eqn:Hones; try discriminate.
  - destruct (URI.Decode r1) as [s1|] eqn:Hs1; [| discriminate].
    intros [= <-]. apply wf_unit; [lia | apply small_not_surrogate; lia |].
    apply (IH r1); [lia | done | done].
  - destruct r1 as [|p1 [|x1 [|y1 r2]]]; try discriminate.
    destruct (URI.escaped_octet p1 x1 y1) as [b1|]; [| discriminate].
    cbn [mbind option_bind].
    destruct (URI.utf8_decode [b0; b1]) as [v|] eqn:Hv; [| discriminate].
    cbn [mbind option_bind].
    destruct (URI.Decode r2) as [s2|] eqn:Hs2; [| discriminate].
    intros [= <-]. apply wf_app.
    + apply (utf8_decode_wf _ _ Hv). by eexists _, _.
    + apply Forall_cons in Hr1 as [_ [_ [_ Hr2]%Forall_cons]%Forall_cons].
      simpl in Hlen. apply (IH r2); [lia | done | done].
  - destruct r1 as [|p1 [|x1 [|y1 [|p2 [|x2 [|y2 r2]]]]]]; try discriminate.
    destruct (URI.escaped_octet p1 x1 y1) as [b1|]; [| discriminate].
    destruct (URI.escaped_octet p2 x2 y2) as [b2|]; [| discriminate].
    cbn [mbind option_bind].
    destruct (URI.utf8_decode [b0; b1; b2]) as [v|] eqn:Hv; [| discriminate].
    cbn [mbind option_bind].
    destruct (URI.Decode r2) as [s2|] eqn:Hs2; [| discriminate].
    intros [= <-]. apply wf_app.
    + apply (utf8_decode_wf _ _ Hv). by eexists _, _.
    + repeat (apply Forall_cons in Hr1 as [_ Hr1]).
      simpl in Hlen. apply (IH r2); [lia | done | done].
  - destruct r1 as [|p1 [|x1 [|y1 [|p2 [|x2 [|y2 [|p3 [|x3 [|y3 r2]]]]]]]]];
      try discriminate.
    destruct (URI.escaped_octet p1 x1 y1) as [b1|]; [| discriminate].
    destruct (URI.escaped_octet p2 x2 y2) as [b2|]; [| discriminate].
    destruct (URI.escaped_octet p3 x3 y3) as [b3|]; [| discriminate].
    cbn [mbind option_bind].
    destruct (URI.utf8_decode [b0; b1; b2; b3]) as [v|] eqn:Hv; [| discriminate].
    cbn [mbind option_bind].
    destruct (URI.Decode r2) as [s2|] eqn:Hs2; [| discriminate].
    intros [= <-]. apply wf_app.
    + apply (utf8_decode_wf _ _ Hv). by eexists _, _.
    + repeat (apply Forall_cons in Hr1 as [_ Hr1]).
      simpl in Hlen. apply (IH r2); [lia | done | done].
Qed.

Lemma decodeURIComponent_wf t s :
  Forall (λ c, c < 128) t → URI.decodeURIComponent t = Some s → well_formed s.
Proof. apply (Decode_wf_bounded (length t)). lia. Qed.

End DecodeWellFormed.

(** ** The parameters of a request are well formed *)

Section ParamsWellFormed.
Local Open Scope N_scope.

Lemma split_Forall (P : N → Prop) sep s :
  Forall P s → Forall (Forall P) (split sep s).
Proof.
  induction 1 as [|c s Hc _ IH]; [by repeat constructor |].
  simpl. destruct (c =? sep); [by constructor |].
  destruct (split sep s) as [|piece pieces]; [by repeat constructor |].
  apply Forall_cons in IH as [Hpiece Hpieces]. by repeat constructor.
Qed.

Lemma split_wf sep s :
  sep < 0xD800 → well_formed s → Forall well_formed (split sep s).
Proof.
  intros Hsep. induction 1 as [| c s Hc Hsur _ IH | hi lo s Hhi Hlo _ IH].
  - repeat constructor.
  - simpl. destruct (c =? sep); [constructor; [constructor | exact IH] |].
    destruct (split sep s) as [|piece pieces].
    + repeat constructor; done.
    + apply Forall_cons in IH as [Hpiece Hpieces].
      constructor; [by apply wf_unit | exact Hpieces].
  - assert (hi ≠ sep ∧ lo ≠ sep) as [Hhs Hls].
    { unfold URI.is_high_surrogate, URI.is_low_surrogate in *.
      apply andb_prop in Hhi as [?%N.leb_le _]. apply andb_prop in Hlo as [?%N.leb_le _].
      lia. }
    apply N.eqb_neq in Hhs, Hls.
    cbn [split]. rewrite Hhs, Hls.
    destruct (split sep s) as [|piece pieces].
    + constructor; [| constructor]. apply wf_pair; [done | done | constructor].
    + apply Forall_cons in IH as [Hpiece Hpieces].
      constructor; [by apply wf_pair | exact Hpieces].
Qed.

Lemma parse_items_wf items :
  Forall (Forall (λ c, c < 128)) items →
  ∀ params : gmap (list N) value,
    map_Forall (λ _ v, wf_value v) params →
    map_Forall (λ _ v, wf_value v) (parse_items items params).1.
Proof.
  induction 1 as [|item items Hitem _ IH]; intros params Hparams; [done |].
  cbn [parse_items].
  destruct (URI.decodeURIComponent item) as [decodedItem|] eqn:Hdec; [| done].
  pose proof (decodeURIComponent_wf _ _ Hitem Hdec) as Hwf.
  pose proof (split_wf 61 decodedItem ltac:(lia) Hwf) as Hkv.
  cbv zeta. destruct (truthy (VStr _)); [| by apply IH].
  apply IH. apply map_Forall_insert_2; [| done].
  destruct (split 61 decodedItem !! 1%nat) as [piece|] eqn:Hpiece; simpl.
  - destruct (negb _); [| apply wf_lit].
    rewrite Forall_lookup in Hkv. by apply (Hkv 1%nat).
  - apply wf_lit.
Qed.

Lemma param_wf request key :
  Forall (λ c, c < 128) (search request) → well_formed (ToString (param request key)).
Proof.
  intros Hascii. unfold param, params_of.
  destruct (_ !! lit key) as [v|] eqn:Hv; [| apply wf_lit].
  assert (Hitems : Forall (Forall (λ c, c < 128))
                     (split 38 (drop 1 (search request))))
    by apply split_Forall, Forall_drop, Hascii.
  apply (parse_items_wf _ Hitems ∅ (map_Forall_empty _) _ _ Hv).
Qed.

End ParamsWellFormed.

(** ** The redirects *)

Lemma returns_only_ret {A} (P : A → Prop) a : P a → returns_only P (mret a).
Proof. by intros HP w a' w' [= <- _]. Qed.

Lemma returns_only_bind_run {A B} (P : B → Prop) (m : M A) (f : A → M B) :
  (∀ w a w1, m w = (Returned a, w1) → ∀ b w', f a w1 = (Returned b, w') → P b) →
  returns_only P (m ≫= f).
Proof. intros Hf w b w' (a & w1 & Ha & Hb)%bind_Returned_inv. eauto. Qed.

Lemma returns_only_bind {A B} (P : B → Prop) (m : M A) (f : A → M B) :
  (∀ a, returns_only P (f a)) → returns_only P (m ≫= f).
Proof. intros Hf. apply returns_only_bind_run. intros w a w1 _. apply Hf. Qed.

Lemma query_of_success q : query_of (success_page ++ lit "?" ++ q) = q.
Proof. reflexivity. Qed.

Lemma query_of_failure q : query_of (failure_page ++ lit "?" ++ q) = q.
Proof. reflexivity. Qed.

(** The round trip of a payload. *)
Lemma encodes_decodes payload q : code_units payload → encodes payload q → decodes q payload.
Proof.
  intros Hunits (encoded & Henc & Hb64). unfold decodes.
  rewrite (atob_btoa _ _ Hb64). simpl.
  by destruct (Encode_spec payload Hunits encoded Henc).
Qed.

(** A well-formed payload is encoded without an exception. *)
Lemma encodes_wf payload : well_formed payload → ∃ q, encodes payload q.
Proof.
  intros Hwf. destruct (encodeURIComponent_wf payload Hwf) as [encoded Henc].
  exists (Base64.encode encoded), encoded. split; [done |].
  apply btoa_latin1.
  destruct (Encode_spec payload (wf_code_units _ Hwf) encoded Henc) as [_ Hascii].
  eapply Forall_impl; [exact Hascii |]. simpl. lia.
Qed.

Section Redirects.
Context `{Environment}.

Lemma encodeInfo_encodes payload w q w' :
  encodeInfo payload w = (Returned q, w') → encodes payload q ∧ w' = w.
Proof.
  unfold encodeInfo, encodes.
  destruct (URI.encodeURIComponent payload) as [encoded|]; [| discriminate].
  destruct (Base64.btoa encoded) as [info|] eqn:Hb64; [| discriminate].
  intros [= <- <-]. split; [| done]. by exists encoded.
Qed.

Lemma encodeInfo_run payload q w :
  encodes payload q → encodeInfo payload w = (Returned q, w).
Proof. intros (encoded & Henc & Hb64). unfold encodeInfo. by rewrite Henc, Hb64. Qed.

Lemma resolveState_no_redirect emailAddr listName :
  returns_only (λ r, match r with inl (Redirect _ _) => False | _ => True end)
    (resolveState emailAddr listName).
Proof.
  unfold resolveState. cbv zeta.
  apply returns_only_bind. intros allLists.
  apply returns_only_bind. intros templates.
  destruct (head (List.filter _ templates)); [| by apply returns_only_ret].
  apply returns_only_bind. intros [contactId exists_]. destruct exists_.
  - apply returns_only_bind. intros contactLists.
    apply returns_only_bind. intros matching.
    destruct (head matching); [by apply returns_only_ret |].
    apply returns_only_bind. intros listId.
    apply returns_only_bind. intros attached. by apply returns_only_ret.
  - apply returns_only_bind. intros added.
    destruct added; [| by apply returns_only_ret].
    apply returns_only_bind. intros listId.
    apply returns_only_bind. intros attached.
    destruct (at_error attached); by apply returns_only_ret.
Qed.

End Redirects.

Section RedirectContract.
Context `{Environment}.

Lemma returns_only_ret_bind {A B} (P : B → Prop) (a : A) (f : A → M B) :
  returns_only P (f a) → returns_only P (mret a ≫= f).
Proof. intros Hf w b w' Hrun. by apply (Hf w b w'). Qed.

Lemma success_contract request q :
  encodes (info_of request) q →
  redirect_contract request (lit "https://48ix.net/subscribe?" ++ q) 301.
Proof.
  intros Henc. split; [done |].
  exists success_page, (info_of request), q.
  split; [reflexivity |]. split; [apply query_of_success |].
  split; [exact Henc | by left].
Qed.

Lemma failure_contract request msg q :
  encodes (info_of request ++ lit "&error=" ++ msg) q →
  redirect_contract request (lit "https://48ix.net/subscribe/failure?" ++ q) 301.
Proof.
  intros Henc. split; [done |].
  exists failure_page, (info_of request ++ lit "&error=" ++ msg), q.
  split; [reflexivity |]. split; [apply query_of_failure |].
  split; [exact Henc | right; eauto].
Qed.

Lemma respond_redirects request response status headers st :
  returns_only (redirects_by_contract request)
    (respond (param request "action") (param request "emailAddr")
       (param request "listName") response status headers st).
Proof.
  unfold respond. cbv zeta. fold (info_of request).
  assert (Hsecond : returns_only (redirects_by_contract request)
    (if onList st && negb (alreadySubscribed st) then
       if strict_eq (param request "action") (str "add") then
         '(confirmationSent, confirmationError) ←
           sendEmail (param request "emailAddr") (t_id (emailTemplate st))
             (param request "listName");
         if truthy confirmationError then
           mret (JsonResponse (ToString confirmationError) 500 headers)
         else if confirmationSent : bool then
           mret (JsonResponse
                   (lit "A confirmation email has been sent to '"
                    ++ ToString (param request "emailAddr") ++ lit "'")
                   200 headers)
         else mret (JsonResponse response status headers)
       else if strict_eq (param request "action") (str "subscribe") then
         listId ← lift (listDetails_id (listDetails st));
         '(subscribed, error) ← subscribeContact (contactId st) listId;
         encodedInfo ← encodeInfo (info_of request);
         if subscribed : bool then
           notifySlack (param request "emailAddr") (param request "listName") VUndef;;
           mret (Redirect (lit "https://48ix.net/subscribe?" ++ encodedInfo) 301)
         else
           encodedInfo ←
             match error with
             | Some err =>
                 encodeInfo (info_of request ++ lit "&error=" ++ message err)
             | None => mret encodedInfo
             end;
           errorMessage ←
             match error with
             | Some err => mret (VStr (message err))
             | None => throw (cannot_read (lit "message") VUndef)
             end;
           notifySlack (param request "emailAddr") (param request "listName")
             errorMessage;;
           mret (Redirect (lit "https://48ix.net/subscribe/failure?" ++ encodedInfo) 301)
       else mret (JsonResponse response status headers)
     else mret (JsonResponse response status headers))).
  { destruct (onList st && negb (alreadySubscribed st)); [| by apply returns_only_ret].
    destruct (strict_eq (param request "action") (str "add")).
    { apply returns_only_bind. intros [sent error].
      destruct (truthy error); [by apply returns_only_ret |].
      destruct sent; by apply returns_only_ret. }
    destruct (strict_eq (param request "action") (str "subscribe"));
      [| by apply returns_only_ret].
    apply returns_only_bind. intros listId.
    apply returns_only_bind. intros [subscribed error].
    apply returns_only_bind_run. intros w encodedInfo w1 [Henc _]%encodeInfo_encodes.
    destruct subscribed.
    { apply returns_only_bind. intros _. apply returns_only_ret.
      by apply success_contract. }
    destruct error as [err|].
    - apply returns_only_bind_run.
      intros w2 encodedInfo' w3 [Henc' _]%encodeInfo_encodes.
      apply returns_only_bind. intros errorMessage.
      apply returns_only_bind. intros _. apply returns_only_ret.
      by eapply failure_contract.
    - apply returns_only_bind. intros encodedInfo'.
      apply returns_only_bind_run. intros w2 errorMessage w3 [=]. }
  destruct (onList st && alreadySubscribed st).
  - destruct (strict_eq (param request "action") (str "add")).
    { apply returns_only_ret_bind. by apply returns_only_ret. }
    destruct (strict_eq (param request "action") (str "subscribe")).
    + intros w r w' (returned & w1 & Hfirst & Hrest)%bind_Returned_inv.
      apply bind_Returned_inv in Hfirst as (q & w2 & [Henc _]%encodeInfo_encodes & Hret).
      injection Hret as <- <-. injection Hrest as <- _.
      by apply success_contract.
    + apply returns_only_ret_bind. exact Hsecond.
  - apply returns_only_ret_bind. exact Hsecond.
Qed.

(** C5: when the resolution finds the contact on the target list with
    subscribed = true and the action is 'subscribe', the handler answers
    with a 301 redirect to the subscribe page whose entire query string,
    base64-decoded and then percent-decoded, is
    'emailAddr={email}&listName={listName}' (the query of an inbound URL
    being ASCII). Every redirect the handler answers with, for any request,
    is a 301 to the subscribe page or to its failure page, with
    [btoa(encodeURIComponent(payload))] as its entire query string, where
    the payload is 'emailAddr={email}&listName={listName}' on the subscribe
    page and the same followed by '&error={message}' on the failure page;
    and decoding such a query string gives the payload back. *)
Theorem redirect_payload_round_trip request w st w' :
  Forall (λ c, (c < 128)%N) (search request) →
  param request "action" = str "subscribe" →
  resolveState (param request "emailAddr") (param request "listName")
    (parsed request w) = (Returned (inr st), w') →
  onList st = true →
  alreadySubscribed st = true →
  (∃ q, handleRequest request w
        = (Returned (Redirect (success_page ++ lit "?" ++ q) 301), w')
        ∧ query_of (success_page ++ lit "?" ++ q) = q
        ∧ decodes q (info_of request))
  ∧ (∀ request0 w0 url status w0',
       handleRequest request0 w0 = (Returned (Redirect url status), w0') →
       redirect_contract request0 url status)
  ∧ (∀ payload q, code_units payload → encodes payload q → decodes q payload).
Proof.
  intros Hascii Haction Hstate HonList Hsub. split; [| split].
  - assert (Hwf : well_formed (info_of request)).
    { unfold info_of. repeat apply wf_app; try apply wf_lit; by apply param_wf. }
    destruct (encodes_wf _ Hwf) as [q Henc]. exists q.
    split; [| split; [apply query_of_success |]].
    + rewrite handleRequest_run, Hstate. unfold respond. cbv zeta.
      rewrite HonList, Hsub, Haction. fold (info_of request).
      change (strict_eq (str "subscribe") (str "add")) with false.
      change (strict_eq (str "subscribe") (str "subscribe")) with true.
      cbv iota. cbn [andb].
      assert (Hfirst :
        (encodedInfo ← encodeInfo (info_of request);
         mret (Some (Redirect (lit "https://48ix.net/subscribe?" ++ encodedInfo) 301)))
          w'
        = (Returned (Some (Redirect (lit "https://48ix.net/subscribe?" ++ q) 301)), w')).
      { by rewrite (bind_Returned _ _ _ _ _ (encodeInfo_run _ q w' Henc)). }
      rewrite (bind_Returned _ _ _ _ _ Hfirst). reflexivity.
    + apply encodes_decodes; [by apply wf_code_units | done].
  - intros request0 w0 url status w0'. rewrite handleRequest_run.
    destruct (resolveState (param request0 "emailAddr") _ _)
      as [[[returned|st0]|e] w1] eqn:Hstate0; cbv beta iota.
    + intros [= -> ->]. by apply resolveState_no_redirect in Hstate0.
    + intros Hrespond. by apply respond_redirects in Hrespond.
    + discriminate.
  - apply encodes_decodes.
Qed.

End RedirectContract.

Lemma redirect_payload_round_trip_witness :
  let env := subscribed_account in
  ∃ st w',
    Forall (λ c, (c < 128)%N) (search subscribe_request)
    ∧ param subscribe_request "action" = str "subscribe"
    ∧ resolveState (param subscribe_request "emailAddr")
        (param subscribe_request "listName")
        (parsed subscribe_request (start env)) = (Returned (inr st), w')
    ∧ onList st = true
    ∧ alreadySubscribed st = true
    ∧ ∃ q, (handleRequest subscribe_request (start env)).1
           = Returned (Redirect (success_page ++ lit "?" ++ q) 301)
           ∧ decodes q (lit "emailAddr=a@b.c&listName=public-announce").
Proof.
  intros env.
  pose (r := resolveState (param subscribe_request "emailAddr")
               (param subscribe_request "listName")
               (parsed subscribe_request (start env))).
  pose (st := match r.1 with
              | Returned (inr st) => st
              | _ => mkLocals None (mkTemplate VUndef VUndef) VUndef false false false
              end).
  assert (Hascii : Forall (λ c, (c < 128)%N) (search subscribe_request))
    by compute_done.
  assert (Haction : param subscribe_request "action" = str "subscribe")
    by (vm_compute; reflexivity).
  assert (Hstate : resolveState (param subscribe_request "emailAddr")
                     (param subscribe_request "listName")
                     (parsed subscribe_request (start env))
                   = (Returned (inr st), r.2)) by (vm_compute; reflexivity).
  assert (HonList : onList st = true) by (vm_compute; reflexivity).
  assert (Hsub : alreadySubscribed st = true) by (vm_compute; reflexivity).
  exists st, r.2.
  destruct (redirect_payload_round_trip (H := env) subscribe_request (start env) st r.2
              Hascii Haction Hstate HonList Hsub) as [(q & Hres & _ & Hdec) _].
  repeat (split; [assumption |]).
  exists q. split; [by rewrite Hres | exact Hdec].
Defined.

(** * More of the worker *)

(** ** What a run of the handler sends *)

Lemma grown_refl h : grown h h.
Proof. exists 0%nat. by rewrite app_nil_r. Qed.

Lemma grown_trans h1 h2 h3 : grown h1 h2 → grown h2 h3 → grown h1 h3.
Proof.
  intros [n ->] [m ->]. exists (n + m)%nat.
  by rewrite replicate_add, app_assoc.
Qed.

Lemma grown_content_type h : grown h (h ++ [content_type_json]).
Proof. by exists 1%nat. Qed.

Lemma effect_refl P w : effect P w w.
Proof. split; [apply grown_refl |]. exists []. by rewrite app_nil_r. Qed.

Lemma effect_trans P x y z :
  antitone P → effect P x y → effect P y z → effect P x z.
Proof.
  intros HP [Hg1 (n1 & Hc1 & Hf1)] [Hg2 (n2 & Hc2 & Hf2)].
  split; [by eapply grown_trans |].
  exists (n1 ++ n2). split; [by rewrite Hc2, Hc1, app_assoc |].
  apply Forall_app. split; [done |].
  eapply Forall_impl; [exact Hf2 |]. intros rq. by apply HP.
Qed.

Lemma quiet_effect P x y : quiet x y → effect P x y.
Proof.
  intros [Hh Hc]. split; [rewrite Hh; apply grown_refl |]. by exists [].
Qed.

Lemma effect_of_quiet {A} P (m : M A) : stable quiet m → stable (effect P) m.
Proof. intros Hm w. apply quiet_effect, Hm. Qed.

Lemma effect_bind {A B} P (m : M A) (f : A → M B) :
  antitone P → stable (effect P) m → (∀ a, stable (effect P) (f a)) →
  stable (effect P) (m ≫= f).
Proof.
  intros HP Hm Hf. eapply stable_bind; [exact Hm | exact Hf | auto |].
  intros x y z. by apply effect_trans.
Qed.

Lemma effect_try_catch {A} P (body : M A) (handler : exn → M A) :
  antitone P → stable (effect P) body → (∀ e, stable (effect P) (handler e)) →
  stable (effect P) (try_catch body handler).
Proof.
  intros HP Hb Hh. eapply stable_try_catch; [exact Hb | exact Hh | auto |].
  intros x y z. by apply effect_trans.
Qed.

Section ClientEffects.
Context `{Environment}.

Lemma Client_get_effect P url :
  (∀ h encoded, URI.encodeURI url = Some encoded → P h (mkRequest GET encoded h None)) →
  stable (effect P) (Client_get url).
Proof.
  intros HP w. destruct (URI.encodeURI url) as [encoded|] eqn:Henc.
  - destruct (Client_get_issues url encoded Henc w) as [Hh Hc].
    split; [rewrite Hh; apply grown_refl |].
    eexists. split; [exact Hc |]. constructor; [by apply HP | constructor].
  - apply quiet_effect. by apply Client_get_malformed.
Qed.

Lemma Client_post_effect P url data :
  (∀ h, P h (mkRequest POST url (h ++ [content_type_json]) (body_of data))) →
  stable (effect P) (Client_post url data).
Proof.
  intros HP w. rewrite Client_post_run. cbv zeta.
  assert (Hsent : effect P w
            (sent (with_content_type w)
               (mkRequest POST url (Fetch_headers (with_content_type w)) (body_of data)))).
  { split; [apply grown_content_type |].
    eexists. split; [reflexivity |]. constructor; [apply HP | constructor]. }
  destruct (remote _ _) as [r|e]; [| exact Hsent].
  destruct (check_ok_quiet r (sent (with_content_type w)
              (mkRequest POST url (Fetch_headers (with_content_type w)) (body_of data))))
    as [Hh Hc].
  destruct Hsent as [Hg (new & Hnew & Hall)].
  split; [by rewrite Hh |]. exists new. split; [| done].
  by rewrite Hc, app_nil_r.
Qed.

Lemma Client_put_effect P url data :
  (∀ h, P h (mkRequest PUT url (h ++ [content_type_json]) (body_of data))) →
  stable (effect P) (Client_put url data).
Proof.
  intros HP w. rewrite Client_put_run. cbv zeta.
  assert (Hsent : effect P w
            (sent (with_content_type w)
               (mkRequest PUT url (Fetch_headers (with_content_type w)) (body_of data)))).
  { split; [apply grown_content_type |].
    eexists. split; [reflexivity |]. constructor; [apply HP | constructor]. }
  destruct (remote _ _) as [r|e]; [| exact Hsent].
  destruct (check_ok_quiet r (sent (with_content_type w)
              (mkRequest PUT url (Fetch_headers (with_content_type w)) (body_of data))))
    as [Hh Hc].
  destruct Hsent as [Hg (new & Hnew & Hall)].
  split; [by rewrite Hh |]. exists new. split; [| done].
  by rewrite Hc, app_nil_r.
Qed.

Lemma notifySlack_effect P emailAddr listName errorMsg :
  (∀ h, P h (mkRequest POST SLACK_URL [content_type_json]
               (Some (makeMessage emailAddr listName errorMsg)))) →
  stable (effect P) (notifySlack emailAddr listName errorMsg).
Proof.
  intros HP w.
  assert (Hs : stable (sends [mkRequest POST SLACK_URL [content_type_json]
                                (Some (makeMessage emailAddr listName errorMsg))])
                 (notifySlack emailAddr listName errorMsg)).
  { unfold notifySlack.
    apply stable_try_catch_quiet; [intros x y z; apply sends_quiet | | intros; quiet].
    apply stable_bind_quiet; [intros x y z; apply sends_quiet | | intros; quiet].
    apply fetch_sends. }
  destruct (Hs w) as [Hh Hc]. split; [rewrite Hh; apply grown_refl |].
  eexists. split; [exact Hc |]. constructor; [apply HP | constructor].
Qed.

End ClientEffects.

(** Splits a goal [stable (effect P) m] along the structure of [m]; the
    leaves that send something are left to the caller. *)
Ltac effect_step HP :=
  match goal with
  | |- stable (effect _) _ => solve [apply effect_of_quiet; quiet]
  | |- stable (effect _) (_ ≫= _) => apply effect_bind; [exact HP | | intros ?]
  | |- stable (effect _) (try_catch _ _) =>
      apply effect_try_catch; [exact HP | | intros ?]
  | |- stable (effect _) (if ?b then _ else _) => destruct b
  | |- stable (effect _) (match ?o with Some _ => _ | None => _ end) => destruct o
  | |- stable (effect _) (let '(_, _) := ?p in _) => destruct p
  | |- stable (effect _) (Client_get _) => apply Client_get_effect
  | |- stable (effect _) (Client_post _ _) => apply Client_post_effect
  | |- stable (effect _) (Client_put _ _) => apply Client_put_effect
  | |- stable (effect _) (notifySlack _ _ _) => apply notifySlack_effect
  end.
Ltac effects HP := repeat effect_step HP.

Lemma worker_request_antitone `{Environment} request : antitone (worker_request request).
Proof.
  intros h h' rq Hg Hrq.
  destruct Hrq;
    [eapply wr_lookup | eapply wr_create | eapply wr_attach | eapply wr_send
     | eapply wr_recipients | eapply wr_subscribe | eapply wr_slack];
    eauto using grown_trans.
Qed.

Section HandlerEffects.
Context `{Environment}.
Variable request : InboundRequest.
Variable P : list header → Request → Prop.

Hypothesis P_antitone : antitone P.
Hypothesis P_lookup : ∀ h url encoded,
  url ∈ lookup_urls (param request "emailAddr") →
  URI.encodeURI url = Some encoded → P h (mkRequest GET encoded h None).
Hypothesis P_create : ∀ h,
  P h (mkRequest POST MJ_CONTACT (h ++ [content_type_json])
         (Some (create_body (param request "emailAddr")))).
Hypothesis P_attach : ∀ h listId,
  P h (mkRequest POST MJ_ADD_CONTACT (h ++ [content_type_json])
         (Some (attach_body listId (param request "emailAddr")))).
Hypothesis P_send : param request "action" = str "add" → ∀ h templateId,
  P h (mkRequest POST MJ_SEND (h ++ [content_type_json])
         (Some (send_body (param request "emailAddr") templateId
                  (param request "listName")))).
Hypothesis P_recipients : param request "action" = str "subscribe" → ∀ h,
  P h (mkRequest GET MJ_LIST_RECIPIENT h None).
Hypothesis P_subscribe : param request "action" = str "subscribe" → ∀ h recipientId,
  P h (mkRequest PUT (MJ_LIST_RECIPIENT ++ lit "/" ++ ToString recipientId)
         (h ++ [content_type_json]) (Some subscribe_body)).
Hypothesis P_slack : param request "action" = str "subscribe" → ∀ h errorMsg,
  P h (mkRequest POST SLACK_URL [content_type_json]
         (Some (makeMessage (param request "emailAddr")
                  (param request "listName") errorMsg))).

Lemma resolveState_effect :
  stable (effect P)
    (resolveState (param request "emailAddr") (param request "listName")).
Proof using P_antitone P_lookup P_create P_attach.
  unfold resolveState, getAllContactLists, getTemplates, getContact,
    getContactLists, addContact, addContactToList. cbv zeta.
  effects P_antitone;
    try (intros h encoded Henc; eapply P_lookup; [| exact Henc];
         unfold lookup_urls; rewrite !elem_of_cons; auto 6);
    try (intros h; apply P_create);
    try (intros h; apply P_attach).
Qed.

Lemma respond_effect response status headers st :
  stable (effect P)
    (respond (param request "action") (param request "emailAddr")
       (param request "listName") response status headers st).
Proof using P_antitone P_send P_recipients P_subscribe P_slack.
  unfold respond, encodeInfo, sendEmail, subscribeContact, getRecipient. cbv zeta.
  destruct (strict_eq (param request "action") (str "add")) eqn:Hadd;
    destruct (strict_eq (param request "action") (str "subscribe")) eqn:Hsub;
    try apply strict_eq_VStr in Hadd; try apply strict_eq_VStr in Hsub;
    cbv beta iota; effects P_antitone;
    try (intros h; by apply P_send);
    try (intros h; by apply P_subscribe);
    try (intros h; by apply P_slack);
    try (intros h encoded [= <-]; by apply P_recipients).
Qed.

Lemma handleRequest_effect : stable (effect P) (handleRequest request).
Proof using All.
  intros w. rewrite handleRequest_run.
  pose proof (quiet_effect P _ _ (parsed_quiet request w)) as Hparse.
  pose proof (resolveState_effect (parsed request w)) as Hstate.
  destruct (resolveState _ _ (parsed request w)) as [[[returned|st]|e] w1];
    simpl in Hstate; cbv beta iota.
  - by eapply effect_trans.
  - eapply effect_trans; [done | by eapply effect_trans |].
    apply respond_effect.
  - by eapply effect_trans.
Qed.

End HandlerEffects.

Lemma sent_by_new {A} (m : M A) w new :
  calls (m w).2 = calls w ++ new → sent_by m w = new.
Proof. intros Hc. unfold sent_by. by rewrite Hc, drop_app_length. Qed.

Lemma effect_sent_by {A} P (m : M A) w :
  stable (effect P) m →
  grown (Fetch_headers w) (Fetch_headers (m w).2)
  ∧ calls (m w).2 = calls w ++ sent_by m w
  ∧ Forall (P (Fetch_headers w)) (sent_by m w).
Proof.
  intros Hm. destruct (Hm w) as [Hg (new & Hc & Hall)].
  rewrite (sent_by_new m w new Hc). by repeat split.
Qed.

Lemma handleRequest_worker_requests `{Environment} request :
  stable (effect (worker_request request)) (handleRequest request).
Proof.
  apply handleRequest_effect.
  - apply worker_request_antitone.
  - intros h url encoded Hurl Henc. eapply wr_lookup; eauto using grown_refl.
  - intros h. apply wr_create, grown_refl.
  - intros h listId. apply wr_attach, grown_refl.
  - intros Hadd h templateId. apply wr_send; [done | apply grown_refl].
  - intros Hsub h. apply wr_recipients; [done | apply grown_refl].
  - intros Hsub h recipientId. apply wr_subscribe; [done | apply grown_refl].
  - intros Hsub h errorMsg. by apply wr_slack.
Qed.

(** X1: whatever the remote answers, the requests a run of the handler
    sends are, in some order, lookups of the contact lists, the templates,
    the contact and its memberships; the creation of the contact and its
    attachment to a list, always with IsUnsubscribed true; for the action
    'add' the confirmation email; for the action 'subscribe' the recipient
    listing, the PUT with IsUnsubscribed false and the Slack notification.
    During the run the client's header object only grows, by Content-Type
    entries. *)
Theorem handleRequest_requests `{Environment} request w :
  grown (Fetch_headers w) (Fetch_headers (handleRequest request w).2)
  ∧ calls (handleRequest request w).2 = calls w ++ sent_by (handleRequest request) w
  ∧ Forall (worker_request request (Fetch_headers w))
      (sent_by (handleRequest request) w).
Proof. apply effect_sent_by, handleRequest_worker_requests. Qed.

Section Guards.
Context `{Environment}.

Lemma makeMessage_attachments emailAddr listName errorMsg :
  ∃ attachments,
    makeMessage emailAddr listName errorMsg = VObj [(lit "attachments", attachments)].
Proof. unfold makeMessage. destruct (truthy errorMsg); by eexists. Qed.

Lemma worker_request_notification request h rq :
  worker_request request h rq → is_notification rq →
  param request "action" = str "subscribe".
Proof.
  intros Hrq (e & l & err & ->).
  destruct (makeMessage_attachments e l err) as [a Ha]. rewrite Ha in Hrq.
  inversion Hrq; subst; try done.
Qed.

Lemma worker_request_PUT request h rq :
  worker_request request h rq → rq_method rq = PUT →
  param request "action" = str "subscribe".
Proof. by destruct 1. Qed.

Lemma worker_request_confirmation request h rq :
  worker_request request h rq → is_confirmation_email rq →
  param request "action" = str "add".
Proof.
  intros Hrq (e & t & l & Hbody). destruct Hrq; simpl in Hbody; try done.
  destruct (makeMessage_attachments (param request "emailAddr")
              (param request "listName") errorMsg) as [a Ha].
  rewrite Ha in Hbody. done.
Qed.

(** X2: unless the action is 'subscribe', a run of the handler sends no PUT
    (no subscription is finalised) and no Slack notification. *)
Theorem no_subscription_without_subscribe request w :
  param request "action" ≠ str "subscribe" →
  Forall (λ rq, rq_method rq ≠ PUT ∧ ¬ is_notification rq)
    (sent_by (handleRequest request) w).
Proof.
  intros Haction.
  destruct (effect_sent_by _ _ w (handleRequest_worker_requests request))
    as (_ & _ & Hall).
  eapply Forall_impl; [exact Hall |]. intros rq Hrq. split.
  - intros Hput. by apply Haction, (worker_request_PUT _ _ _ Hrq).
  - intros Hnote. by apply Haction, (worker_request_notification _ _ _ Hrq).
Qed.

(** X3: unless the action is 'add', a run of the handler sends no
    confirmation email. *)
Theorem no_confirmation_without_add request w :
  param request "action" ≠ str "add" →
  Forall (λ rq, ¬ is_confirmation_email rq) (sent_by (handleRequest request) w).
Proof.
  intros Haction.
  destruct (effect_sent_by _ _ w (handleRequest_worker_requests request))
    as (_ & _ & Hall).
  eapply Forall_impl; [exact Hall |]. intros rq Hrq Hmail.
  by apply Haction, (worker_request_confirmation _ _ _ Hrq).
Qed.


End Guards.

Lemma no_subscription_without_subscribe_witness :
  let env := open_account in
  param actionless_request "action" ≠ str "subscribe"
  ∧ Forall (λ rq, rq_method rq ≠ PUT ∧ ¬ is_notification rq)
      (sent_by (handleRequest actionless_request) (start env))
  ∧ length (sent_by (handleRequest actionless_request) (start env)) = 5%nat.
Proof.
  intros env.
  assert (Haction : param actionless_request "action" ≠ str "subscribe")
    by (vm_compute; discriminate).
  split; [exact Haction |]. split; [| vm_compute; reflexivity].
  exact (no_subscription_without_subscribe (H := env) actionless_request (start env)
           Haction).
Defined.

Lemma no_confirmation_without_add_witness :
  let env := subscribed_account in
  param subscribe_request "action" ≠ str "add"
  ∧ Forall (λ rq, ¬ is_confirmation_email rq)
      (sent_by (handleRequest subscribe_request) (start env))
  ∧ length (sent_by (handleRequest subscribe_request) (start env)) = 4%nat.
Proof.
  intros env.
  assert (Haction : param subscribe_request "action" ≠ str "add")
    by (vm_compute; discriminate).
  split; [exact Haction |]. split; [| vm_compute; reflexivity].
  exact (no_confirmation_without_add (H := env) subscribe_request (start env) Haction).
Defined.

(** ** parseUrl *)

Section Split.
Local Open Scope N_scope.

Lemma split_notin sep s : sep ∉ s → split sep s = [s].
Proof.
  induction s as [|c s IH]; [done |].
  intros [Hc Hs]%not_elem_of_cons. cbn [split].
  apply not_eq_sym in Hc. apply N.eqb_neq in Hc. rewrite Hc. by rewrite IH.
Qed.

Lemma split_app sep a b :
  sep ∉ a → split sep (a ++ sep :: b) = a :: split sep b.
Proof.
  induction a as [|c a IH].
  - intros _. cbn [app split]. by rewrite N.eqb_refl.
  - intros [Hc Ha]%not_elem_of_cons. cbn [app split].
    apply not_eq_sym in Hc. apply N.eqb_neq in Hc. rewrite Hc. by rewrite IH.
Qed.

Lemma Decode_plain_app k t :
  37 ∉ k → URI.Decode (k ++ t) = (k ++.) <$> URI.Decode t.
Proof.
  induction k as [|c k IH].
  - intros _. simpl. by destruct (URI.Decode t).
  - intros [Hc Hk]%not_elem_of_cons. cbn [app].
    rewrite Decode_plain by (by apply not_eq_sym). rewrite IH by done.
    by destruct (URI.Decode t).
Qed.

Lemma hexdigit_no_separator n : URI.hexdigit n ≠ 38 ∧ URI.hexdigit n ≠ 61.
Proof. unfold URI.hexdigit. cases_N; lia. Qed.

Lemma pct_utf8_no_separator cp : Forall (λ c, c ≠ 38 ∧ c ≠ 61) (URI.pct_utf8 cp).
Proof.
  unfold URI.pct_utf8. induction (URI.utf8_encode cp) as [|b l IH]; [constructor |].
  cbn [fmap list_fmap concat]. unfold URI.pct at 1. cbn [app].
  repeat (constructor; [try apply hexdigit_no_separator; lia |]). exact IH.
Qed.

Lemma uriUnescaped_no_separator c : URI.uriUnescaped c = true → c ≠ 38 ∧ c ≠ 61.
Proof.
  unfold URI.uriUnescaped, URI.member. rewrite existsb_exists.
  intros (x & Hx & ->%N.eqb_eq).
  assert (Hall : Forall (λ x, x ≠ 38 ∧ x ≠ 61)
                   (URI.uriAlpha ++ URI.DecimalDigit ++ URI.uriMark)).
  { compute_done. }
  rewrite Forall_forall in Hall. by apply Hall, list_elem_of_In.
Qed.

(** [encodeURIComponent] escapes '&' and '='. *)
Lemma encodeURIComponent_no_separator s :
  ∀ encoded, URI.encodeURIComponent s = Some encoded →
             Forall (λ c, c ≠ 38 ∧ c ≠ 61) encoded.
Proof.
  unfold URI.encodeURIComponent.
  induction s as [| a | a b r IHr IHbr] using list_ind2; intros encoded.
  - intros [= <-]. constructor.
  - cbn [URI.Encode].
    destruct (URI.uriUnescaped a) eqn:Hu.
    { intros [= <-]. constructor; [by apply uriUnescaped_no_separator | constructor]. }
    destruct (URI.is_low_surrogate a); [discriminate |].
    destruct (URI.is_high_surrogate a); [discriminate |].
    intros [= <-]. rewrite app_nil_r. apply pct_utf8_no_separator.
  - rewrite Encode_cons.
    destruct (URI.uriUnescaped a) eqn:Hu.
    { destruct (URI.Encode URI.uriUnescaped (b :: r)) as [e|]; [| simpl; discriminate].
      simpl; intros [= <-].
      constructor; [by apply uriUnescaped_no_separator | by apply IHbr]. }
    destruct (URI.is_low_surrogate a); [discriminate |].
    destruct (URI.is_high_surrogate a).
    + destruct (URI.is_low_surrogate b); [| discriminate].
      destruct (URI.Encode URI.uriUnescaped r) as [e|]; [| simpl; discriminate].
      simpl; intros [= <-]. apply Forall_app.
      split; [apply pct_utf8_no_separator | by apply IHr].
    + destruct (URI.Encode URI.uriUnescaped (b :: r)) as [e|]; [| simpl; discriminate].
      simpl; intros [= <-]. apply Forall_app.
      split; [apply pct_utf8_no_separator | by apply IHbr].
Qed.

Lemma Forall_notin (P : N → Prop) c s : Forall P s → ¬ P c → c ∉ s.
Proof. rewrite Forall_forall. intros Hall Hc Hin. by apply Hc, Hall. Qed.

End Split.

Section ParseItems.
Local Open Scope N_scope.

Lemma parse_items_app a b params :
  parse_items (a ++ b) params =
  match parse_items a params with
  | (params', None) => parse_items b params'
  | (params', Some err) => (params', Some err)
  end.
Proof.
  revert params. induction a as [|item a IH]; intros params; [done |].
  cbn [app parse_items]. destruct (URI.decodeURIComponent item); [| done].
  destruct (truthy _); apply IH.
Qed.

(** One round of the [forEach] on an item that decodes to [key], [key=] or
    [key=value], with or without more after a second '='. *)
Lemma parse_items_binding item k v tail rest params :
  URI.decodeURIComponent item = Some (k ++ tail) →
  k ≠ [] → 61 ∉ k →
  (tail = [] ∧ v = VBool true)
  ∨ (∃ s more, tail = 61 :: s ++ more ∧ (61 ∉ s) ∧ (more = [] ∨ ∃ junk, more = 61 :: junk)
               ∧ v = if bool_decide (s = []) then VBool true else VStr s) →
  parse_items (item :: rest) params = parse_items rest (<[k := v]> params).
Proof.
  intros Hdec Hk Hsep Htail. cbn [parse_items]. rewrite Hdec.
  assert (Hsplit : ∃ pieces,
             split 61 (k ++ tail) = k :: pieces
             ∧ (let kv1 := from_option VStr VUndef (pieces !! 0%nat) in
                if truthy kv1 then kv1 else VBool true) = v).
  { destruct Htail as [[-> ->] | (s & more & -> & Hs & Hmore & ->)].
    - exists []. rewrite app_nil_r, split_notin by done. done.
    - rewrite split_app by done. destruct Hmore as [-> | [junk ->]].
      + rewrite app_nil_r, split_notin by done. eexists; split; [done |].
        cbn. by destruct s.
      + rewrite split_app by done. eexists; split; [done |].
        cbn. by destruct s. }
  destruct Hsplit as (pieces & -> & Hv). cbv zeta in Hv.
  change ((k :: pieces) !! 0%nat) with (Some k).
  change ((k :: pieces) !! 1%nat) with (pieces !! 0%nat).
  cbn [default]. rewrite Hv. by destruct k.
Qed.

End ParseItems.

Section ParseUrl.
Local Open Scope N_scope.

Lemma parse_items_error items params err :
  (parse_items items params).2 = Some err → err = URI_malformed.
Proof.
  revert params. induction items as [|item items IH]; intros params; [done |].
  cbn [parse_items]. destruct (URI.decodeURIComponent item).
  - destruct (truthy _); apply IH.
  - by intros [= <-].
Qed.

(** X5: an item that [decodeURIComponent] rejects ends the parse: the
    URIError is caught and logged, not thrown, and [parseUrl] returns the
    parameters of the items before it; the items after it are not read. *)
Theorem parseUrl_stops_at_malformed request good bad rest w :
  split 38 (drop 1 (search request)) = good ++ bad :: rest →
  URI.decodeURIComponent bad = None →
  parseUrl request w
  = (Returned (parse_items good ∅).1, logged Err URI_malformed w).
Proof.
  intros Hitems Hbad. unfold parseUrl. rewrite Hitems, parse_items_app.
  destruct (parse_items good ∅) as [params [err|]] eqn:Hgood.
  - assert (err = URI_malformed) as ->
      by (apply (parse_items_error good ∅); by rewrite Hgood).
    reflexivity.
  - cbn [parse_items]. rewrite Hbad. reflexivity.
Qed.

(** X6: a key without a value, or with an empty one, is bound to [true]. *)
Theorem parseUrl_flag item k rest params :
  stored_key k →
  URI.decodeURIComponent item = Some k
  ∨ URI.decodeURIComponent item = Some (k ++ lit "=") →
  parse_items (item :: rest) params = parse_items rest (<[k := VBool true]> params).
Proof.
  intros (Hk & Hsep & _) [Hdec | Hdec].
  - apply (parse_items_binding item k (VBool true) [] rest params); auto.
    by rewrite app_nil_r.
  - apply (parse_items_binding item k (VBool true) (lit "=") rest params); auto.
    right. exists [], []. repeat split; auto. apply not_elem_of_nil.
Qed.

(** X7: the item is decoded before it is split on '=', and only the first
    two pieces are read: the value of a key ends at the next '=', escaped
    in the query or not, and what follows is dropped. *)
Theorem parseUrl_value_ends_at_equals item k v junk rest params :
  stored_key k → v ≠ [] → 61 ∉ v →
  URI.decodeURIComponent item = Some (k ++ lit "=" ++ v ++ lit "=" ++ junk) →
  parse_items (item :: rest) params = parse_items rest (<[k := VStr v]> params).
Proof.
  intros (Hk & Hsep & _) Hv Hvsep Hdec.
  apply (parse_items_binding item k (VStr v) (lit "=" ++ v ++ lit "=" ++ junk)
           rest params); auto.
  right. exists v, (lit "=" ++ junk). repeat split; eauto.
  by rewrite bool_decide_eq_false_2.
Qed.

Lemma parse_items_step item rest params :
  parse_items (item :: rest) params =
  match URI.decodeURIComponent item with
  | Some _ => parse_items rest (parse_items [item] params).1
  | None => (params, Some URI_malformed)
  end.
Proof.
  cbn [parse_items]. destruct (URI.decodeURIComponent item); [| done].
  by destruct (truthy _).
Qed.

Lemma parse_item_lookup item params k :
  (parse_items [item] params).1 !! k =
  match (parse_items [item] ∅).1 !! k with
  | Some v => Some v
  | None => params !! k
  end.
Proof.
  cbn [parse_items]. destruct (URI.decodeURIComponent item); [| done].
  destruct (truthy _); [| done]. cbn [fst].
  match goal with |- <[?key := _]> _ !! _ = _ => destruct (decide (key = k)) as [->|Hne] end.
  - by rewrite !lookup_insert_eq.
  - by rewrite !lookup_insert_ne.
Qed.

Lemma parse_items_unbound items k :
  Forall (λ item, (parse_items [item] ∅).1 !! k = None) items →
  ∀ params, (parse_items items params).1 !! k = params !! k.
Proof.
  induction 1 as [|item items Hitem _ IH]; intros params; [done |].
  rewrite parse_items_step. destruct (URI.decodeURIComponent item); [| done].
  by rewrite IH, parse_item_lookup, Hitem.
Qed.

(** X8: of the items that bind a key, the last one wins: when the items
    before it decode, [parseUrl] binds the key to the value of that item,
    whatever was bound to the key before. *)
Theorem parseUrl_last_wins before item later params k v :
  stored_key k →
  (parse_items before params).2 = None →
  (parse_items [item] ∅).1 !! k = Some v →
  Forall (λ other, (parse_items [other] ∅).1 !! k = None) later →
  (parse_items (before ++ item :: later) params).1 !! k = Some v.
Proof.
  intros _ Hbefore Hitem Hlater. rewrite parse_items_app.
  destruct (parse_items before params) as [params' [err|]]; [done |].
  rewrite parse_items_step.
  destruct (URI.decodeURIComponent item) eqn:Hdec.
  - by rewrite (parse_items_unbound later k Hlater), parse_item_lookup, Hitem.
  - cbn [parse_items] in Hitem. by rewrite Hdec in Hitem.
Qed.

Lemma parse_items_round_trip k v e rest params :
  plain_key k → plain_value v → URI.encodeURIComponent v = Some e →
  parse_items ((k ++ lit "=" ++ e) :: rest) params
  = parse_items rest (<[k := VStr v]> params).
Proof.
  intros (Hk & Hpct & Hsep) (Hunits & Hv & Hvsep) Henc.
  destruct (Encode_spec v Hunits e Henc) as [Hdec _].
  apply (parse_items_binding _ k (VStr v) (lit "=" ++ v)); auto.
  - unfold URI.decodeURIComponent in *.
    rewrite Decode_plain_app by done.
    change (lit "=" ++ e) with (61 :: e). rewrite Decode_plain by done.
    by rewrite Hdec.
  - right. exists v, []. rewrite app_nil_r. repeat split; auto.
    by rewrite bool_decide_eq_false_2.
Qed.

Lemma item_no_ampersand k e :
  38 ∉ k → URI.encodeURIComponent e ≠ None →
  ∀ encoded, URI.encodeURIComponent e = Some encoded → 38 ∉ k ++ lit "=" ++ encoded.
Proof.
  intros Hk _ encoded Henc.
  rewrite !not_elem_of_app. repeat split; [done | compute_done |].
  eapply Forall_notin; [exact (encodeURIComponent_no_separator e encoded Henc) |].
  simpl. tauto.
Qed.

(** X9: what a client encodes with [encodeURIComponent], the handler reads
    back: for values that are well formed, not empty and without '=', and
    the search component [?action=..&emailAddr=..&listName=..] built from
    their encodings, the three parameters are the three values, as
    strings. *)
Theorem parseUrl_round_trip action emailAddr listName query :
  plain_value action → plain_value emailAddr → plain_value listName →
  subscription_query action emailAddr listName = Some query →
  param (mkInbound query) "action" = VStr action
  ∧ param (mkInbound query) "emailAddr" = VStr emailAddr
  ∧ param (mkInbound query) "listName" = VStr listName.
Proof.
  intros Ha He Hl. unfold subscription_query.
  destruct (URI.encodeURIComponent action) as [a|] eqn:Henca; [| done].
  destruct (URI.encodeURIComponent emailAddr) as [e|] eqn:Hence; [| done].
  destruct (URI.encodeURIComponent listName) as [l|] eqn:Hencl; [| done].
  cbn [mbind option_bind]. intros Hquery.
  apply (inj Some) in Hquery. subst query.
  assert (Hitems :
    split 38 (drop 1
      (lit "?" ++ lit "action" ++ lit "=" ++ a
       ++ lit "&" ++ lit "emailAddr" ++ lit "=" ++ e
       ++ lit "&" ++ lit "listName" ++ lit "=" ++ l))
    = [lit "action" ++ lit "=" ++ a; lit "emailAddr" ++ lit "=" ++ e;
       lit "listName" ++ lit "=" ++ l]).
  { change (lit "?") with [63]. cbn [app drop].
    change (drop 0 ?x) with x.
    rewrite (app_assoc (lit "action")), (app_assoc (lit "action" ++ lit "=")).
    change (lit "&" ++ ?x) with (38 :: x).
    rewrite split_app
      by (rewrite <- app_assoc; by eapply (item_no_ampersand _ action); [compute_done | congruence |]).
    rewrite (app_assoc (lit "emailAddr")), (app_assoc (lit "emailAddr" ++ lit "=")).
    change (lit "&" ++ ?x) with (38 :: x).
    rewrite split_app
      by (rewrite <- app_assoc; by eapply (item_no_ampersand _ emailAddr); [compute_done | congruence |]).
    rewrite split_notin
      by (by eapply (item_no_ampersand _ listName); [compute_done | congruence |]).
    by rewrite <- !app_assoc. }
  unfold param, params_of. cbn [search]. rewrite Hitems.
  rewrite (parse_items_round_trip (lit "action") action a)
    by (done || (repeat split; [done | compute_done | compute_done])).
  rewrite (parse_items_round_trip (lit "emailAddr") emailAddr e)
    by (done || (repeat split; [done | compute_done | compute_done])).
  rewrite (parse_items_round_trip (lit "listName") listName l)
    by (done || (repeat split; [done | compute_done | compute_done])).
  cbn [parse_items fst].
  by split; [| split].
Qed.

End ParseUrl.

Lemma parseUrl_stops_at_malformed_witness :
  let request := mkInbound (lit "?action=add&emailAddr=%&listName=public") in
  let good := [lit "action=add"] in
  let bad := lit "emailAddr=%" in
  let rest := [lit "listName=public"] in
  let w := mkWorld [] [] [] in
  split 38 (drop 1 (search request)) = good ++ bad :: rest
  ∧ URI.decodeURIComponent bad = None
  ∧ parseUrl request w
    = (Returned (parse_items good ∅).1, logged Err URI_malformed w)
  ∧ param request "action" = str "add"
  ∧ param request "listName" = VUndef.
Proof.
  intros request good bad rest w.
  assert (Hitems : split 38 (drop 1 (search request)) = good ++ bad :: rest)
    by (vm_compute; reflexivity).
  assert (Hbad : URI.decodeURIComponent bad = None) by (vm_compute; reflexivity).
  split; [exact Hitems |]. split; [exact Hbad |].
  split; [exact (parseUrl_stops_at_malformed request good bad rest w Hitems Hbad) |].
  split; vm_compute; reflexivity.
Defined.

Lemma parseUrl_flag_witness :
  let item := lit "confirm" in
  let k := lit "confirm" in
  stored_key k
  ∧ (URI.decodeURIComponent item = Some k
     ∨ URI.decodeURIComponent item = Some (k ++ lit "="))
  ∧ parse_items [item] ∅ = parse_items [] (<[k := VBool true]> ∅).
Proof.
  intros item k.
  assert (Hk : stored_key k) by (split; [| split]; compute_done).
  assert (Hdec : URI.decodeURIComponent item = Some k
                 ∨ URI.decodeURIComponent item = Some (k ++ lit "="))
    by (left; vm_compute; reflexivity).
  split; [exact Hk |]. split; [exact Hdec |].
  exact (parseUrl_flag item k [] ∅ Hk Hdec).
Defined.

Lemma parseUrl_value_ends_at_equals_witness :
  let item := lit "emailAddr=a%3Db%40c.d" in
  let k := lit "emailAddr" in
  let v := lit "a" in
  let junk := lit "b@c.d" in
  stored_key k ∧ v ≠ [] ∧ (61%N ∉ v)
  ∧ URI.decodeURIComponent item = Some (k ++ lit "=" ++ v ++ lit "=" ++ junk)
  ∧ parse_items [item] ∅ = parse_items [] (<[k := VStr v]> ∅).
Proof.
  intros item k v junk.
  assert (Hk : stored_key k) by (split; [| split]; compute_done).
  assert (Hv : v ≠ []) by compute_done.
  assert (Hsep : 61%N ∉ v) by compute_done.
  assert (Hdec : URI.decodeURIComponent item
                 = Some (k ++ lit "=" ++ v ++ lit "=" ++ junk))
    by (vm_compute; reflexivity).
  split; [exact Hk |]. split; [exact Hv |]. split; [exact Hsep |].
  split; [exact Hdec |].
  exact (parseUrl_value_ends_at_equals item k v junk [] ∅ Hk Hv Hsep Hdec).
Defined.

Lemma parseUrl_last_wins_witness :
  let before := [lit "listName=a"] in
  let item := lit "listName=b" in
  let later := [lit "action=add"] in
  let k := lit "listName" in
  stored_key k
  ∧ (parse_items before ∅).2 = None
  ∧ (parse_items [item] ∅).1 !! k = Some (str "b")
  ∧ Forall (λ other, (parse_items [other] ∅).1 !! k = None) later
  ∧ (parse_items (before ++ item :: later) ∅).1 !! k = Some (str "b").
Proof.
  intros before item later k.
  assert (Hk : stored_key k) by (split; [| split]; compute_done).
  assert (Hbefore : (parse_items before ∅).2 = None) by (vm_compute; reflexivity).
  assert (Hitem : (parse_items [item] ∅).1 !! k = Some (str "b"))
    by (vm_compute; reflexivity).
  assert (Hlater : Forall (λ other, (parse_items [other] ∅).1 !! k = None) later)
    by (repeat constructor).
  split; [exact Hk |]. split; [exact Hbefore |]. split; [exact Hitem |].
  split; [exact Hlater |].
  exact (parseUrl_last_wins before item later ∅ k (str "b") Hk Hbefore Hitem Hlater).
Defined.

Lemma parseUrl_round_trip_witness :
  let action := lit "add" in
  let emailAddr := lit "a+b@c.d" in
  let listName := lit "public-announce" in
  let query := lit "?action=add&emailAddr=a%2Bb%40c.d&listName=public-announce" in
  plain_value action ∧ plain_value emailAddr ∧ plain_value listName
  ∧ subscription_query action emailAddr listName = Some query
  ∧ param (mkInbound query) "action" = VStr action
  ∧ param (mkInbound query) "emailAddr" = VStr emailAddr
  ∧ param (mkInbound query) "listName" = VStr listName.
Proof.
  intros action emailAddr listName query.
  assert (Ha : plain_value action) by (split; [| split]; compute_done).
  assert (He : plain_value emailAddr) by (split; [| split]; compute_done).
  assert (Hl : plain_value listName) by (split; [| split]; compute_done).
  assert (Hq : subscription_query action emailAddr listName = Some query)
    by (vm_compute; reflexivity).
  split; [exact Ha |]. split; [exact He |]. split; [exact Hl |].
  split; [exact Hq |].
  exact (parseUrl_round_trip action emailAddr listName query Ha He Hl Hq).
Defined.

(** ** The client and the resolvers *)

Section ResolverResults.
Context `{Environment}.

Lemma getListDetails_never_throws listId : never_throws (getListDetails listId).
Proof. apply never_throws_try_catch. intros e. apply never_throws_warn_ret. Qed.

(** X10: no helper of the handler lets an exception reach its caller: the
    resolvers, the mutators, the email sender and the Slack notifier catch
    what the client or the reading of a response throws, log it, and return
    a value. *)
Theorem helpers_never_throw :
  never_throws getAllContactLists
  ∧ never_throws getTemplates
  ∧ (∀ listId, never_throws (getListDetails listId))
  ∧ (∀ emailAddr, never_throws (getContact emailAddr))
  ∧ (∀ emailAddr, never_throws (getContactLists emailAddr))
  ∧ (∀ contactId listId, never_throws (getRecipient contactId listId))
  ∧ (∀ emailAddr, never_throws (addContact emailAddr))
  ∧ (∀ listId emailAddr, never_throws (addContactToList listId emailAddr))
  ∧ (∀ contactId listId, never_throws (subscribeContact contactId listId))
  ∧ (∀ emailAddr templateId listName,
       never_throws (sendEmail emailAddr templateId listName))
  ∧ (∀ emailAddr listName errorMsg,
       never_throws (notifySlack emailAddr listName errorMsg)).
Proof.
  repeat split; intros.
  - apply getAllContactLists_never_throws.
  - apply getTemplates_never_throws.
  - apply getListDetails_never_throws.
  - apply getContact_never_throws.
  - apply getContactLists_never_throws.
  - apply getRecipient_never_throws.
  - apply addContact_never_throws.
  - apply addContactToList_never_throws.
  - apply subscribeContact_never_throws.
  - apply sendEmail_never_throws.
  - apply notifySlack_never_throws.
Qed.

Lemma truthy_not_empty s : truthy (VStr s) = true → s ≠ [].
Proof. simpl. by intros ?%negb_true_iff%bool_decide_eq_false_1. Qed.

Lemma clientError_detail response :
  returns_only (λ detail, detail ≠ []) (clientError response).
Proof.
  unfold clientError.
  apply returns_only_bind. intros [detail errors].
  apply returns_only_bind. intros [detail' errors'].
  destruct (truthy (VStr detail')) eqn:Hdetail; simpl negb; cbv iota.
  - apply returns_only_ret. by apply truthy_not_empty.
  - apply returns_only_bind. intros _. by apply returns_only_ret.
Qed.

(** X11: [clientError] always returns, and the detail it returns is never
    the empty string, so a MailingListError always carries a message:
    either a detail read from the response, or 'General Error'. *)
Theorem clientError_detail_not_empty response w :
  ∃ detail w', clientError response w = (Returned detail, w') ∧ detail ≠ [].
Proof.
  destruct (never_throws_run (clientError response) w
              (clientError_never_throws response)) as (detail & w' & Hrun).
  exists detail, w'. split; [exact Hrun |].
  exact (clientError_detail response w detail w' Hrun).
Qed.

Lemma ok_200 r : status r = 200%N → ok r = true.
Proof. unfold ok. by intros ->. Qed.

Lemma ok_201 r : status r = 201%N → ok r = true.
Proof. unfold ok. by intros ->. Qed.

Lemma Client_get_Returned url encoded w r w' :
  URI.encodeURI url = Some encoded →
  Client_get url w = (Returned r, w') →
  remote (calls w) (contact_request encoded w) = Resolved r
  ∧ ok r = true ∧ w' = sent w (contact_request encoded w).
Proof.
  intros Henc. rewrite (Client_get_run _ _ _ Henc). cbv zeta.
  fold (contact_request encoded w).
  destruct (remote _ _) as [r0|e]; [| discriminate].
  by intros (-> & Hok & ->)%check_ok_Returned.
Qed.

Lemma Client_post_Returned url data w r w' :
  Client_post url data w = (Returned r, w') →
  remote (calls w)
    (mkRequest POST url (Fetch_headers w ++ [content_type_json]) (body_of data))
  = Resolved r
  ∧ ok r = true.
Proof.
  rewrite Client_post_run. cbv zeta. simpl Fetch_headers.
  destruct (remote _ _) as [r0|e]; [| discriminate].
  by intros (-> & Hok & _)%check_ok_Returned.
Qed.

Lemma Client_get_ok url encoded w r :
  URI.encodeURI url = Some encoded →
  remote (calls w) (contact_request encoded w) = Resolved r → ok r = true →
  Client_get url w = (Returned r, sent w (contact_request encoded w)).
Proof.
  intros Henc Hr Hok. rewrite (Client_get_run _ _ _ Henc). cbv zeta.
  fold (contact_request encoded w). rewrite Hr. unfold check_ok. by rewrite Hok.
Qed.

Lemma Client_post_ok url data w r :
  remote (calls w)
    (mkRequest POST url (Fetch_headers w ++ [content_type_json]) (body_of data))
  = Resolved r →
  ok r = true →
  Client_post url data w
  = (Returned r,
     sent (with_content_type w)
       (mkRequest POST url (Fetch_headers w ++ [content_type_json]) (body_of data))).
Proof.
  intros Hr Hok. rewrite Client_post_run. cbv zeta. simpl Fetch_headers.
  rewrite Hr. unfold check_ok. by rewrite Hok.
Qed.

Lemma getContact_body r w o w' :
  try_catch
    (data ← Response_json r;
     id ← lift (first ← Get data "Data" ≫= Get0; Get first "ID");
     mret (id, true))
    (λ err, console_warn err;; mret (VNum 0, true)) w = (o, w') →
  ∃ id, o = Returned (id, true).
Proof.
  rewrite try_catch_run.
  match goal with |- context [let (_, _) := ?body in _] =>
    destruct body as [[[id exists_] | e] w1] eqn:Hbody end.
  - apply bind_Returned_inv in Hbody as (data & w3 & _ & Hbody).
    apply bind_Returned_inv in Hbody as (id0 & w4 & _ & Hbody).
    injection Hbody as <- <- <-. intros [= <- <-]. by exists id0.
  - intros [= <- <-]. by exists (VNum 0).
Qed.

(** X12: [getContact] reports that the contact exists exactly when the
    lookup is answered with status 200, whatever the body holds; when it
    reports that the contact does not exist, the id is 0. *)
Theorem getContact_exists_iff_200 emailAddr encoded w id exists_ w' :
  URI.encodeURI (MJ_CONTACT ++ lit "/" ++ ToString emailAddr) = Some encoded →
  getContact emailAddr w = (Returned (id, exists_), w') →
  (exists_ = true ↔
   ∃ r, remote (calls w) (contact_request encoded w) = Resolved r ∧ status r = 200%N)
  ∧ (exists_ = false → id = VNum 0).
Proof.
  intros Henc. unfold getContact. rewrite try_catch_run, bind_run.
  destruct (Client_get _ w) as [[r|e] w1] eqn:Hget.
  - apply (Client_get_Returned _ _ _ _ _ Henc) in Hget as (Hr & Hok & ->).
    destruct (status r =? 200)%N eqn:Hstatus.
    + match goal with |- context [try_catch ?b ?h ?w0] =>
        destruct (try_catch b h w0) as [o w2] eqn:Hinner end.
      apply getContact_body in Hinner as [id' ->].
      intros [= <- <- <-]. split; [| done].
      split; [intros _ | done]. exists r. by apply N.eqb_eq in Hstatus.
    + intros [= <- <- <-]. split; [| done]. split; [done |].
      intros (r' & Hr' & Hst). rewrite Hr in Hr'. injection Hr' as <-.
      apply N.eqb_neq in Hstatus. done.
  - intros [= <- <- <-]. split; [| done]. split; [done |].
    intros (r & Hr & Hst). exfalso.
    rewrite (Client_get_ok _ _ _ _ Henc Hr (ok_200 r Hst)) in Hget. discriminate.
Qed.

(** X13: [addContact] reports success exactly when the creation is
    answered with status 201; another success status, 200 included, is
    reported as a failure. *)
Theorem addContact_true_iff_201 emailAddr w added w' :
  addContact emailAddr w = (Returned added, w') →
  (added = true ↔
   ∃ r, remote (calls w) (create_request emailAddr w) = Resolved r
        ∧ status r = 201%N).
Proof.
  unfold addContact. rewrite try_catch_run, bind_run.
  destruct (Client_post _ _ w) as [[r|e] w1] eqn:Hpost.
  - apply Client_post_Returned in Hpost as (Hr & Hok).
    change (body_of _) with (Some (create_body emailAddr)) in Hr.
    change (mkRequest POST MJ_CONTACT _ _) with (create_request emailAddr w) in Hr.
    destruct (status r =? 201)%N eqn:Hstatus; intros [= <- <-].
    + split; [intros _ | done]. exists r. by apply N.eqb_eq in Hstatus.
    + split; [done |]. intros (r' & Hr' & Hst). rewrite Hr in Hr'.
      injection Hr' as <-. by apply N.eqb_neq in Hstatus.
  - intros [= <- <-]. split; [done |]. intros (r & Hr & Hst). exfalso.
    unfold create_request in Hr.
    rewrite (Client_post_ok MJ_CONTACT (VObj [(lit "Email", emailAddr)]) w r Hr
               (ok_201 r Hst)) in Hpost.
    discriminate.
Qed.

End ResolverResults.

Lemma getContact_exists_iff_200_witness :
  let env := subscribed_account in
  let emailAddr := str "a@b.c" in
  let encoded := lit "https://api.mailjet.com/v3/REST/contact/a@b.c" in
  let w := start env in
  let w' := (getContact emailAddr w).2 in
  URI.encodeURI (MJ_CONTACT ++ lit "/" ++ ToString emailAddr) = Some encoded
  ∧ getContact emailAddr w = (Returned (VNum 42, true), w')
  ∧ (true = true ↔
     ∃ r, remote (calls w) (contact_request encoded w) = Resolved r
          ∧ status r = 200%N)
  ∧ (true = false → VNum 42 = VNum 0).
Proof.
  intros env emailAddr encoded w w'.
  assert (Henc : URI.encodeURI (MJ_CONTACT ++ lit "/" ++ ToString emailAddr)
                 = Some encoded) by (vm_compute; reflexivity).
  assert (Hrun : getContact emailAddr w = (Returned (VNum 42, true), w'))
    by (vm_compute; reflexivity).
  split; [exact Henc |]. split; [exact Hrun |].
  exact (getContact_exists_iff_200 (H := env) emailAddr encoded w (VNum 42) true w'
           Henc Hrun).
Defined.

Lemma addContact_true_iff_201_witness :
  let env := open_account in
  let emailAddr := str "new@b.c" in
  let w := start env in
  let w' := (addContact emailAddr w).2 in
  addContact emailAddr w = (Returned true, w')
  ∧ (true = true ↔
     ∃ r, remote (calls w) (create_request emailAddr w) = Resolved r
          ∧ status r = 201%N).
Proof.
  intros env emailAddr w w'.
  assert (Hrun : addContact emailAddr w = (Returned true, w'))
    by (vm_compute; reflexivity).
  split; [exact Hrun |].
  exact (addContact_true_iff_201 (H := env) emailAddr w true w' Hrun).
Defined.

(** ** The exceptions of a run *)

Lemma throws_only_impl {A} (P Q : exn → Prop) (m : M A) :
  (∀ e, P e → Q e) → throws_only P m → throws_only Q m.
Proof. intros HPQ Hm w e w' He. by apply HPQ, (Hm w e w'). Qed.

Section HandlerExceptions.
Context `{Environment}.

Lemma encodeInfo_never_throws payload :
  well_formed payload → never_throws (encodeInfo payload).
Proof.
  intros [q Hq]%encodes_wf w. exists q. by rewrite (encodeInfo_run payload q w Hq).
Qed.

Lemma encodeInfo_payload_error payload : throws_only payload_error (encodeInfo payload).
Proof.
  unfold encodeInfo. destruct (URI.encodeURIComponent payload) as [encoded|].
  - destruct (Base64.btoa encoded); [apply throws_only_ret |].
    apply throws_only_throw. by right.
  - apply throws_only_throw. by left.
Qed.

Lemma respond_exceptions request response status headers st :
  Forall (λ c, (c < 128)%N) (search request) →
  throws_only (handler_exception request)
    (respond (param request "action") (param request "emailAddr")
       (param request "listName") response status headers st).
Proof.
  intros Hascii.
  assert (Hwf : well_formed (info_of request)).
  { unfold info_of. repeat apply wf_app; try apply wf_lit; by apply param_wf. }
  unfold respond. cbv zeta. fold (info_of request). apply throws_only_bind.
  { destruct (onList st && alreadySubscribed st); [| apply throws_only_ret].
    destruct (strict_eq _ (str "add")); [apply throws_only_ret |].
    destruct (strict_eq _ (str "subscribe")); [| apply throws_only_ret].
    apply throws_only_bind; [| intros; apply throws_only_ret].
    by apply throws_only_never, encodeInfo_never_throws. }
  intros [returned|]; [apply throws_only_ret |].
  destruct (onList st && negb (alreadySubscribed st)); [| apply throws_only_ret].
  destruct (strict_eq _ (str "add")).
  { apply throws_only_bind;
      [apply throws_only_never, sendEmail_never_throws | intros [sent error]].
    destruct (truthy error); [apply throws_only_ret |].
    destruct sent; apply throws_only_ret. }
  destruct (strict_eq _ (str "subscribe")) eqn:Haction; [| apply throws_only_ret].
  apply strict_eq_VStr in Haction.
  apply throws_only_bind.
  { apply throws_only_lift. intros e ->%listDetails_id_throws. by left. }
  intros listId. apply throws_only_bind_run;
    [apply throws_only_never, subscribeContact_never_throws |].
  intros w [subscribed error] w1 Hsubscribe.
  apply throws_only_bind;
    [by apply throws_only_never, encodeInfo_never_throws | intros encodedInfo].
  destruct subscribed.
  { apply throws_only_bind;
      [apply throws_only_never, notifySlack_never_throws | intros; apply throws_only_ret]. }
  destruct (subscribeContact_unsubscribed_error _ _ _ _ _ Hsubscribe) as [err ->].
  apply throws_only_bind.
  { eapply throws_only_impl; [| apply encodeInfo_payload_error].
    intros e He. by right. }
  intros encodedInfo'.
  apply throws_only_bind; [apply throws_only_ret | intros errorMessage].
  apply throws_only_bind;
    [apply throws_only_never, notifySlack_never_throws | intros; apply throws_only_ret].
Qed.

(** X14: a run of the handler on a URL (whose search component is ASCII)
    ends with a response, or with one of two exceptions: the TypeError of
    reading [id] of the contact list that was not found, or, for the action
    'subscribe', the error of encoding the payload of the failure redirect,
    which holds the provider's error text. Nothing else leaves the
    handler. *)
Theorem handleRequest_exceptions request :
  Forall (λ c, (c < 128)%N) (search request) →
  throws_only (handler_exception request) (handleRequest request).
Proof.
  intros Hascii w e w'. rewrite handleRequest_run.
  destruct (resolveState _ _ _) as [[[r|st]|e0] w1] eqn:Hstate.
  - discriminate.
  - by apply respond_exceptions.
  - intros [= <- <-]. left. by apply (resolveState_throws _ _ _ _ _ Hstate).
Qed.

End HandlerExceptions.

(** ** The paths of the handler *)

Section HandlerPaths.
Context `{Environment}.

Lemma ret_bind_run {A B} (a : A) (f : A → M B) w : (mret a ≫= f) w = f a w.
Proof. reflexivity. Qed.

Lemma clientError_calls r w detail w' :
  clientError r w = (Returned detail, w') → calls w' = calls w.
Proof.
  intros Hrun. destruct (clientError_quiet r w) as [_ Hcalls].
  rewrite Hrun in Hcalls. simpl in Hcalls. by rewrite app_nil_r in Hcalls.
Qed.

Lemma sendEmail_run emailAddr templateId listName w :
  let rq := mkRequest POST MJ_SEND (Fetch_headers w ++ [content_type_json])
              (Some (send_body emailAddr templateId listName)) in
  ∃ sentEmail error w',
    sendEmail emailAddr templateId listName w = (Returned (sentEmail, error), w')
    ∧ calls w' = calls w ++ [rq]
    ∧ match remote (calls w) rq with
      | Resolved r =>
          if ok r then sentEmail = true ∧ error = VUndef
          else sentEmail = false
               ∧ ∃ detail w1 w2, clientError r w1 = (Returned detail, w2)
                                 ∧ detail ≠ [] ∧ error = VStr detail
      | Rejected e => sentEmail = false ∧ error = VStr (message e)
      end.
Proof.
  intros rq. unfold sendEmail. rewrite try_catch_run, bind_run, Client_post_run.
  cbv zeta. change (body_of _) with (Some (send_body emailAddr templateId listName)).
  simpl Fetch_headers. fold rq.
  destruct (remote (calls w) rq) as [r|e].
  - unfold check_ok. destruct (ok r) eqn:Hok; cbn [negb].
    + cbv [mret M_ret]. rewrite Hok. by eexists _, _, _.
    + destruct (never_throws_run (clientError r) (sent (with_content_type w) rq)
                  (clientError_never_throws r)) as (detail & w1 & Hdetail).
      pose proof (clientError_detail r _ _ _ Hdetail) as Hne.
      rewrite bind_run, Hdetail. cbv [throw].
      eexists _, _, _. split; [reflexivity |]. split.
      * simpl. by rewrite (clientError_calls _ _ _ _ Hdetail).
      * split; [done |]. by eexists _, _, _.
  - by eexists _, _, _.
Qed.

(** X15: for a contact that is on the list and not subscribed, the action
    'add' sends the confirmation email, once, with the template found for
    the list. The answer is 200 when the provider accepts the message; when
    it answers with an error, 500 with the detail read from its response;
    when the request fails, 500 with the message of the failure, or the
    fallback message if that is empty. *)
Theorem pending_add_sends_confirmation request w st w' :
  param request "action" = str "add" →
  resolveState (param request "emailAddr") (param request "listName")
    (parsed request w) = (Returned (inr st), w') →
  onList st = true →
  alreadySubscribed st = false →
  ∃ response,
    (handleRequest request w).1 = Returned response
    ∧ calls (handleRequest request w).2 = calls w' ++ [send_request request st w']
    ∧ match remote (calls w') (send_request request st w') with
      | Resolved r =>
          if ok r then response = confirmation_sent request
          else ∃ detail w1 w2,
                 clientError r w1 = (Returned detail, w2)
                 ∧ response = JsonResponse detail 500 json_headers
      | Rejected e =>
          response
          = JsonResponse (if truthy (VStr (message e)) then message e
                          else fallback_message request) 500 json_headers
      end.
Proof.
  intros Haction Hstate Hon Hsub. rewrite handleRequest_run, Hstate.
  unfold respond. cbv zeta. rewrite Hon, Hsub, Haction.
  change (strict_eq (str "add") (str "add")) with true.
  cbv [andb negb]. rewrite !ret_bind_run. cbv iota beta.
  destruct (sendEmail_run (param request "emailAddr") (t_id (emailTemplate st))
              (param request "listName") w')
    as (sentEmail & error & w1 & Hsend & Hcalls & Hanswer).
  rewrite (bind_Returned _ _ _ _ _ Hsend). cbv iota beta.
  fold (send_request request st w') in Hcalls, Hanswer.
  destruct (remote (calls w') (send_request request st w')) as [r|e].
  - destruct (ok r).
    + destruct Hanswer as [-> ->]. simpl truthy. cbv iota.
      eexists. split; [reflexivity |]. split; [exact Hcalls | reflexivity].
    + destruct Hanswer as (-> & detail & w2 & w3 & Hdetail & Hne & ->).
      assert (truthy (VStr detail) = true) as ->.
      { simpl. by rewrite bool_decide_eq_false_2. }
      eexists. split; [reflexivity |]. split; [exact Hcalls |].
      by exists detail, w2, w3.
  - destruct Hanswer as [-> ->].
    destruct (truthy (VStr (message e))); eexists;
      (split; [reflexivity |]); (split; [exact Hcalls | reflexivity]).
Qed.

End HandlerPaths.

Section SubscribePaths.
Context `{Environment}.

Lemma notifySlack_run emailAddr listName errorMsg w :
  ∃ o w1,
    notifySlack emailAddr listName errorMsg w = (Returned o, w1)
    ∧ calls w1 = calls w
                 ++ [mkRequest POST SLACK_URL [content_type_json]
                       (Some (makeMessage emailAddr listName errorMsg))].
Proof.
  unfold notifySlack. rewrite try_catch_run, bind_run. unfold fetch.
  destruct (remote _ _); eexists _, _; split; reflexivity.
Qed.

Lemma info_of_wf request :
  Forall (λ c, (c < 128)%N) (search request) → well_formed (info_of request).
Proof.
  intros Hascii. unfold info_of.
  repeat apply wf_app; try apply wf_lit; by apply param_wf.
Qed.

Lemma respond_subscribe request response status headers st l w :
  param request "action" = str "subscribe" →
  onList st = true → alreadySubscribed st = false → listDetails st = Some l →
  respond (param request "action") (param request "emailAddr")
    (param request "listName") response status headers st w
  = ('(subscribed, error) ← subscribeContact (contactId st) (cl_id l);
     encodedInfo ← encodeInfo (info_of request);
     if subscribed : bool then
       notifySlack (param request "emailAddr") (param request "listName") VUndef;;
       mret (Redirect (lit "https://48ix.net/subscribe?" ++ encodedInfo) 301)
     else
       encodedInfo ←
         match error with
         | Some err => encodeInfo (info_of request ++ lit "&error=" ++ message err)
         | None => mret encodedInfo
         end;
       errorMessage ←
         match error with
         | Some err => mret (VStr (message err))
         | None => throw (cannot_read (lit "message") VUndef)
         end;
       notifySlack (param request "emailAddr") (param request "listName")
         errorMessage;;
       mret (Redirect (lit "https://48ix.net/subscribe/failure?" ++ encodedInfo) 301))
    w.
Proof.
  intros Haction Hon Hsub Hlist. unfold respond. cbv zeta.
  rewrite Hon, Hsub, Haction, Hlist.
  change (strict_eq (str "subscribe") (str "add")) with false.
  change (strict_eq (str "subscribe") (str "subscribe")) with true.
  reflexivity.
Qed.

(** X16: when the PUT that subscribes a pending contact succeeds, the
    handler redirects to the success page and sends one Slack notification,
    without an error field; the redirect is the same whatever the Slack
    webhook answers, and when the notification fails. *)
Theorem subscribe_success_notifies request w st w' l error w'' :
  Forall (λ c, (c < 128)%N) (search request) →
  param request "action" = str "subscribe" →
  resolveState (param request "emailAddr") (param request "listName")
    (parsed request w) = (Returned (inr st), w') →
  onList st = true → alreadySubscribed st = false → listDetails st = Some l →
  subscribeContact (contactId st) (cl_id l) w' = (Returned (true, error), w'') →
  ∃ q, encodes (info_of request) q
       ∧ (handleRequest request w).1
         = Returned (Redirect (success_page ++ lit "?" ++ q) 301)
       ∧ calls (handleRequest request w).2
         = calls w'' ++ [notification request VUndef].
Proof.
  intros Hascii Haction Hstate Hon Hsub Hlist Hsubscribe.
  destruct (encodes_wf _ (info_of_wf request Hascii)) as [q Hq]. exists q.
  split; [exact Hq |].
  rewrite handleRequest_run, Hstate.
  rewrite (respond_subscribe request _ _ _ st l w' Haction Hon Hsub Hlist).
  rewrite (bind_Returned _ _ _ _ _ Hsubscribe). cbv iota beta.
  rewrite (bind_Returned _ _ _ _ _ (encodeInfo_run _ q w'' Hq)).
  destruct (notifySlack_run (param request "emailAddr") (param request "listName")
              VUndef w'') as (o & w1 & Hnotify & Hcalls).
  rewrite (bind_Returned _ _ _ _ _ Hnotify). by split.
Qed.

(** X17: when the subscription of a pending contact fails, the handler
    redirects to the failure page with a payload that ends with the message
    of the error, and sends one Slack notification that carries the same
    message. *)
Theorem subscribe_failure_reports request w st w' l err w'' :
  Forall (λ c, (c < 128)%N) (search request) →
  param request "action" = str "subscribe" →
  resolveState (param request "emailAddr") (param request "listName")
    (parsed request w) = (Returned (inr st), w') →
  onList st = true → alreadySubscribed st = false → listDetails st = Some l →
  subscribeContact (contactId st) (cl_id l) w' = (Returned (false, Some err), w'') →
  well_formed (message err) →
  ∃ q, encodes (info_of request ++ lit "&error=" ++ message err) q
       ∧ (handleRequest request w).1
         = Returned (Redirect (failure_page ++ lit "?" ++ q) 301)
       ∧ calls (handleRequest request w).2
         = calls w'' ++ [notification request (VStr (message err))].
Proof.
  intros Hascii Haction Hstate Hon Hsub Hlist Hsubscribe Hmessage.
  pose proof (info_of_wf request Hascii) as Hinfo.
  destruct (encodes_wf _ Hinfo) as [q0 Hq0].
  assert (Hpayload : well_formed (info_of request ++ lit "&error=" ++ message err))
    by (apply wf_app; [exact Hinfo | apply wf_app; [apply wf_lit | exact Hmessage]]).
  destruct (encodes_wf _ Hpayload) as [q Hq]. exists q.
  split; [exact Hq |].
  rewrite handleRequest_run, Hstate.
  rewrite (respond_subscribe request _ _ _ st l w' Haction Hon Hsub Hlist).
  rewrite (bind_Returned _ _ _ _ _ Hsubscribe). cbv iota beta.
  rewrite (bind_Returned _ _ _ _ _ (encodeInfo_run _ q0 w'' Hq0)).
  rewrite (bind_Returned _ _ _ _ _ (encodeInfo_run _ q w'' Hq)).
  rewrite ret_bind_run.
  destruct (notifySlack_run (param request "emailAddr") (param request "listName")
              (VStr (message err)) w'') as (o & w1 & Hnotify & Hcalls).
  rewrite (bind_Returned _ _ _ _ _ Hnotify). by split.
Qed.

End SubscribePaths.

Lemma handleRequest_exceptions_witness :
  let env := listless_account in
  Forall (λ c, (c < 128)%N) (search add_request)
  ∧ throws_only (handler_exception add_request) (handleRequest add_request)
  ∧ (handleRequest add_request (start env)).1
    = Thrown (cannot_read (lit "id") VUndef).
Proof.
  intros env.
  assert (Hascii : Forall (λ c, (c < 128)%N) (search add_request)) by compute_done.
  split; [exact Hascii |].
  split; [exact (handleRequest_exceptions (H := env) add_request Hascii) |].
  vm_compute. reflexivity.
Defined.

Lemma pending_add_sends_confirmation_witness :
  let env := pending_account in
  let w := start env in
  ∃ st w',
    param add_request "action" = str "add"
    ∧ resolveState (param add_request "emailAddr") (param add_request "listName")
        (parsed add_request w) = (Returned (inr st), w')
    ∧ onList st = true
    ∧ alreadySubscribed st = false
    ∧ ∃ response,
        (handleRequest add_request w).1 = Returned response
        ∧ calls (handleRequest add_request w).2
          = calls w' ++ [send_request add_request st w']
        ∧ match remote (calls w') (send_request add_request st w') with
          | Resolved r =>
              if ok r then response = confirmation_sent add_request
              else ∃ detail w1 w2,
                     clientError r w1 = (Returned detail, w2)
                     ∧ response = JsonResponse detail 500 json_headers
          | Rejected e =>
              response
              = JsonResponse (if truthy (VStr (message e)) then message e
                              else fallback_message add_request) 500 json_headers
          end.
Proof.
  intros env w.
  pose (r := resolveState (param add_request "emailAddr")
               (param add_request "listName") (parsed add_request w)).
  pose (st := match r.1 with Returned (inr st) => st | _ => no_locals end).
  assert (Haction : param add_request "action" = str "add")
    by (vm_compute; reflexivity).
  assert (Hstate : resolveState (param add_request "emailAddr")
                     (param add_request "listName") (parsed add_request w)
                   = (Returned (inr st), r.2)) by (vm_compute; reflexivity).
  assert (Hon : onList st = true) by (vm_compute; reflexivity).
  assert (Hsub : alreadySubscribed st = false) by (vm_compute; reflexivity).
  exists st, r.2.
  split; [exact Haction |]. split; [exact Hstate |]. split; [exact Hon |].
  split; [exact Hsub |].
  exact (pending_add_sends_confirmation (H := env) add_request w st r.2
           Haction Hstate Hon Hsub).
Defined.

Lemma subscribe_success_notifies_witness :
  let env := confirming_account in
  let w := start env in
  ∃ st w' l w'',
    Forall (λ c, (c < 128)%N) (search subscribe_request)
    ∧ param subscribe_request "action" = str "subscribe"
    ∧ resolveState (param subscribe_request "emailAddr")
        (param subscribe_request "listName") (parsed subscribe_request w)
      = (Returned (inr st), w')
    ∧ onList st = true ∧ alreadySubscribed st = false ∧ listDetails st = Some l
    ∧ subscribeContact (contactId st) (cl_id l) w' = (Returned (true, None), w'')
    ∧ ∃ q, encodes (info_of subscribe_request) q
           ∧ (handleRequest subscribe_request w).1
             = Returned (Redirect (success_page ++ lit "?" ++ q) 301)
           ∧ calls (handleRequest subscribe_request w).2
             = calls w'' ++ [notification subscribe_request VUndef].
Proof.
  intros env w.
  pose (r := resolveState (param subscribe_request "emailAddr")
               (param subscribe_request "listName") (parsed subscribe_request w)).
  pose (st := match r.1 with Returned (inr st) => st | _ => no_locals end).
  pose (l := default (mkContactList VUndef VUndef VUndef) (listDetails st)).
  pose (s := subscribeContact (contactId st) (cl_id l) r.2).
  assert (Hascii : Forall (λ c, (c < 128)%N) (search subscribe_request))
    by compute_done.
  assert (Haction : param subscribe_request "action" = str "subscribe")
    by (vm_compute; reflexivity).
  assert (Hstate : resolveState (param subscribe_request "emailAddr")
                     (param subscribe_request "listName")
                     (parsed subscribe_request w)
                   = (Returned (inr st), r.2)) by (vm_compute; reflexivity).
  assert (Hon : onList st = true) by (vm_compute; reflexivity).
  assert (Hsub : alreadySubscribed st = false) by (vm_compute; reflexivity).
  assert (Hlist : listDetails st = Some l) by (vm_compute; reflexivity).
  assert (Hsubscribe : subscribeContact (contactId st) (cl_id l) r.2
                       = (Returned (true, None), s.2)) by (vm_compute; reflexivity).
  exists st, r.2, l, s.2.
  split; [exact Hascii |]. split; [exact Haction |]. split; [exact Hstate |].
  split; [exact Hon |]. split; [exact Hsub |]. split; [exact Hlist |].
  split; [exact Hsubscribe |].
  exact (subscribe_success_notifies (H := env) subscribe_request w st r.2 l None s.2
           Hascii Haction Hstate Hon Hsub Hlist Hsubscribe).
Defined.

Lemma subscribe_failure_reports_witness :
  let env := refusing_account in
  let w := start env in
  let err := mkError MailingListError (lit "mj-0003: Object not found") in
  ∃ st w' l w'',
    Forall (λ c, (c < 128)%N) (search subscribe_request)
    ∧ param subscribe_request "action" = str "subscribe"
    ∧ resolveState (param subscribe_request "emailAddr")
        (param subscribe_request "listName") (parsed subscribe_request w)
      = (Returned (inr st), w')
    ∧ onList st = true ∧ alreadySubscribed st = false ∧ listDetails st = Some l
    ∧ subscribeContact (contactId st) (cl_id l) w' = (Returned (false, Some err), w'')
    ∧ well_formed (message err)
    ∧ ∃ q, encodes (info_of subscribe_request ++ lit "&error=" ++ message err) q
           ∧ (handleRequest subscribe_request w).1
             = Returned (Redirect (failure_page ++ lit "?" ++ q) 301)
           ∧ calls (handleRequest subscribe_request w).2
             = calls w'' ++ [notification subscribe_request (VStr (message err))].
Proof.
  intros env w err.
  pose (r := resolveState (param subscribe_request "emailAddr")
               (param subscribe_request "listName") (parsed subscribe_request w)).
  pose (st := match r.1 with Returned (inr st) => st | _ => no_locals end).
  pose (l := default (mkContactList VUndef VUndef VUndef) (listDetails st)).
  pose (s := subscribeContact (contactId st) (cl_id l) r.2).
  assert (Hascii : Forall (λ c, (c < 128)%N) (search subscribe_request))
    by compute_done.
  assert (Haction : param subscribe_request "action" = str "subscribe")
    by (vm_compute; reflexivity).
  assert (Hstate : resolveState (param subscribe_request "emailAddr")
                     (param subscribe_request "listName")
                     (parsed subscribe_request w)
                   = (Returned (inr st), r.2)) by (vm_compute; reflexivity).
  assert (Hon : onList st = true) by (vm_compute; reflexivity).
  assert (Hsub : alreadySubscribed st = false) by (vm_compute; reflexivity).
  assert (Hlist : listDetails st = Some l) by (vm_compute; reflexivity).
  assert (Hsubscribe : subscribeContact (contactId st) (cl_id l) r.2
                       = (Returned (false, Some err), s.2))
    by (vm_compute; reflexivity).
  assert (Hmessage : well_formed (message err)) by apply wf_lit.
  exists st, r.2, l, s.2.
  split; [exact Hascii |]. split; [exact Haction |]. split; [exact Hstate |].
  split; [exact Hon |]. split; [exact Hsub |]. split; [exact Hlist |].
  split; [exact Hsubscribe |]. split; [exact Hmessage |].
  exact (subscribe_failure_reports (H := env) subscribe_request w st r.2 l err s.2
           Hascii Haction Hstate Hon Hsub Hlist Hsubscribe Hmessage).
Defined.

(** ** More of the resolvers *)

Section MoreResolvers.
Context `{Environment}.

Lemma getContact_absent_id emailAddr w id w' :
  getContact emailAddr w = (Returned (id, false), w') → id = VNum 0.
Proof.
  unfold getContact. rewrite try_catch_run, bind_run.
  destruct (Client_get _ w) as [[r|e] w1].
  - destruct (status r =? 200)%N.
    + match goal with |- context [try_catch ?b ?h ?w0] =>
        destruct (try_catch b h w0) as [o w2] eqn:Hinner end.
      apply getContact_body in Hinner as [id' ->]. discriminate.
    + by intros [= <- _].
  - by intros [= <- _].
Qed.

(** X18: for an address that is not a contact when the request arrives,
    the contact id the handler keeps is 0, also after it has created the
    contact and attached it to the list: the id MailJet assigns is not
    read. A subscription in the same request looks for the recipient of
    contact 0. *)
Theorem created_contact_has_id_zero emailAddr listName w allLists w1 templates w2
    id w3 st w' :
  getAllContactLists w = (Returned allLists, w1) →
  getTemplates w1 = (Returned templates, w2) →
  getContact emailAddr w2 = (Returned (id, false), w3) →
  resolveState emailAddr listName w = (Returned (inr st), w') →
  contactId st = VNum 0.
Proof.
  intros Hlists Htemplates Hcontact. unfold resolveState. cbv zeta.
  rewrite (bind_Returned _ _ _ _ _ Hlists), (bind_Returned _ _ _ _ _ Htemplates).
  destruct (head (List.filter _ templates)) as [emailTemplate|]; [| discriminate].
  rewrite (bind_Returned _ _ _ _ _ Hcontact). cbv iota beta.
  apply getContact_absent_id in Hcontact as ->.
  intros (added & w4 & _ & Hrest)%bind_Returned_inv.
  destruct added.
  - apply bind_Returned_inv in Hrest as (listId & w5 & _ & Hrest).
    apply bind_Returned_inv in Hrest as (attached & w6 & _ & Hrest).
    destruct (at_error attached); [discriminate |]. by injection Hrest as <- _.
  - by injection Hrest as <- _.
Qed.

Lemma filterO_kept {A} (p : A → Outcome bool) items kept x :
  filterO p items = Returned kept → x ∈ kept → p x = Returned true.
Proof.
  revert kept. induction items as [|y items IH]; intros kept.
  - intros [= <-] Hx. by apply elem_of_nil in Hx.
  - cbn [filterO]. destruct (p y) as [keep|e] eqn:Hy; [| discriminate].
    destruct (filterO p items) as [kept'|e]; [| discriminate].
    cbn. intros [= <-] Hx. destruct keep; [| by apply (IH kept')].
    apply elem_of_cons in Hx as [-> | Hx]; [done | by apply (IH kept')].
Qed.

Lemma matches_recipient_readable contactId listId r keep :
  matches_recipient contactId listId r = Returned keep → readable r.
Proof. unfold matches_recipient, readable. by destruct r. Qed.

Lemma Get_readable v prop : readable v → Get v prop = Returned (prop_of v prop).
Proof. intros [Hnull Hundef]. by destruct v. Qed.

(** X19: when entries of the recipient listing are for the contact on the
    list, [getRecipient] returns the ID of the first of them, in the order
    of the listing, and logs nothing. *)
Theorem getRecipient_first_match contactId listId w r data items first others :
  remote (calls w) (recipients_request w) = Resolved r →
  ok r = true →
  json_body r = Some data →
  (Get data "Data" ≫= array_method "filter") = Returned items →
  filterO (matches_recipient contactId listId) items = Returned (first :: others) →
  getRecipient contactId listId w
  = (Returned (prop_of first "ID"), sent w (recipients_request w)).
Proof.
  intros Hr Hok Hjson Hitems Hfilter.
  assert (Hfirst : readable first).
  { eapply matches_recipient_readable, (filterO_kept _ _ _ first Hfilter).
    apply elem_of_cons. by left. }
  unfold getRecipient. rewrite try_catch_run.
  erewrite bind_Returned; cycle 1.
  { rewrite (Client_get_run _ MJ_LIST_RECIPIENT) by reflexivity. cbv zeta.
    fold (recipients_request w). rewrite Hr. unfold check_ok. rewrite Hok.
    reflexivity. }
  unfold Response_json. rewrite Hjson.
  cbv [mbind M_bind mret M_ret lift] in Hitems |- *. rewrite Hitems, Hfilter.
  by rewrite (Get_readable first "ID" Hfirst).
Qed.

(** X20: [addContactToList] reports the contact as added exactly when the
    attachment is answered with a success status and a JSON body. When the
    id cannot be read from that body, the contact is reported as added and
    the error of the reading is reported with it. *)
Theorem addContactToList_added_iff_ok listId emailAddr w attached w' :
  addContactToList listId emailAddr w = (Returned attached, w') →
  (addedToList attached = true ↔
   ∃ r data, remote (calls w) (attach_request listId emailAddr w) = Resolved r
             ∧ ok r = true ∧ json_body r = Some data)
  ∧ (∀ r data e,
       remote (calls w) (attach_request listId emailAddr w) = Resolved r →
       ok r = true → json_body r = Some data → first_ID data = Thrown e →
       addedToList attached = true ∧ at_error attached = Some e).
Proof.
  unfold addContactToList. rewrite try_catch_run, bind_run.
  destruct (Client_post _ _ w) as [[r|e] w1] eqn:Hpost.
  - apply Client_post_Returned in Hpost as (Hr & Hok).
    change (mkRequest POST MJ_ADD_CONTACT _ _)
      with (attach_request listId emailAddr w) in Hr.
    rewrite Hok, bind_run. unfold Response_json.
    destruct (json_body r) as [data|] eqn:Hjson.
    + cbv [mret M_ret]. rewrite try_catch_run, bind_run.
      fold (first_ID data). unfold lift.
      destruct (first_ID data) as [id|e] eqn:Hid.
      * intros [= <- <-]. cbn [addedToList].
        split; [split; [eauto | done] |].
        intros r' data' e' Hr' _ Hjson' Hid'. rewrite Hr in Hr'.
        injection Hr' as <-. congruence.
      * intros [= <- <-]. cbn [addedToList at_error].
        split; [split; [eauto | done] |].
        intros r' data' e' Hr' _ Hjson' Hid'. rewrite Hr in Hr'.
        injection Hr' as <-. split; [done | congruence].
    + intros [= <- <-]. cbn [addedToList].
      split; [split; [done |] |].
      * intros (r' & data' & Hr' & _ & Hjson'). rewrite Hr in Hr'.
        injection Hr' as <-. congruence.
      * intros r' data' e' Hr' _ Hjson' _. rewrite Hr in Hr'.
        injection Hr' as <-. congruence.
  - intros [= <- <-]. cbn [addedToList].
    assert (Hno : ∀ r, remote (calls w) (attach_request listId emailAddr w)
                       = Resolved r → ok r = true → False).
    { intros r Hr Hok.
      pose proof (Client_post_ok MJ_ADD_CONTACT (attach_body listId emailAddr) w r
                    Hr Hok) as Hrun.
      unfold attach_body in Hrun. rewrite Hrun in Hpost. discriminate. }
    split; [split; [done |] |].
    + intros (r & data & Hr & Hok & _). destruct (Hno r Hr Hok).
    + intros r data e' Hr Hok _ _. destruct (Hno r Hr Hok).
Qed.

End MoreResolvers.

Lemma created_contact_has_id_zero_witness :
  let env := open_account in
  let emailAddr := str "new@b.c" in
  let listName := str "public-announce" in
  let w := start env in
  ∃ allLists w1 templates w2 w3 st w',
    getAllContactLists w = (Returned allLists, w1)
    ∧ getTemplates w1 = (Returned templates, w2)
    ∧ getContact emailAddr w2 = (Returned (VNum 0, false), w3)
    ∧ resolveState emailAddr listName w = (Returned (inr st), w')
    ∧ contactExists st = true ∧ onList st = true
    ∧ contactId st = VNum 0.
Proof.
  intros env emailAddr listName w.
  pose (r1 := getAllContactLists w).
  pose (allLists := match r1.1 with Returned l => l | _ => [] end).
  pose (r2 := getTemplates r1.2).
  pose (templates := match r2.1 with Returned l => l | _ => [] end).
  pose (r3 := getContact emailAddr r2.2).
  pose (r := resolveState emailAddr listName w).
  pose (st := match r.1 with Returned (inr st) => st | _ => no_locals end).
  assert (Hlists : getAllContactLists w = (Returned allLists, r1.2))
    by (vm_compute; reflexivity).
  assert (Htemplates : getTemplates r1.2 = (Returned templates, r2.2))
    by (vm_compute; reflexivity).
  assert (Hcontact : getContact emailAddr r2.2 = (Returned (VNum 0, false), r3.2))
    by (vm_compute; reflexivity).
  assert (Hstate : resolveState emailAddr listName w = (Returned (inr st), r.2))
    by (vm_compute; reflexivity).
  exists allLists, r1.2, templates, r2.2, r3.2, st, r.2.
  split; [exact Hlists |]. split; [exact Htemplates |]. split; [exact Hcontact |].
  split; [exact Hstate |].
  split; [vm_compute; reflexivity |]. split; [vm_compute; reflexivity |].
  exact (created_contact_has_id_zero (H := env) emailAddr listName w allLists r1.2
           templates r2.2 (VNum 0) r3.2 st r.2 Hlists Htemplates Hcontact Hstate).
Defined.

Lemma getRecipient_first_match_witness :
  let env := doubled_account in
  let w := start env in
  let first := obj [("ID", VNum 900); ("ContactID", VNum 42); ("ListID", VNum 7)] in
  let second := obj [("ID", VNum 901); ("ContactID", VNum 42); ("ListID", VNum 7)] in
  ∃ r data items,
    remote (calls w) (recipients_request w) = Resolved r
    ∧ ok r = true
    ∧ json_body r = Some data
    ∧ (Get data "Data" ≫= array_method "filter") = Returned items
    ∧ filterO (matches_recipient (VNum 42) (VNum 7)) items = Returned [first; second]
    ∧ getRecipient (VNum 42) (VNum 7) w
      = (Returned (VNum 900), sent w (recipients_request w)).
Proof.
  intros env w first second.
  pose (data := Data [obj [("ID", VNum 899); ("ContactID", VNum 5); ("ListID", VNum 7)];
                      first; second]).
  pose (r := mkResponse 200 (lit "OK") (Some data) (Some (stringify data))).
  pose (items := [obj [("ID", VNum 899); ("ContactID", VNum 5); ("ListID", VNum 7)];
                  first; second]).
  assert (Hr : remote (calls w) (recipients_request w) = Resolved r)
    by (vm_compute; reflexivity).
  assert (Hok : ok r = true) by reflexivity.
  assert (Hjson : json_body r = Some data) by reflexivity.
  assert (Hitems : (Get data "Data" ≫= array_method "filter") = Returned items)
    by (vm_compute; reflexivity).
  assert (Hfilter : filterO (matches_recipient (VNum 42) (VNum 7)) items
                    = Returned [first; second]) by (vm_compute; reflexivity).
  exists r, data, items.
  split; [exact Hr |]. split; [exact Hok |]. split; [exact Hjson |].
  split; [exact Hitems |]. split; [exact Hfilter |].
  exact (getRecipient_first_match (H := env) (VNum 42) (VNum 7) w r data items
           first [second] Hr Hok Hjson Hitems Hfilter).
Defined.

Lemma addContactToList_added_iff_ok_witness :
  let env := terse_account in
  let w := start env in
  let listId := VNum 7 in
  let emailAddr := str "a@b.c" in
  let e := cannot_read (lit "ID") VUndef in
  let attached := mkAttached true (VNum 0) (Some e) in
  ∃ w',
    addContactToList listId emailAddr w = (Returned attached, w')
    ∧ (addedToList attached = true ↔
       ∃ r data, remote (calls w) (attach_request listId emailAddr w) = Resolved r
                 ∧ ok r = true ∧ json_body r = Some data)
    ∧ (∀ r data e,
         remote (calls w) (attach_request listId emailAddr w) = Resolved r →
         ok r = true → json_body r = Some data → first_ID data = Thrown e →
         addedToList attached = true ∧ at_error attached = Some e).
Proof.
  intros env w listId emailAddr e attached.
  pose (r := addContactToList listId emailAddr w).
  assert (Hrun : addContactToList listId emailAddr w = (Returned attached, r.2))
    by (vm_compute; reflexivity).
  exists r.2. split; [exact Hrun |].
  exact (addContactToList_added_iff_ok (H := env) listId emailAddr w attached r.2 Hrun).
Defined.

(** ** Listings with an entry that cannot be read *)

Lemma push_each_readable {A B} (f : A → Outcome B) (g : A → B) items :
  Forall (λ x, f x = Returned (g x)) items →
  ∀ acc, push_each f items acc = (acc ++ (g <$> items), None).
Proof.
  induction 1 as [|x items Hx _ IH]; intros acc; cbn [push_each fmap list_fmap].
  - by rewrite app_nil_r.
  - rewrite Hx, IH. by rewrite <- app_assoc.
Qed.

Lemma push_each_stops {A B} (f : A → Outcome B) (g : A → B) items bad rest e :
  Forall (λ x, f x = Returned (g x)) items → f bad = Thrown e →
  ∀ acc, push_each f (items ++ bad :: rest) acc = (acc ++ (g <$> items), Some e).
Proof.
  induction 1 as [|x items Hx _ IH]; intros Hbad acc;
    cbn [app push_each fmap list_fmap].
  - by rewrite Hbad, app_nil_r.
  - rewrite Hx, IH by done. by rewrite <- app_assoc.
Qed.

Lemma mapO_stops {A B} (f : A → Outcome B) (g : A → B) items bad rest e :
  Forall (λ x, f x = Returned (g x)) items → f bad = Thrown e →
  mapO f (items ++ bad :: rest) = Thrown e.
Proof.
  induction 1 as [|x items Hx _ IH]; intros Hbad; cbn [app mapO].
  - by rewrite Hbad.
  - rewrite Hx, IH by done. reflexivity.
Qed.

Section Listings.
Context `{Environment}.

(** X21: the contact lists are collected one by one: when an entry of the
    listing is null, [getAllContactLists] returns the lists before it, logs
    the TypeError and drops the entries after it. *)
Theorem getAllContactLists_keeps_lists_before_null w r data items rest :
  remote (calls w) (lists_request w) = Resolved r →
  ok r = true →
  json_body r = Some data →
  Get data "Data" = Returned (VArr (items ++ VNull :: rest)) →
  Forall readable items →
  getAllContactLists w
  = (Returned (contact_list_of <$> items),
     logged Warn (cannot_read (lit "ID") VNull) (sent w (lists_request w))).
Proof.
  intros Hr Hok Hjson Hdata Hitems.
  unfold getAllContactLists. rewrite try_catch_run.
  erewrite bind_Returned; cycle 1.
  { rewrite (Client_get_run _ MJ_CONTACTS_LIST) by reflexivity. cbv zeta.
    fold (lists_request w). rewrite Hr. unfold check_ok. rewrite Hok.
    reflexivity. }
  unfold Response_json. rewrite Hjson.
  cbv [mbind M_bind mret M_ret lift]. rewrite Hdata.
  cbn [Outcome_bind array_method].
  rewrite (push_each_stops _ contact_list_of items VNull rest
             (cannot_read (lit "ID") VNull)); [reflexivity | | reflexivity].
  eapply Forall_impl; [exact Hitems |]. intros l Hl. cbn beta.
  rewrite !Get_readable by done. reflexivity.
Qed.

(** X22: the templates are mapped at once: when an entry of the listing is
    null, [getTemplates] returns no template at all, also not those before
    the entry, and logs the TypeError. The handler then finds no
    confirmation template, for any list. *)
Theorem getTemplates_all_or_nothing w r data items rest :
  remote (calls w) (templates_request w) = Resolved r →
  status r = 200%N →
  json_body r = Some data →
  Get data "Data" = Returned (VArr (items ++ VNull :: rest)) →
  Forall readable items →
  getTemplates w
  = (Returned [],
     logged Err (cannot_read (lit "ID") VNull) (sent w (templates_request w))).
Proof.
  intros Hr Hstatus Hjson Hdata Hitems.
  unfold getTemplates. rewrite try_catch_run.
  erewrite bind_Returned; cycle 1.
  { rewrite (Client_get_run _ MJ_TEMPLATE) by reflexivity. cbv zeta.
    fold (templates_request w). rewrite Hr. unfold check_ok.
    rewrite (ok_200 r Hstatus). reflexivity. }
  rewrite Hstatus. change (200 =? 200)%N with true. cbv iota.
  unfold Response_json. rewrite Hjson.
  cbv [mbind M_bind mret M_ret lift]. rewrite Hdata.
  cbn [Outcome_bind array_method].
  rewrite (mapO_stops _ (λ t, mkTemplate (prop_of t "ID") (prop_of t "Name"))
             items VNull rest (cannot_read (lit "ID") VNull));
    [reflexivity | | reflexivity].
  eapply Forall_impl; [exact Hitems |]. intros t Ht. cbn beta.
  rewrite !Get_readable by done. reflexivity.
Qed.

End Listings.

Lemma getAllContactLists_keeps_lists_before_null_witness :
  let env := holed_account in
  let w := start env in
  let first := obj [("ID", VNum 7); ("Name", str "public-announce");
                    ("SubscriberCount", VNum 3)] in
  let last := obj [("ID", VNum 8); ("Name", str "members");
                   ("SubscriberCount", VNum 1)] in
  ∃ r data,
    remote (calls w) (lists_request w) = Resolved r
    ∧ ok r = true
    ∧ json_body r = Some data
    ∧ Get data "Data" = Returned (VArr ([first] ++ VNull :: [last]))
    ∧ Forall readable [first]
    ∧ getAllContactLists w
      = (Returned [mkContactList (VNum 7) (str "public-announce") (VNum 3)],
         logged Warn (cannot_read (lit "ID") VNull) (sent w (lists_request w))).
Proof.
  intros env w first last.
  pose (data := Data [first; VNull; last]).
  pose (r := mkResponse 200 (lit "OK") (Some data) (Some (stringify data))).
  assert (Hr : remote (calls w) (lists_request w) = Resolved r)
    by (vm_compute; reflexivity).
  assert (Hok : ok r = true) by reflexivity.
  assert (Hjson : json_body r = Some data) by reflexivity.
  assert (Hdata : Get data "Data" = Returned (VArr ([first] ++ VNull :: [last])))
    by (vm_compute; reflexivity).
  assert (Hitems : Forall readable [first]) by (repeat constructor; discriminate).
  exists r, data.
  split; [exact Hr |]. split; [exact Hok |]. split; [exact Hjson |].
  split; [exact Hdata |]. split; [exact Hitems |].
  exact (getAllContactLists_keeps_lists_before_null (H := env) w r data [first] [last]
           Hr Hok Hjson Hdata Hitems).
Defined.

Lemma getTemplates_all_or_nothing_witness :
  let env := holed_account in
  let w := start env in
  let first := obj [("ID", VNum 11); ("Name", str "public-announce-confirmation")] in
  ∃ r data,
    remote (calls w) (templates_request w) = Resolved r
    ∧ status r = 200%N
    ∧ json_body r = Some data
    ∧ Get data "Data" = Returned (VArr ([first] ++ VNull :: []))
    ∧ Forall readable [first]
    ∧ getTemplates w
      = (Returned [],
         logged Err (cannot_read (lit "ID") VNull) (sent w (templates_request w))).
Proof.
  intros env w first.
  pose (data := Data [first; VNull]).
  pose (r := mkResponse 200 (lit "OK") (Some data) (Some (stringify data))).
  assert (Hr : remote (calls w) (templates_request w) = Resolved r)
    by (vm_compute; reflexivity).
  assert (Hstatus : status r = 200%N) by reflexivity.
  assert (Hjson : json_body r = Some data) by reflexivity.
  assert (Hdata : Get data "Data" = Returned (VArr ([first] ++ VNull :: [])))
    by (vm_compute; reflexivity).
  assert (Hitems : Forall readable [first]) by (repeat constructor; discriminate).
  exists r, data.
  split; [exact Hr |]. split; [exact Hstatus |]. split; [exact Hjson |].
  split; [exact Hdata |]. split; [exact Hitems |].
  exact (getTemplates_all_or_nothing (H := env) w r data [first] [] Hr Hstatus Hjson
           Hdata Hitems).
Defined.

(** ** The fallback answer *)

Section Fallback.
Context `{Environment}.

Lemma strict_eq_str_false v s : v ≠ str s → strict_eq v (str s) = false.
Proof.
  intros Hv. destruct (strict_eq v (str s)) eqn:Heq; [| done].
  by apply strict_eq_VStr in Heq.
Qed.

(** X23: when the resolution ends with the contact not on the list, or
    when the action is neither 'add' nor 'subscribe', the handler answers
    500 with the fallback message and sends nothing after the resolution:
    no email, no subscription, no notification. *)
Theorem fallback_response request w st w' :
  resolveState (param request "emailAddr") (param request "listName")
    (parsed request w) = (Returned (inr st), w') →
  onList st = false
  ∨ (param request "action" ≠ str "add" ∧ param request "action" ≠ str "subscribe") →
  handleRequest request w
  = (Returned (JsonResponse (fallback_message request) 500 json_headers), w').
Proof.
  intros Hstate Hcase. rewrite handleRequest_run, Hstate.
  unfold respond. cbv zeta. destruct Hcase as [-> | [Hadd Hsubscribe]].
  - reflexivity.
  - rewrite (strict_eq_str_false _ _ Hadd), (strict_eq_str_false _ _ Hsubscribe).
    by destruct (onList st), (alreadySubscribed st).
Qed.

(** X24: the client is constructed with two headers, Authorization and
    Accept, and the Authorization value is 'Basic ' followed by a string
    that [atob] decodes to '{user}:{password}'. *)
Theorem client_credentials_round_trip headers :
  Client_constructor = Some headers →
  ∃ credentials,
    headers = [ (lit "Authorization", lit "Basic " ++ credentials);
                (lit "Accept", lit "application/json") ]
    ∧ Base64.atob credentials
      = Some (ToString MJ_USER ++ lit ":" ++ ToString MJ_PASS).
Proof.
  unfold Client_constructor.
  destruct (Base64.btoa _) as [credentials|] eqn:Hb64; [| discriminate].
  intros [= <-]. exists credentials. split; [reflexivity |].
  by apply atob_btoa.
Qed.

End Fallback.

Lemma fallback_response_witness :
  let env := open_account in
  let w := start env in
  ∃ st w',
    resolveState (param actionless_request "emailAddr")
      (param actionless_request "listName") (parsed actionless_request w)
    = (Returned (inr st), w')
    ∧ (onList st = false
       ∨ (param actionless_request "action" ≠ str "add"
          ∧ param actionless_request "action" ≠ str "subscribe"))
    ∧ handleRequest actionless_request w
      = (Returned (JsonResponse (fallback_message actionless_request) 500
                     json_headers), w').
Proof.
  intros env w.
  pose (r := resolveState (param actionless_request "emailAddr")
               (param actionless_request "listName") (parsed actionless_request w)).
  pose (st := match r.1 with Returned (inr st) => st | _ => no_locals end).
  assert (Hstate : resolveState (param actionless_request "emailAddr")
                     (param actionless_request "listName")
                     (parsed actionless_request w)
                   = (Returned (inr st), r.2)) by (vm_compute; reflexivity).
  assert (Hcase : onList st = false
                  ∨ (param actionless_request "action" ≠ str "add"
                     ∧ param actionless_request "action" ≠ str "subscribe"))
    by (right; split; vm_compute; discriminate).
  exists st, r.2. split; [exact Hstate |]. split; [exact Hcase |].
  exact (fallback_response (H := env) actionless_request w st r.2 Hstate Hcase).
Defined.

Lemma client_credentials_round_trip_witness :
  let env := account [] in
  let headers := [ (lit "Authorization", lit "Basic dXNlcjpzZWNyZXQ=");
                   (lit "Accept", lit "application/json") ] in
  Client_constructor = Some headers
  ∧ ∃ credentials,
      headers = [ (lit "Authorization", lit "Basic " ++ credentials);
                  (lit "Accept", lit "application/json") ]
      ∧ Base64.atob credentials = Some (lit "user:secret").
Proof.
  intros env headers.
  assert (Hclient : Client_constructor = Some headers) by (vm_compute; reflexivity).
  split; [exact Hclient |].
  exact (client_credentials_round_trip (H := env) headers Hclient).
Defined.
